(** * Kanban: the board/task tree of [src/App.js] and its operations

    A shallow embedding of the state-changing handlers of the React
    component [KanbanApp] ([src/App.js]), of its layout component
    [SimpleMasonry] and its own persistence ([getInitialBoards] and the save
    effect), and of [ElectronStorage] ([src/storage.js]) with the handlers
    of the main process ([public/electron.js]) that it calls.

    The component state [boards] is an array of board objects; each board
    owns an array of task objects, and each task owns its [subtasks] array
    (unbounded nesting) and its [content] array.  Handlers read [boards],
    build [newBoards] and hand it to [setBoards].  Here a handler is a
    function from the current [boards] (and the event data it reads) to the
    value passed to [setBoards]; when the handler returns before calling
    [setBoards] the result is the current [boards].

    Two layers are used.
    - The value layer ([list Board.t]): arrays are lists, objects are
      records, an in-place write is a functional update.  This is exact as
      long as no object is reachable along two paths of the tree, which
      holds for every state the handlers build (objects enter the tree by
      [JSON.parse], by a fresh literal, or by being moved).
    - The store layer (module [Shared]): board objects live in a store and a
      snapshot is an array of references, so that the sharing between the
      array before and the array after a handler is visible. *)

From Stdlib Require Import ZArith Lia List Ascii String Sorting.Permutation Sorting.Sorted.
From Stdlib Require Import Decimal DecimalZ DecimalPos.
From stdpp Require Import base list strings gmap.

#[local] Set Warnings "-register-all".
#[local] Open Scope string_scope.
#[local] Open Scope list_scope.
#[local] Open Scope Z_scope.

(** ** JavaScript array primitives *)

Module Js.

Section Arrays.
Context {A : Type}.

(** [arr.findIndex(p)]; [None] stands for the result [-1]. *)
Fixpoint findIndex (p : A -> bool) (arr : list A) : option nat :=
  match arr with
  | [] => None
  | x :: rest => if p x then Some 0%nat else option_map S (findIndex p rest)
  end.

(** [arr.push(x)]. *)
Definition push (arr : list A) (x : A) : list A := arr ++ [x].

(** The relative start of [Array.prototype.splice]: a negative [start]
    counts from the end and is clamped at 0, a [start] beyond the end is
    clamped at the length. *)
Definition spliceStart (len start : Z) : Z :=
  if start <? 0 then Z.max (len + start) 0 else Z.min start len.

(** [arr.splice(start, deleteCount, ...items)]: the removed elements and the
    array afterwards. *)
Definition splice (arr : list A) (start deleteCount : Z) (items : list A)
  : list A * list A :=
  let len := Z.of_nat (length arr) in
  let s := spliceStart len start in
  let d := Z.min (Z.max deleteCount 0) (len - s) in
  (take (Z.to_nat d) (drop (Z.to_nat s) arr),
   take (Z.to_nat s) arr ++ items ++ drop (Z.to_nat (s + d)) arr).

(** [arr[i]] for a number [i]: [None] stands for [undefined]. *)
Definition get (arr : list A) (i : Z) : option A :=
  if i <? 0 then None else arr !! Z.to_nat i.

End Arrays.

(** Truthiness of a string-or-null value: [null] and the empty string are
    falsy. *)
Definition truthy (s : option string) : bool :=
  match s with
  | Some v => negb (String.eqb v "")
  | None => false
  end.

(** Outcome of a handler body: it completes, or a TypeError escapes. *)
Inductive completion (A : Type) : Type :=
| Normal (a : A)
| TypeError.
Arguments Normal {A} a.
Arguments TypeError {A}.

End Js.

(** ** Data model *)

(** A content item [{ type, text }]. *)
Record ContentItem := mkContentItem { type : string; text : string }.

Module Task.

(** A task object; [subtasks] nests without bound. *)
Inductive t : Type := mk {
  id : string;
  title : string;
  description : string;
  dueDate : string;
  priority : string;
  tags : list string;
  subtasks : list t;
  content : list ContentItem
}.

Definition setTitle (x : t) (v : string) : t :=
  mk (id x) v (description x) (dueDate x) (priority x) (tags x) (subtasks x) (content x).
Definition setDescription (x : t) (v : string) : t :=
  mk (id x) (title x) v (dueDate x) (priority x) (tags x) (subtasks x) (content x).
Definition setDueDate (x : t) (v : string) : t :=
  mk (id x) (title x) (description x) v (priority x) (tags x) (subtasks x) (content x).
Definition setPriority (x : t) (v : string) : t :=
  mk (id x) (title x) (description x) (dueDate x) v (tags x) (subtasks x) (content x).
Definition setSubtasks (x : t) (v : list t) : t :=
  mk (id x) (title x) (description x) (dueDate x) (priority x) (tags x) v (content x).
Definition setContent (x : t) (v : list ContentItem) : t :=
  mk (id x) (title x) (description x) (dueDate x) (priority x) (tags x) (subtasks x) v.

End Task.

Module Board.

(** A board object.  [order] is a number in every state the handlers build
    (so [b.order || 0] is [b.order]). *)
Record t : Type := mk {
  id : string;
  title : string;
  color : string;
  order : Z;
  tasks : list Task.t
}.

Definition setTitle (b : t) (v : string) : t := mk (id b) v (color b) (order b) (tasks b).
Definition setOrder (b : t) (v : Z) : t := mk (id b) (title b) (color b) v (tasks b).
Definition setTasks (b : t) (v : list Task.t) : t := mk (id b) (title b) (color b) (order b) v.

End Board.

(** The payload written by [handleTaskDragStart]. *)
Record DragData := mkDragData {
  boardId : string;
  taskId : string;
  isSubtask : bool;
  parentTaskId : option string
}.

(** ** The recursive closures over a task forest

    Every closure is the same loop,
    [for (i = 0; i < tasks.length; i++) { if (tasks[i].id === id) {...; return};
       if (rec(tasks[i].subtasks)) return }],
    written here by recursion on the array with a nested recursion into the
    subtasks of its head.  The array after the loop is part of the result. *)

(** [findAndRemoveTask(boardTasks, taskId)] of [handleTaskDrop]: the removed
    task (or [None] for [null]) and [boardTasks] afterwards.  The auxiliary
    function is the call on [x.subtasks], giving [x] afterwards. *)
Fixpoint findAndRemoveTask_sub (taskId : string) (x : Task.t) : option Task.t * Task.t :=
  let fix loop (boardTasks : list Task.t) : option Task.t * list Task.t :=
    match boardTasks with
    | [] => (None, [])
    | y :: rest =>
        if String.eqb (Task.id y) taskId then (Some y, rest)
        else match findAndRemoveTask_sub taskId y with
             | (Some fromSubtasks, y') => (Some fromSubtasks, y' :: rest)
             | (None, _) => let '(r, rest') := loop rest in (r, y :: rest')
             end
    end in
  let '(r, subs) := loop (Task.subtasks x) in (r, Task.setSubtasks x subs).

Fixpoint findAndRemoveTask (boardTasks : list Task.t) (taskId : string)
  : option Task.t * list Task.t :=
  match boardTasks with
  | [] => (None, [])
  | y :: rest =>
      if String.eqb (Task.id y) taskId then (Some y, rest)
      else match findAndRemoveTask_sub taskId y with
           | (Some fromSubtasks, y') => (Some fromSubtasks, y' :: rest)
           | (None, _) => let '(r, rest') := findAndRemoveTask rest taskId in (r, y :: rest')
           end
  end.

(** [removeTask(tasks)] of [deleteTask] (the task id is the closure's free
    variable): [tasks.splice(i, 1); return true]. *)
Fixpoint removeTask_sub (taskId : string) (x : Task.t) : bool * Task.t :=
  let fix loop (tasks : list Task.t) : bool * list Task.t :=
    match tasks with
    | [] => (false, [])
    | y :: rest =>
        if String.eqb (Task.id y) taskId then (true, rest)
        else match removeTask_sub taskId y with
             | (true, y') => (true, y' :: rest)
             | (false, _) => let '(r, rest') := loop rest in (r, y :: rest')
             end
    end in
  let '(r, subs) := loop (Task.subtasks x) in (r, Task.setSubtasks x subs).

Fixpoint removeTask (taskId : string) (tasks : list Task.t) : bool * list Task.t :=
  match tasks with
  | [] => (false, [])
  | y :: rest =>
      if String.eqb (Task.id y) taskId then (true, rest)
      else match removeTask_sub taskId y with
           | (true, y') => (true, y' :: rest)
           | (false, _) => let '(r, rest') := removeTask taskId rest in (r, y :: rest')
           end
  end.

(** The loop shared by [addSubtask], [updateTitle], [updateTaskTitleInState],
    [updateTaskDescription], [updatePriority], [updateTaskDate],
    [addContentToTask] and [removeContentFromTask]: the statement run on the
    first task with the id is the parameter [write]. *)
Section WriteFirst.
Variable write : Task.t -> Task.t.
Variable targetId : string.

Fixpoint writeFirst_sub (x : Task.t) : bool * Task.t :=
  let fix loop (tasks : list Task.t) : bool * list Task.t :=
    match tasks with
    | [] => (false, [])
    | y :: rest =>
        if String.eqb (Task.id y) targetId then (true, write y :: rest)
        else match writeFirst_sub y with
             | (true, y') => (true, y' :: rest)
             | (false, _) => let '(r, rest') := loop rest in (r, y :: rest')
             end
    end in
  let '(r, subs) := loop (Task.subtasks x) in (r, Task.setSubtasks x subs).

Fixpoint writeFirst (tasks : list Task.t) : bool * list Task.t :=
  match tasks with
  | [] => (false, [])
  | y :: rest =>
      if String.eqb (Task.id y) targetId then (true, write y :: rest)
      else match writeFirst_sub y with
           | (true, y') => (true, y' :: rest)
           | (false, _) => let '(r, rest') := writeFirst rest in (r, y :: rest')
           end
  end.

End WriteFirst.

(** [addSubtask(tasks, parentId, newSubtask)]: [tasks[i].subtasks.push(newSubtask)]. *)
Definition addSubtask (tasks : list Task.t) (parentId : string) (newSubtask : Task.t)
  : bool * list Task.t :=
  writeFirst (fun p => Task.setSubtasks p (Js.push (Task.subtasks p) newSubtask)) parentId tasks.

(** ** Task relocation *)

(** A handler body gives [Some newBoards] when it reaches
    [setBoards(newBoards)] and [None] when it returns before; the component
    state afterwards is [newBoards], respectively the current [boards]. *)
Definition commit (boards : list Board.t) (call : option (list Board.t)) : list Board.t :=
  match call with
  | Some newBoards => newBoards
  | None => boards
  end.

(** [handleTaskDrop(e, targetBoardId, targetTaskId = null)].  [dragging] is
    the component state of that name and [jsonData] the parsed
    ['application/json'] payload of the event ([None] when [getData] gives
    the empty string).  [JSON.parse(JSON.stringify(boards))] is a copy with
    the same value. *)
Definition handleTaskDrop_body (boards : list Board.t) (dragging jsonData : option DragData)
    (targetBoardId : string) (targetTaskId : option string) : option (list Board.t) :=
  match dragging, jsonData with
  | None, _ => None
  | Some _, None => None
  | Some _, Some dragData =>
      let sourceBoardId := boardId dragData in
      let sourceTaskId := taskId dragData in
      if bool_decide (targetTaskId = Some sourceTaskId) then None else
      let newBoards := boards in
      match Js.findIndex (fun b => String.eqb (Board.id b) sourceBoardId) newBoards with
      | None => None
      | Some sourceBoardIndex =>
          match newBoards !! sourceBoardIndex with
          | None => None
          | Some sourceBoard =>
              match findAndRemoveTask (Board.tasks sourceBoard) sourceTaskId with
              | (None, _) => None
              | (Some taskToMove, remaining) =>
                  let newBoards :=
                    <[sourceBoardIndex := Board.setTasks sourceBoard remaining]> newBoards in
                  match Js.findIndex (fun b => String.eqb (Board.id b) targetBoardId) newBoards with
                  | None => None
                  | Some targetBoardIndex =>
                      match (if Js.truthy targetTaskId then targetTaskId else None) with
                      | Some parentId =>
                          Some (alter (fun b => Board.setTasks b
                                         (snd (addSubtask (Board.tasks b) parentId taskToMove)))
                                      targetBoardIndex newBoards)
                      | None =>
                          Some (alter (fun b => Board.setTasks b
                                         (Js.push (Board.tasks b) taskToMove))
                                      targetBoardIndex newBoards)
                      end
                  end
              end
          end
      end
  end.

Definition handleTaskDrop (boards : list Board.t) (dragging jsonData : option DragData)
    (targetBoardId : string) (targetTaskId : option string) : list Board.t :=
  commit boards (handleTaskDrop_body boards dragging jsonData targetBoardId targetTaskId).

(** ** Board reordering *)

(** [handleBoardDrop(e, targetBoardId)].  [draggingBoard] is the component
    state of that name, [sourceBoardId] the ['board/id'] payload of the
    event (the empty string when absent). *)
Definition handleBoardDrop_body (boards : list Board.t) (draggingBoard : option string)
    (sourceBoardId targetBoardId : string) : option (list Board.t) :=
  if negb (Js.truthy draggingBoard) then None else
  if String.eqb sourceBoardId "" || String.eqb sourceBoardId targetBoardId then None else
  let newBoards := boards in
  match Js.findIndex (fun b => String.eqb (Board.id b) sourceBoardId) newBoards,
        Js.findIndex (fun b => String.eqb (Board.id b) targetBoardId) newBoards with
  | Some draggedBoardIndex, Some targetBoardIndex =>
      let '(removed, newBoards) := Js.splice newBoards (Z.of_nat draggedBoardIndex) 1 [] in
      match removed with
      | draggedBoard :: _ =>
          let '(_, newBoards) := Js.splice newBoards (Z.of_nat targetBoardIndex) 0 [draggedBoard] in
          Some (imap (fun index board => Board.setOrder board (Z.of_nat index)) newBoards)
      | [] => None
      end
  | _, _ => None
  end.

Definition handleBoardDrop (boards : list Board.t) (draggingBoard : option string)
    (sourceBoardId targetBoardId : string) : list Board.t :=
  commit boards (handleBoardDrop_body boards draggingBoard sourceBoardId targetBoardId).

(** [sortedBoards = [...boards].sort((a, b) => (a.order || 0) - (b.order || 0))]:
    the display sequence.  [Array.prototype.sort] is stable; it is modelled
    by a stable insertion sort. *)
Fixpoint insertByOrder (b : Board.t) (sorted : list Board.t) : list Board.t :=
  match sorted with
  | [] => [b]
  | c :: rest =>
      if Board.order b - Board.order c <=? 0 then b :: c :: rest
      else c :: insertByOrder b rest
  end.

Definition sortedBoards (boards : list Board.t) : list Board.t :=
  foldr insertByOrder [] boards.

(** ** Editing handlers *)

(** The frame shared by the editing handlers:
    [const newBoards = [...boards];
     const boardIndex = newBoards.findIndex(board => board.id === boardId);
     if (boardIndex !== -1) { <write to newBoards[boardIndex].tasks> }
     setBoards(newBoards);]. *)
Definition onBoard (boards : list Board.t) (boardId : string)
    (write : list Task.t -> list Task.t) : list Board.t :=
  let newBoards := boards in
  match Js.findIndex (fun board => String.eqb (Board.id board) boardId) newBoards with
  | Some boardIndex =>
      alter (fun board => Board.setTasks board (write (Board.tasks board))) boardIndex newBoards
  | None => newBoards
  end.

Definition updateTitle (tasks : list Task.t) (targetId title : string) :=
  writeFirst (fun x => Task.setTitle x title) targetId tasks.

Definition updateTaskTitle (boards : list Board.t) (boardId taskId newTitle : string) :=
  onBoard boards boardId (fun tasks => snd (updateTitle tasks taskId newTitle)).

(** The [onChange] handler of the title input, around [updateTaskTitleInState]. *)
Definition updateTaskTitleInState (tasks : list Task.t) (targetId newTitle : string) :=
  writeFirst (fun x => Task.setTitle x newTitle) targetId tasks.

Definition taskTitle_onChange (boards : list Board.t) (boardId taskId value : string) :=
  onBoard boards boardId (fun tasks => snd (updateTaskTitleInState tasks taskId value)).

(** The [onChange] handler of the description textarea. *)
Definition updateTaskDescription (tasks : list Task.t) (targetId newDescription : string) :=
  writeFirst (fun x => Task.setDescription x newDescription) targetId tasks.

Definition description_onChange (boards : list Board.t) (boardId taskId value : string) :=
  onBoard boards boardId (fun tasks => snd (updateTaskDescription tasks taskId value)).

Definition updatePriority (tasks : list Task.t) (targetId newPriority : string) :=
  writeFirst (fun x => Task.setPriority x newPriority) targetId tasks.

Definition updateTaskPriority (boards : list Board.t) (boardId taskId priority : string) :=
  onBoard boards boardId (fun tasks => snd (updatePriority tasks taskId priority)).

Definition updateTaskDate (tasks : list Task.t) (targetId newDate : string) :=
  writeFirst (fun x => Task.setDueDate x newDate) targetId tasks.

Definition setDueDate (boards : list Board.t) (taskId boardId date : string) :=
  onBoard boards boardId (fun tasks => snd (updateTaskDate tasks taskId date)).

Definition deleteTask (boards : list Board.t) (boardId taskId : string) :=
  onBoard boards boardId (fun tasks => snd (removeTask taskId tasks)).

(** [addNewTask(boardId)]; [stamp] is the rendering of [Date.now()]. *)
Definition newTask (stamp : string) : Task.t :=
  Task.mk ("task-" ++ stamp)%string "New Task" "Add description here" "" "medium" [] [] [].

Definition addNewTask (boards : list Board.t) (stamp boardId : string) :=
  onBoard boards boardId (fun tasks => Js.push tasks (newTask stamp)).

Definition addContentToTask (tasks : list Task.t) (targetId contentType : string) :=
  writeFirst
    (fun x => Task.setContent x
       (Js.push (Task.content x)
          (mkContentItem contentType
             (if String.eqb contentType "bullet" then "New bullet point"
              else "New numbered item"))))
    targetId tasks.

Definition addContentItem (boards : list Board.t) (taskId boardId type : string) :=
  onBoard boards boardId (fun tasks => snd (addContentToTask tasks taskId type)).

(** [removeContentFromTask]: [tasks[i].content.splice(index, 1)]. *)
Definition removeContentFromTask (tasks : list Task.t) (targetId : string) (index : Z) :=
  writeFirst (fun x => Task.setContent x (snd (Js.splice (Task.content x) index 1 [])))
    targetId tasks.

Definition deleteContentItem (boards : list Board.t) (taskId boardId : string)
    (contentIndex : Z) :=
  onBoard boards boardId (fun tasks => snd (removeContentFromTask tasks taskId contentIndex)).

(** [updateTaskContent] of the content input's [onChange] handler:
    [tasks[i].content[index].text = newText] raises a TypeError when
    [content[index]] is [undefined]. *)
Definition writeContentText (x : Task.t) (index : Z) (newText : string)
  : Js.completion Task.t :=
  match Js.get (Task.content x) index with
  | Some item =>
      Js.Normal (Task.setContent x
                   (<[Z.to_nat index := mkContentItem (type item) newText]> (Task.content x)))
  | None => Js.TypeError
  end.

Fixpoint updateTaskContent_sub (targetId : string) (index : Z) (newText : string)
    (x : Task.t) : Js.completion (bool * Task.t) :=
  let fix loop (tasks : list Task.t) : Js.completion (bool * list Task.t) :=
    match tasks with
    | [] => Js.Normal (false, [])
    | y :: rest =>
        if String.eqb (Task.id y) targetId then
          match writeContentText y index newText with
          | Js.Normal y' => Js.Normal (true, y' :: rest)
          | Js.TypeError => Js.TypeError
          end
        else match updateTaskContent_sub targetId index newText y with
             | Js.Normal (true, y') => Js.Normal (true, y' :: rest)
             | Js.Normal (false, _) =>
                 match loop rest with
                 | Js.Normal (r, rest') => Js.Normal (r, y :: rest')
                 | Js.TypeError => Js.TypeError
                 end
             | Js.TypeError => Js.TypeError
             end
    end in
  match loop (Task.subtasks x) with
  | Js.Normal (r, subs) => Js.Normal (r, Task.setSubtasks x subs)
  | Js.TypeError => Js.TypeError
  end.

Fixpoint updateTaskContent (tasks : list Task.t) (targetId : string) (index : Z)
    (newText : string) : Js.completion (bool * list Task.t) :=
  match tasks with
  | [] => Js.Normal (false, [])
  | y :: rest =>
      if String.eqb (Task.id y) targetId then
        match writeContentText y index newText with
        | Js.Normal y' => Js.Normal (true, y' :: rest)
        | Js.TypeError => Js.TypeError
        end
      else match updateTaskContent_sub targetId index newText y with
           | Js.Normal (true, y') => Js.Normal (true, y' :: rest)
           | Js.Normal (false, _) =>
               match updateTaskContent rest targetId index newText with
               | Js.Normal (r, rest') => Js.Normal (r, y :: rest')
               | Js.TypeError => Js.TypeError
               end
           | Js.TypeError => Js.TypeError
           end
  end.

(** The [onChange] handler of a content input.  There is no [try]: a
    TypeError leaves the handler before [setBoards] and before any write. *)
Definition contentItem_onChange (boards : list Board.t) (boardId taskId : string)
    (index : Z) (value : string) : Js.completion (list Board.t) :=
  let newBoards := boards in
  match Js.findIndex (fun board => String.eqb (Board.id board) boardId) newBoards with
  | Some boardIndex =>
      match newBoards !! boardIndex with
      | Some board =>
          match updateTaskContent (Board.tasks board) taskId index value with
          | Js.Normal (_, tasks) =>
              Js.Normal (<[boardIndex := Board.setTasks board tasks]> newBoards)
          | Js.TypeError => Js.TypeError
          end
      | None => Js.Normal newBoards
      end
  | None => Js.Normal newBoards
  end.

(** ** Board handlers *)

Definition updateBoardTitle (boards : list Board.t) (boardId newTitle : string) :=
  let newBoards := boards in
  match Js.findIndex (fun board => String.eqb (Board.id board) boardId) newBoards with
  | Some boardIndex => alter (fun board => Board.setTitle board newTitle) boardIndex newBoards
  | None => newBoards
  end.

(** [deleteBoard(boardId)]; [confirmed] is the answer of [window.confirm]. *)
Definition deleteBoard (boards : list Board.t) (confirmed : bool) (boardId : string) :=
  if confirmed then
    List.filter (fun board => negb (String.eqb (Board.id board) boardId)) boards
  else boards.

Definition randomBoardColors : list string :=
  [ "bg-red-500"; "bg-orange-500"; "bg-amber-500"; "bg-yellow-500"; "bg-lime-500";
    "bg-green-500"; "bg-emerald-500"; "bg-teal-500"; "bg-cyan-500"; "bg-sky-500";
    "bg-blue-500"; "bg-indigo-500"; "bg-violet-500"; "bg-purple-500"; "bg-fuchsia-500";
    "bg-pink-500"; "bg-rose-500"; "bg-gray-500"; "bg-slate-500"; "bg-zinc-500" ].

(** [addNewBoard()]; [pick] is [Math.floor(Math.random() * randomBoardColors.length)],
    a number below the length, and [stamp] the rendering of [Date.now()]. *)
Definition newBoard (count : nat) (pick : nat) (stamp : string) : Board.t :=
  Board.mk ("board-" ++ stamp)%string "New Board"
    (nth (pick mod length randomBoardColors) randomBoardColors "")
    (Z.of_nat count) [].

Definition addNewBoard (boards : list Board.t) (pick : nat) (stamp : string) :=
  boards ++ [newBoard (length boards) pick stamp].

(** ** Measures and membership on task forests *)

(** The ids of a task and of all its descendants, in depth-first pre-order. *)
Fixpoint taskIds (x : Task.t) : list string :=
  Task.id x :: flat_map taskIds (Task.subtasks x).

Definition forestIds (tasks : list Task.t) : list string := flat_map taskIds tasks.

(** The number of task nodes of a task's subtree, the task included. *)
Fixpoint taskSize (x : Task.t) : nat :=
  S (list_sum (map taskSize (Task.subtasks x))).

Definition forestSize (tasks : list Task.t) : nat := list_sum (map taskSize tasks).

(** The number of tasks strictly below a task. *)
Definition descendants (x : Task.t) : nat := forestSize (Task.subtasks x).

(** All task ids of the tree, and its number of task nodes. *)
Definition allTaskIds (boards : list Board.t) : list string :=
  flat_map (fun b => forestIds (Board.tasks b)) boards.

Definition totalTasks (boards : list Board.t) : nat :=
  list_sum (map (fun b => forestSize (Board.tasks b)) boards).

(** [InForest x tasks]: the task [x] occurs in the forest at some depth. *)
Inductive InForest (x : Task.t) : list Task.t -> Prop :=
| InForest_here rest : InForest x (x :: rest)
| InForest_below y rest : InForest x (Task.subtasks y) -> InForest x (y :: rest)
| InForest_later y rest : InForest x rest -> InForest x (y :: rest).

(** [DescendantOf d a]: [d] occurs in the subtask subtree of [a], at depth
    at least 1. *)
Definition DescendantOf (d a : Task.t) : Prop := InForest d (Task.subtasks a).

(** The task at which the loops stop: the first one with the id in
    depth-first pre-order. *)
Definition locate (tasks : list Task.t) (targetId : string) : option Task.t :=
  fst (findAndRemoveTask tasks targetId).

(** The component state after a handler that may raise: an escaping
    TypeError skips [setBoards]. *)
Definition settle (boards : list Board.t) (outcome : Js.completion (list Board.t))
  : list Board.t :=
  match outcome with
  | Js.Normal newBoards => newBoards
  | Js.TypeError => boards
  end.

(** The fields of a board other than its tasks. *)
Definition boardFrame (b : Board.t) : string * string * string * Z :=
  (Board.id b, Board.title b, Board.color b, Board.order b).

(** The reordering as the specification words it: take the source board
    out, put it back immediately before the target board, number the boards
    by index; nothing happens when the ids are equal or one is missing. *)
Definition reorderBoards_asSpecified (boards : list Board.t)
    (sourceBoardId targetBoardId : string) : list Board.t :=
  if String.eqb sourceBoardId targetBoardId then boards else
  match Js.findIndex (fun b => String.eqb (Board.id b) sourceBoardId) boards with
  | Some sourceIndex =>
      match boards !! sourceIndex with
      | Some source =>
          let others := delete sourceIndex boards in
          match Js.findIndex (fun b => String.eqb (Board.id b) targetBoardId) others with
          | Some k =>
              imap (fun index board => Board.setOrder board (Z.of_nat index))
                   (take k others ++ source :: drop k others)
          | None => boards
          end
      | None => boards
      end
  | None => boards
  end.

(** ** Persistence: [src/storage.js] over [JSON] and [localStorage]

    [JSON.stringify], [JSON.parse] and [localStorage] are built into the
    browser; they are modelled after ECMA-262 and the Web Storage
    interface.  A value is what [JSON] can carry; numbers are integers (an
    order is an array index) and a numeral with a fraction or an exponent is
    not read.  A string is a sequence of 8-bit code units, so a [\u] escape
    above [00ff] is not read either. *)

Module Json.

Inductive value : Type :=
| Null
| Bool (b : bool)
| Number (z : Z)
| Str (s : string)
| Array (items : list value)
| Object (members : list (string * value)).

Definition chars (s : string) : list ascii := list_ascii_of_string s.

Definition isChar (c : ascii) (s : string) : bool :=
  match s with
  | String d EmptyString => Ascii.eqb c d
  | _ => false
  end.

(** The double quote and the backslash, by code. *)
Definition dquote : ascii := ascii_of_nat 34.
Definition backslash : ascii := ascii_of_nat 92.

(** *** [JSON.stringify(value)] (no indentation) *)

Definition hexDigit (n : nat) : ascii :=
  nth n (chars "0123456789abcdef") "0"%char.

(** QuoteJSONString, one code unit. *)
Definition escapeChar (c : ascii) : list ascii :=
  let n := nat_of_ascii c in
  if Ascii.eqb c dquote then [backslash; dquote]
  else if Ascii.eqb c backslash then [backslash; backslash]
  else if Nat.eqb n 8 then backslash :: chars "b"
  else if Nat.eqb n 12 then backslash :: chars "f"
  else if Nat.eqb n 10 then backslash :: chars "n"
  else if Nat.eqb n 13 then backslash :: chars "r"
  else if Nat.eqb n 9 then backslash :: chars "t"
  else if Nat.ltb n 32 then
    backslash :: chars "u00" ++ [hexDigit (n / 16); hexDigit (n mod 16)]
  else [c].

Definition quote (s : string) : list ascii :=
  dquote :: flat_map escapeChar (chars s) ++ [dquote].

Fixpoint uintChars (d : Decimal.uint) : list ascii :=
  match d with
  | Decimal.Nil => []
  | Decimal.D0 r => "0"%char :: uintChars r
  | Decimal.D1 r => "1"%char :: uintChars r
  | Decimal.D2 r => "2"%char :: uintChars r
  | Decimal.D3 r => "3"%char :: uintChars r
  | Decimal.D4 r => "4"%char :: uintChars r
  | Decimal.D5 r => "5"%char :: uintChars r
  | Decimal.D6 r => "6"%char :: uintChars r
  | Decimal.D7 r => "7"%char :: uintChars r
  | Decimal.D8 r => "8"%char :: uintChars r
  | Decimal.D9 r => "9"%char :: uintChars r
  end.

Definition printNumber (z : Z) : list ascii :=
  match Z.to_int z with
  | Decimal.Pos d => uintChars d
  | Decimal.Neg d => chars "-" ++ uintChars d
  end.

Fixpoint print (v : value) : list ascii :=
  match v with
  | Null => chars "null"
  | Bool true => chars "true"
  | Bool false => chars "false"
  | Number z => printNumber z
  | Str s => quote s
  | Array items =>
      chars "[" ++
      (fix elements (l : list value) : list ascii :=
         match l with
         | [] => []
         | x :: rest =>
             print x ++ match rest with
                        | [] => []
                        | _ :: _ => chars "," ++ elements rest
                        end
         end) items ++
      chars "]"
  | Object members =>
      chars "{" ++
      (fix properties (l : list (string * value)) : list ascii :=
         match l with
         | [] => []
         | (k, x) :: rest =>
             quote k ++ chars ":" ++ print x ++
             match rest with
             | [] => []
             | _ :: _ => chars "," ++ properties rest
             end
         end) members ++
      chars "}"
  end.

(** The elements and the properties between the brackets, as [print] lays
    them out. *)
Fixpoint elements (l : list value) : list ascii :=
  match l with
  | [] => []
  | x :: rest =>
      print x ++ match rest with
                 | [] => []
                 | _ :: _ => chars "," ++ elements rest
                 end
  end.

Fixpoint properties (l : list (string * value)) : list ascii :=
  match l with
  | [] => []
  | (k, x) :: rest =>
      quote k ++ chars ":" ++ print x ++
      match rest with
      | [] => []
      | _ :: _ => chars "," ++ properties rest
      end
  end.

Definition stringify (v : value) : string := string_of_list_ascii (print v).

(** *** [JSON.parse(text)]; [None] stands for a SyntaxError *)

Definition isWhitespace (c : ascii) : bool :=
  let n := nat_of_ascii c in
  Nat.eqb n 32 || Nat.eqb n 9 || Nat.eqb n 10 || Nat.eqb n 13.

Fixpoint skipWhitespace (cs : list ascii) : list ascii :=
  match cs with
  | c :: rest => if isWhitespace c then skipWhitespace rest else cs
  | [] => []
  end.

Fixpoint stripPrefix (prefix cs : list ascii) : option (list ascii) :=
  match prefix, cs with
  | [], _ => Some cs
  | p :: prefix', c :: cs' => if Ascii.eqb p c then stripPrefix prefix' cs' else None
  | _ :: _, [] => None
  end.

Definition hexValue (c : ascii) : option nat :=
  let n := nat_of_ascii c in
  if Nat.leb 48 n && Nat.leb n 57 then Some (n - 48)%nat
  else if Nat.leb 97 n && Nat.leb n 102 then Some (n - 87)%nat
  else if Nat.leb 65 n && Nat.leb n 70 then Some (n - 55)%nat
  else None.

(** Where the string reader is: between characters, after a backslash, or
    inside a [\u] escape with [more] digits to go and [code] read so far. *)
Inductive stringState : Type :=
| Plain
| Escape
| Unicode (more code : nat).

(** Reads a string after its opening quote; [acc] is what has been read,
    last character first. *)
Fixpoint readString (st : stringState) (acc : list ascii) (cs : list ascii)
  : option (string * list ascii) :=
  match cs with
  | [] => None
  | c :: rest =>
      match st with
      | Plain =>
          if Ascii.eqb c dquote then Some (string_of_list_ascii (rev acc), rest)
          else if Ascii.eqb c backslash then readString Escape acc rest
          else if Nat.ltb (nat_of_ascii c) 32 then None
          else readString Plain (c :: acc) rest
      | Escape =>
          if Ascii.eqb c dquote || Ascii.eqb c backslash || isChar c "/" then
            readString Plain (c :: acc) rest
          else if isChar c "b" then readString Plain (ascii_of_nat 8 :: acc) rest
          else if isChar c "f" then readString Plain (ascii_of_nat 12 :: acc) rest
          else if isChar c "n" then readString Plain (ascii_of_nat 10 :: acc) rest
          else if isChar c "r" then readString Plain (ascii_of_nat 13 :: acc) rest
          else if isChar c "t" then readString Plain (ascii_of_nat 9 :: acc) rest
          else if isChar c "u" then readString (Unicode 3 0) acc rest
          else None
      | Unicode more code =>
          match hexValue c with
          | Some h =>
              let code := (code * 16 + h)%nat in
              match more with
              | O => if Nat.ltb code 256 then readString Plain (ascii_of_nat code :: acc) rest
                     else None
              | S more' => readString (Unicode more' code) acc rest
              end
          | None => None
          end
      end
  end.

(** Reads the longest run of digits. *)
Fixpoint readDigits (cs : list ascii) : Decimal.uint * list ascii :=
  match cs with
  | [] => (Decimal.Nil, [])
  | c :: rest =>
      let '(d, rest') := readDigits rest in
      if isChar c "0" then (Decimal.D0 d, rest')
      else if isChar c "1" then (Decimal.D1 d, rest')
      else if isChar c "2" then (Decimal.D2 d, rest')
      else if isChar c "3" then (Decimal.D3 d, rest')
      else if isChar c "4" then (Decimal.D4 d, rest')
      else if isChar c "5" then (Decimal.D5 d, rest')
      else if isChar c "6" then (Decimal.D6 d, rest')
      else if isChar c "7" then (Decimal.D7 d, rest')
      else if isChar c "8" then (Decimal.D8 d, rest')
      else if isChar c "9" then (Decimal.D9 d, rest')
      else (Decimal.Nil, cs)
  end.

(** A numeral of several digits must not start with 0. *)
Definition leadingZero (d : Decimal.uint) : bool :=
  match d with
  | Decimal.D0 Decimal.Nil => false
  | Decimal.D0 _ => true
  | _ => false
  end.

(** An integer numeral; a fraction or an exponent after it is not read. *)
Definition readNumber (negative : bool) (cs : list ascii) : option (value * list ascii) :=
  match readDigits cs with
  | (Decimal.Nil, _) => None
  | (d, rest) =>
      if leadingZero d then None else
      match rest with
      | c :: _ =>
          if isChar c "." || isChar c "e" || isChar c "E" then None
          else Some (Number (Z.of_int (if negative then Decimal.Neg d else Decimal.Pos d)), rest)
      | [] => Some (Number (Z.of_int (if negative then Decimal.Neg d else Decimal.Pos d)), rest)
      end
  end.

Fixpoint parseValue (fuel : nat) (cs : list ascii) : option (value * list ascii) :=
  match fuel with
  | O => None
  | S fuel' =>
      match skipWhitespace cs with
      | [] => None
      | c :: rest =>
          if isChar c "n" then option_map (pair Null) (stripPrefix (chars "ull") rest)
          else if isChar c "t" then option_map (pair (Bool true)) (stripPrefix (chars "rue") rest)
          else if isChar c "f" then option_map (pair (Bool false)) (stripPrefix (chars "alse") rest)
          else if Ascii.eqb c dquote then
            option_map (fun '(s, rest') => (Str s, rest')) (readString Plain [] rest)
          else if isChar c "[" then
            match skipWhitespace rest with
            | c' :: rest' =>
                if isChar c' "]" then Some (Array [], rest')
                else option_map (fun '(items, after) => (Array items, after))
                       (parseElements fuel' (c' :: rest'))
            | [] => None
            end
          else if isChar c "{" then
            match skipWhitespace rest with
            | c' :: rest' =>
                if isChar c' "}" then Some (Object [], rest')
                else option_map (fun '(members, after) => (Object members, after))
                       (parseMembers fuel' (c' :: rest'))
            | [] => None
            end
          else if isChar c "-" then readNumber true rest
          else readNumber false (c :: rest)
      end
  end
with parseElements (fuel : nat) (cs : list ascii) : option (list value * list ascii) :=
  match fuel with
  | O => None
  | S fuel' =>
      match parseValue fuel' cs with
      | Some (v, rest) =>
          match skipWhitespace rest with
          | c :: rest' =>
              if isChar c "," then
                option_map (fun '(items, after) => (v :: items, after))
                  (parseElements fuel' rest')
              else if isChar c "]" then Some ([v], rest')
              else None
          | [] => None
          end
      | None => None
      end
  end
with parseMembers (fuel : nat) (cs : list ascii)
  : option (list (string * value) * list ascii) :=
  match fuel with
  | O => None
  | S fuel' =>
      match skipWhitespace cs with
      | q :: rest =>
          if Ascii.eqb q dquote then
            match readString Plain [] rest with
            | Some (k, rest1) =>
                match skipWhitespace rest1 with
                | colon :: rest2 =>
                    if isChar colon ":" then
                      match parseValue fuel' rest2 with
                      | Some (v, rest3) =>
                          match skipWhitespace rest3 with
                          | c :: rest4 =>
                              if isChar c "," then
                                option_map (fun '(members, after) => ((k, v) :: members, after))
                                  (parseMembers fuel' rest4)
                              else if isChar c "}" then Some ([(k, v)], rest4)
                              else None
                          | [] => None
                          end
                      | None => None
                      end
                    else None
                | [] => None
                end
            | None => None
            end
          else None
      | [] => None
      end
  end.

(** The whole text must be one value.  The recursion is bounded by the
    length of the text, which is enough for every text that [stringify]
    writes. *)
Definition parse (text : string) : option value :=
  match parseValue (String.length text) (chars text) with
  | Some (v, rest) =>
      match skipWhitespace rest with
      | [] => Some v
      | _ :: _ => None
      end
  | None => None
  end.

(** The number of recursion steps that reading a value takes at most. *)
Fixpoint size (v : value) : nat :=
  match v with
  | Array items => S (list_sum (map (fun x => S (size x)) items))
  | Object members => S (list_sum (map (fun m => S (size (snd m))) members))
  | _ => 1
  end.

(** What may come after a value inside a text: nothing, a comma, or a
    closing bracket. *)
Definition followed (rest : list ascii) : Prop :=
  match rest with
  | [] => True
  | c :: _ => isChar c "," || isChar c "]" || isChar c "}" = true
  end.

End Json.

(** The tree as the value [JSON.stringify] sees: objects with their
    properties in creation order. *)
Definition contentToJson (item : ContentItem) : Json.value :=
  Json.Object [("type", Json.Str (type item)); ("text", Json.Str (text item))].

Fixpoint taskToJson (x : Task.t) : Json.value :=
  Json.Object
    [ ("id", Json.Str (Task.id x));
      ("title", Json.Str (Task.title x));
      ("description", Json.Str (Task.description x));
      ("dueDate", Json.Str (Task.dueDate x));
      ("priority", Json.Str (Task.priority x));
      ("tags", Json.Array (map Json.Str (Task.tags x)));
      ("subtasks", Json.Array (map taskToJson (Task.subtasks x)));
      ("content", Json.Array (map contentToJson (Task.content x))) ].

Definition boardToJson (b : Board.t) : Json.value :=
  Json.Object
    [ ("id", Json.Str (Board.id b));
      ("title", Json.Str (Board.title b));
      ("color", Json.Str (Board.color b));
      ("order", Json.Number (Board.order b));
      ("tasks", Json.Array (map taskToJson (Board.tasks b))) ].

Definition boardsToJson (boards : list Board.t) : Json.value :=
  Json.Array (map boardToJson boards).

(** Reading the tree back from a value: [x.id], [x.title], ... *)
Definition property (members : list (string * Json.value)) (name : string)
  : option Json.value :=
  option_map snd (List.find (fun m => String.eqb (fst m) name) members).

Definition asString (v : option Json.value) : option string :=
  match v with Some (Json.Str s) => Some s | _ => None end.

Definition asNumber (v : option Json.value) : option Z :=
  match v with Some (Json.Number z) => Some z | _ => None end.

Definition asArray (v : option Json.value) : option (list Json.value) :=
  match v with Some (Json.Array items) => Some items | _ => None end.

Definition contentFromJson (v : Json.value) : option ContentItem :=
  match v with
  | Json.Object members =>
      ty ← asString (property members "type");
      tx ← asString (property members "text");
      Some (mkContentItem ty tx)
  | _ => None
  end.

Fixpoint taskFromJson (v : Json.value) : option Task.t :=
  match v with
  | Json.Object members =>
      i ← asString (property members "id");
      t ← asString (property members "title");
      d ← asString (property members "description");
      du ← asString (property members "dueDate");
      p ← asString (property members "priority");
      tg ← asArray (property members "tags");
      tg' ← mapM (fun x => asString (Some x)) tg;
      c ← asArray (property members "content");
      c' ← mapM contentFromJson c;
      subs ←
        (fix each (l : list (string * Json.value)) : option (list Task.t) :=
           match l with
           | [] => None
           | (k, x) :: rest =>
               if String.eqb k "subtasks" then
                 match x with
                 | Json.Array items =>
                     (fix all (xs : list Json.value) : option (list Task.t) :=
                        match xs with
                        | [] => Some []
                        | y :: ys =>
                            match taskFromJson y, all ys with
                            | Some y', Some ys' => Some (y' :: ys')
                            | _, _ => None
                            end
                        end) items
                 | _ => None
                 end
               else each rest
           end) members;
      Some (Task.mk i t d du p tg' subs c')
  | _ => None
  end.

Definition boardFromJson (v : Json.value) : option Board.t :=
  match v with
  | Json.Object members =>
      i ← asString (property members "id");
      t ← asString (property members "title");
      c ← asString (property members "color");
      o ← asNumber (property members "order");
      ts ← asArray (property members "tasks");
      ts' ← mapM taskFromJson ts;
      Some (Board.mk i t c o ts')
  | _ => None
  end.

Definition boardsFromJson (v : Json.value) : option (list Board.t) :=
  match v with
  | Json.Array items => mapM boardFromJson items
  | _ => None
  end.

(** [localStorage]: a map from keys to strings.  Whether a write is taken
    is the browser's business ([setItem] throws when the quota is
    exceeded); the policy is a parameter. *)
Section Storage.
Variable fits : gmap string string -> string -> string -> bool.

(** [saveToLocalStorage(key, data)]:
    [try { localStorage.setItem(key, JSON.stringify(data)); return true }
     catch (error) { return false }]. *)
Definition saveToLocalStorage (localStorage : gmap string string) (key : string)
    (data : Json.value) : gmap string string * bool :=
  let item := Json.stringify data in
  if fits localStorage key item then (<[key := item]> localStorage, true)
  else (localStorage, false).

(** [loadFromLocalStorage(key)]:
    [try { const item = localStorage.getItem(key);
           if (item) { return JSON.parse(item) } return null }
     catch (error) { return null }]. *)
Definition loadFromLocalStorage (localStorage : gmap string string) (key : string)
  : option Json.value :=
  match localStorage !! key with
  | Some item =>
      if String.eqb item "" then None
      else match Json.parse item with
           | Some data => Some data
           | None => None
           end
  | None => None
  end.

End Storage.

(** ** Sample trees *)

(** The default tree of [getInitialBoards]. *)
Definition defaultBoards : list Board.t :=
  [ Board.mk "board-1" "To Do" "bg-red-500" 0
      [ Task.mk "task-1" "Research task management solutions"
          "Look into existing apps and identify key features" "2025-05-20" "high"
          ["research"; "planning"] []
          [ mkContentItem "bullet" "Check user reviews";
            mkContentItem "bullet" "Compare pricing models" ] ];
    Board.mk "board-2" "In Progress" "bg-yellow-500" 1 [];
    Board.mk "board-3" "Done" "bg-green-500" 2 [] ].

Definition leaf (id : string) (subtasks : list Task.t) : Task.t :=
  Task.mk id "New Task" "Add description here" "" "medium" [] subtasks [].

(** Task A with a chain of subtasks B, C, D below it, and a second board
    holding a task E. *)
Definition taskD : Task.t := leaf "D" [].
Definition taskC : Task.t := leaf "C" [taskD].
Definition taskB : Task.t := leaf "B" [taskC].
Definition taskA : Task.t := leaf "A" [taskB].
Definition taskE : Task.t := leaf "E" [].

Definition nestedBoards : list Board.t :=
  [ Board.mk "b1" "To Do" "bg-red-500" 0 [taskA];
    Board.mk "b2" "Done" "bg-green-500" 1 [taskE] ].

Definition dragOf (board task : string) : DragData := mkDragData board task false None.

(** ** The store layer: snapshots that share board objects

    [const newBoards = [...boards]] copies the array, not the objects in it:
    the array before and the array after a handler hold the same references.
    A store cell stands for a board object together with the arrays and task
    objects it owns (no handler shares a task object between two boards);
    a reference is an index into the store and new objects are appended. *)

Module Shared.

Abbreviation ref := nat (only parsing).

Abbreviation store := (list Board.t) (only parsing).

(** The component state: the store and the [boards] array. *)
Record state := mkState { heap : store; boards : list ref }.

(** The tree a state denotes. *)
Definition view (s : state) : list Board.t :=
  omap (fun r : ref => heap s !! r) (boards s).

(** [board => board.id === boardId] on an array of references. *)
Definition idIs (sigma : store) (boardId : string) (r : ref) : bool :=
  match sigma !! r with
  | Some board => String.eqb (Board.id board) boardId
  | None => false
  end.

(** The frame of the editing handlers: the write goes to the object behind
    [newBoards[boardIndex]], which is also in [boards]. *)
Definition onBoard (s : state) (boardId : string)
    (write : list Task.t -> list Task.t) : state :=
  let newBoards := boards s in
  match Js.findIndex (idIs (heap s) boardId) newBoards with
  | Some boardIndex =>
      match newBoards !! boardIndex with
      | Some r =>
          mkState (alter (fun board => Board.setTasks board (write (Board.tasks board)))
                         r (heap s))
                  newBoards
      | None => mkState (heap s) newBoards
      end
  | None => mkState (heap s) newBoards
  end.

Definition updateTaskTitle (s : state) (boardId taskId newTitle : string) :=
  onBoard s boardId (fun tasks => snd (updateTitle tasks taskId newTitle)).

Definition taskTitle_onChange (s : state) (boardId taskId value : string) :=
  onBoard s boardId (fun tasks => snd (updateTaskTitleInState tasks taskId value)).

Definition description_onChange (s : state) (boardId taskId value : string) :=
  onBoard s boardId (fun tasks => snd (updateTaskDescription tasks taskId value)).

Definition updateTaskPriority (s : state) (boardId taskId priority : string) :=
  onBoard s boardId (fun tasks => snd (updatePriority tasks taskId priority)).

Definition setDueDate (s : state) (taskId boardId date : string) :=
  onBoard s boardId (fun tasks => snd (updateTaskDate tasks taskId date)).

Definition deleteTask (s : state) (boardId taskId : string) :=
  onBoard s boardId (fun tasks => snd (removeTask taskId tasks)).

Definition addNewTask (s : state) (stamp boardId : string) :=
  onBoard s boardId (fun tasks => Js.push tasks (newTask stamp)).

Definition addContentItem (s : state) (taskId boardId type : string) :=
  onBoard s boardId (fun tasks => snd (addContentToTask tasks taskId type)).

Definition deleteContentItem (s : state) (taskId boardId : string) (contentIndex : Z) :=
  onBoard s boardId (fun tasks => snd (removeContentFromTask tasks taskId contentIndex)).

Definition updateBoardTitle (s : state) (boardId newTitle : string) : state :=
  let newBoards := boards s in
  match Js.findIndex (idIs (heap s) boardId) newBoards with
  | Some boardIndex =>
      match newBoards !! boardIndex with
      | Some r => mkState (alter (fun board => Board.setTitle board newTitle) r (heap s))
                          newBoards
      | None => mkState (heap s) newBoards
      end
  | None => mkState (heap s) newBoards
  end.

(** [newBoards.forEach((board, index) => { board.order = index })]. *)
Definition forEachSetOrder (sigma : store) (newBoards : list ref) : store :=
  fold_left (fun acc (entry : nat * ref) =>
               alter (fun board => Board.setOrder board (Z.of_nat (fst entry)))
                     (snd entry) acc)
            (imap (fun index r => (index, r)) newBoards) sigma.

Definition handleBoardDrop (s : state) (draggingBoard : option string)
    (sourceBoardId targetBoardId : string) : state :=
  if negb (Js.truthy draggingBoard) then s else
  if String.eqb sourceBoardId "" || String.eqb sourceBoardId targetBoardId then s else
  let newBoards := boards s in
  match Js.findIndex (idIs (heap s) sourceBoardId) newBoards,
        Js.findIndex (idIs (heap s) targetBoardId) newBoards with
  | Some draggedBoardIndex, Some targetBoardIndex =>
      let '(removed, newBoards) := Js.splice newBoards (Z.of_nat draggedBoardIndex) 1 [] in
      match removed with
      | draggedBoard :: _ =>
          let '(_, newBoards) := Js.splice newBoards (Z.of_nat targetBoardIndex) 0 [draggedBoard] in
          mkState (forEachSetOrder (heap s) newBoards) newBoards
      | [] => s
      end
  | _, _ => s
  end.

(** [boards.filter(board => board.id !== boardId)]: a new array, no write. *)
Definition deleteBoard (s : state) (confirmed : bool) (boardId : string) : state :=
  if confirmed then
    mkState (heap s) (List.filter (fun r => negb (idIs (heap s) boardId r)) (boards s))
  else s.

(** [[...boards, newBoard]]: a new object and a new array. *)
Definition addNewBoard (s : state) (pick : nat) (stamp : string) : state :=
  mkState (heap s ++ [newBoard (length (boards s)) pick stamp])
          (boards s ++ [length (heap s)]).

(** [handleTaskDrop]: [JSON.parse(JSON.stringify(boards))] builds new
    objects holding the values read through the store, every write of the
    handler goes to these, and [setBoards] gets the array of the new
    objects. *)
Definition handleTaskDrop (s : state) (dragging jsonData : option DragData)
    (targetBoardId : string) (targetTaskId : option string) : state :=
  match handleTaskDrop_body (view s) dragging jsonData targetBoardId targetTaskId with
  | Some newBoards =>
      mkState (heap s ++ newBoards) (seq (length (heap s)) (length newBoards))
  | None => s
  end.

(** The content input's [onChange] handler; a TypeError leaves the state. *)
Definition contentItem_onChange (s : state) (boardId taskId : string)
    (index : Z) (value : string) : Js.completion state :=
  let newBoards := boards s in
  match Js.findIndex (idIs (heap s) boardId) newBoards with
  | Some boardIndex =>
      match newBoards !! boardIndex with
      | Some r =>
          match heap s !! r with
          | Some board =>
              match updateTaskContent (Board.tasks board) taskId index value with
              | Js.Normal (_, tasks) =>
                  Js.Normal (mkState (<[r := Board.setTasks board tasks]> (heap s)) newBoards)
              | Js.TypeError => Js.TypeError
              end
          | None => Js.Normal (mkState (heap s) newBoards)
          end
      | None => Js.Normal (mkState (heap s) newBoards)
      end
  | None => Js.Normal (mkState (heap s) newBoards)
  end.

Definition settle (s : state) (outcome : Js.completion state) : state :=
  match outcome with
  | Js.Normal s' => s'
  | Js.TypeError => s
  end.

(** The states the handlers build: every element of [boards] refers to an
    object, and no object is in the array twice. *)
Definition wellFormed (s : state) : Prop :=
  List.NoDup (boards s) /\ Forall (fun r => (r < length (heap s))%nat) (boards s).

(** The object behind a reference of a well-formed state. *)
Definition deref (sigma : store) (r : ref) : Board.t :=
  default (Board.mk "" "" "" 0 []) (sigma !! r).

(** The default tree in a store. *)
Definition defaultState : state := mkState defaultBoards [0%nat; 1%nat; 2%nat].

End Shared.

(** ** The nesting of a forest and the fields of a task *)

(** The nesting of the tasks: every id with the nestings below it. *)
Inductive Outline : Type := Node (id : string) (below : list Outline).

Fixpoint outlineOf (x : Task.t) : Outline :=
  Node (Task.id x) (map outlineOf (Task.subtasks x)).

(** A board as its id and the nesting of its tasks. *)
Definition boardOutline (b : Board.t) : string * list Outline :=
  (Board.id b, map outlineOf (Board.tasks b)).

(** The fields of a task object other than [subtasks]. *)
Definition ownFields (x : Task.t)
  : string * string * string * string * string * list string * list ContentItem :=
  (Task.id x, Task.title x, Task.description x, Task.dueDate x, Task.priority x,
   Task.tags x, Task.content x).

(** The fields of a board other than its order. *)
Definition boardContent (b : Board.t) : string * string * string * list Task.t :=
  (Board.id b, Board.title b, Board.color b, Board.tasks b).

(** ** The masonry layout: [SimpleMasonry] of [src/App.js] *)

(** [breakpointCols]: the value under [default] and the properties whose
    key is a number, as the object literal lists them. *)
Record BreakpointCols := mkBreakpointCols {
  defaultColumns : nat;
  numbered : list (N * nat)
}.

(** Defining a property whose key is an array index (a whole number below
    [2^32 - 1]).  [Object.keys] gives such keys in ascending order whatever
    the order of creation, before the other keys; a key defined twice keeps
    the last value. *)
Fixpoint defineKey (key : N) (value : nat) (props : list (N * nat)) : list (N * nat) :=
  match props with
  | [] => [(key, value)]
  | (key', value') :: rest =>
      if (key <? key')%N then (key, value) :: props
      else if (key =? key')%N then (key, value) :: rest
      else (key', value') :: defineKey key value rest
  end.

Definition numericKeys (literal : list (N * nat)) : list (N * nat) :=
  fold_left (fun props entry => defineKey (fst entry) (snd entry) props) literal [].

(** [updateColumns] with [window.innerWidth = width]: the value of
    [newColumns] after the [forEach] over [Object.keys(breakpointCols)].
    The key ['default'] comes last and the loop skips it. *)
Definition updateColumns (breakpointCols : BreakpointCols) (width : N) : nat :=
  fold_left (fun newColumns entry =>
               if (fst entry <=? width)%N then snd entry else newColumns)
            (numericKeys (numbered breakpointCols)) (defaultColumns breakpointCols).

(** [breakpointColumnsObj] of [KanbanApp]. *)
Definition breakpointColumnsObj : BreakpointCols :=
  mkBreakpointCols 4
    [ (2000%N, 4%nat); (1536%N, 3%nat); (1280%N, 3%nat); (1024%N, 2%nat);
      (768%N, 2%nat); (640%N, 2%nat); (500%N, 1%nat) ].

(** [distributeItems(items, columnCount)]:
    [const cols = Array.from({ length: columnCount }, () => []);
     items.forEach((item, index) => { cols[index % columnCount].push(item) })].
    With [columnCount = 0] the array is empty, [cols[NaN]] is [undefined]
    and [push] on it raises a TypeError. *)
Definition distributeItems {A : Type} (items : list A) (columnCount : nat)
  : Js.completion (list (list A)) :=
  let cols := replicate columnCount [] in
  fold_left
    (fun (acc : Js.completion (list (list A))) (entry : nat * A) =>
       match acc with
       | Js.Normal cols =>
           match cols !! (fst entry mod columnCount)%nat with
           | Some col =>
               Js.Normal (<[(fst entry mod columnCount)%nat := Js.push col (snd entry)]> cols)
           | None => Js.TypeError
           end
       | Js.TypeError => Js.TypeError
       end)
    (imap (fun index item => (index, item)) items) (Js.Normal cols).

(** ** The component's own persistence: [getInitialBoards] and the save effect *)

(** [getInitialBoards()]: the parsed item when there is a non-empty one that
    parses, the default tree otherwise.  The parsed value is returned as it
    is. *)
Definition getInitialBoards (localStorage : gmap string string) : Json.value :=
  match localStorage !! "kanbanBoards" with
  | Some storedBoards =>
      if String.eqb storedBoards "" then boardsToJson defaultBoards
      else match Json.parse storedBoards with
           | Some parsed => parsed
           | None => boardsToJson defaultBoards
           end
  | None => boardsToJson defaultBoards
  end.

(** The effect that runs whenever [boards] changes:
    [try { localStorage.setItem('kanbanBoards', JSON.stringify(boards)) }
     catch (error) { console.error(...) }]. *)
Definition saveBoardsEffect (fits : gmap string string -> string -> string -> bool)
    (localStorage : gmap string string) (boards : list Board.t) : gmap string string :=
  let item := Json.stringify (boardsToJson boards) in
  if fits localStorage "kanbanBoards" item then <["kanbanBoards" := item]> localStorage
  else localStorage.

(** ** The drag payload: [handleTaskDragStart] and the reading in [handleTaskDrop] *)

Definition dragDataToJson (dragData : DragData) : Json.value :=
  Json.Object
    [ ("boardId", Json.Str (boardId dragData));
      ("taskId", Json.Str (taskId dragData));
      ("isSubtask", Json.Bool (isSubtask dragData));
      ("parentTaskId", match parentTaskId dragData with
                       | Some parent => Json.Str parent
                       | None => Json.Null
                       end) ].

(** [handleTaskDragStart(e, boardId, taskId, isSubtask, parentTaskId)]: the
    new [dragging] state and the ['application/json'] item put into the
    data transfer. *)
Definition handleTaskDragStart (boardId taskId : string) (isSubtask : bool)
    (parentTaskId : option string) : DragData * string :=
  let dragData := mkDragData boardId taskId isSubtask parentTaskId in
  (dragData, Json.stringify (dragDataToJson dragData)).

(** [value.name] on a parsed value: [JSON.parse] keeps the last of several
    members of one name; a value that is not an object has no such property
    ([None] stands for [undefined]). *)
Definition member (v : Json.value) (name : string) : option Json.value :=
  match v with
  | Json.Object members =>
      option_map snd (List.find (fun m => String.eqb (fst m) name) (rev members))
  | _ => None
  end.

(** [handleTaskDrop] from the text of the data transfer.  A SyntaxError of
    [JSON.parse] and the TypeError of destructuring [null] are caught by the
    handler's [try] and nothing is committed.  A [boardId] that is not a
    string equals no board id and a [taskId] that is not a string equals no
    task id ([===]), so one of the guards returns. *)
Definition handleTaskDrop_fromEvent (boards : list Board.t) (dragging : option DragData)
    (jsonData : string) (targetBoardId : string) (targetTaskId : option string)
  : list Board.t :=
  match dragging with
  | None => boards
  | Some _ =>
      if String.eqb jsonData "" then boards else
      match Json.parse jsonData with
      | None => boards
      | Some Json.Null => boards
      | Some dragData =>
          match member dragData "boardId", member dragData "taskId" with
          | Some (Json.Str sourceBoardId), Some (Json.Str sourceTaskId) =>
              handleTaskDrop boards dragging
                (Some (mkDragData sourceBoardId sourceTaskId false None))
                targetBoardId targetTaskId
          | _, _ => boards
          end
      end
  end.

(** ** [JSON.stringify(value, null, 2)]

    SerializeJSONArray and SerializeJSONObject with a gap of two spaces:
    an empty array or object is written without a line break, the others
    with one element or member a line, indented by the gap more than the
    line of the opening bracket. *)

Definition newline : ascii := ascii_of_nat 10.

Definition gap : list ascii := Json.chars "  ".

Fixpoint printIndented (stepback : list ascii) (v : Json.value) : list ascii :=
  match v with
  | Json.Array ((_ :: _) as items) =>
      Json.chars "[" ++ newline :: (stepback ++ gap) ++
      (fix elements (l : list Json.value) : list ascii :=
         match l with
         | [] => []
         | x :: rest =>
             printIndented (stepback ++ gap) x ++
             match rest with
             | [] => []
             | _ :: _ => Json.chars "," ++ newline :: (stepback ++ gap) ++ elements rest
             end
         end) items ++
      newline :: stepback ++ Json.chars "]"
  | Json.Object ((_ :: _) as members) =>
      Json.chars "{" ++ newline :: (stepback ++ gap) ++
      (fix properties (l : list (string * Json.value)) : list ascii :=
         match l with
         | [] => []
         | (k, x) :: rest =>
             Json.quote k ++ Json.chars ": " ++ printIndented (stepback ++ gap) x ++
             match rest with
             | [] => []
             | _ :: _ => Json.chars "," ++ newline :: (stepback ++ gap) ++ properties rest
             end
         end) members ++
      newline :: stepback ++ Json.chars "}"
  | _ => Json.print v
  end.

(** The elements and the members between the brackets, as [printIndented]
    lays them out at the indentation [indent]. *)
Definition elementsIndented (indent : list ascii) : list Json.value -> list ascii :=
  fix elements (l : list Json.value) : list ascii :=
    match l with
    | [] => []
    | x :: rest =>
        printIndented indent x ++
        match rest with
        | [] => []
        | _ :: _ => Json.chars "," ++ newline :: indent ++ elements rest
        end
    end.

Definition propertiesIndented (indent : list ascii)
  : list (string * Json.value) -> list ascii :=
  fix properties (l : list (string * Json.value)) : list ascii :=
    match l with
    | [] => []
    | (k, x) :: rest =>
        Json.quote k ++ Json.chars ": " ++ printIndented indent x ++
        match rest with
        | [] => []
        | _ :: _ => Json.chars "," ++ newline :: indent ++ properties rest
        end
    end.

Definition stringifyIndented (v : Json.value) : string :=
  string_of_list_ascii (printIndented [] v).

(** What may come after a value inside an indented text: nothing, a comma,
    a closing bracket, or white space. *)
Definition delimited (rest : list ascii) : Prop :=
  match rest with
  | [] => True
  | c :: _ =>
      Json.isChar c "," || Json.isChar c "]" || Json.isChar c "}" || Json.isWhitespace c = true
  end.

(** ** The Electron side: the handlers of [public/electron.js] and
    [ElectronStorage] of [src/storage.js]

    The data directory is a map from file paths to file contents.  Whether
    [localStorage] takes an item, whether a file can be written (the
    directory made, the disk not full) and whether a file that is there can
    be read are the environment's business and are parameters. *)

(** The outcome of [ipcRenderer.invoke]. *)
Inductive reply (A : Type) : Type :=
| Resolved (a : A)
| Rejected.
Arguments Resolved {A} a.
Arguments Rejected {A}.

(** The state outside the component: the files and [localStorage]. *)
Record machine := mkMachine {
  files : gmap string string;
  localStorage : gmap string string
}.

(** What [exportData] returns: the path chosen in the save dialog,
    ['browser-download'] (with the text of the downloaded file), or [null]. *)
Inductive exported : Type :=
| ExportedTo (filePath : string)
| BrowserDownload (text : string)
| NothingExported.

(** The file input of the browser fallback of [importData]: it never
    changes, it changes without a file, or it changes with a file of the
    given text. *)
Inductive fileInput : Type :=
| Untouched
| ChangedWithoutFile
| ChangedWith (text : string).

(** The state of the promise [importData] returns. *)
Inductive promise (A : Type) : Type :=
| Fulfilled (a : A)
| Failed
| Pending.
Arguments Fulfilled {A} a.
Arguments Failed {A}.
Arguments Pending {A}.

(** [!data]. *)
Definition falsy (v : Json.value) : bool :=
  match v with
  | Json.Null => true
  | Json.Bool b => negb b
  | Json.Number z => z =? 0
  | Json.Str s => String.eqb s ""
  | _ => false
  end.

(** The [null] that [loadFromLocalStorage] returns, as a value. *)
Definition orNull (loaded : option Json.value) : Json.value := default Json.Null loaded.

Section Electron.
Variable fits : gmap string string -> string -> string -> bool.
Variable writable : gmap string string -> string -> string -> bool.
Variable readable : gmap string string -> string -> bool.
(** [path.join(dataDir, `${key}.json`)]. *)
Variable dataFile : string -> string.

(** [ipcMain.handle('save-data', ...)]: the files afterwards; the handler
    rethrows what [ensureDataDir] or [writeFile] throws. *)
Definition onSaveData (files : gmap string string) (key : string) (data : Json.value)
  : reply (gmap string string) :=
  let filePath := dataFile key in
  let text := stringifyIndented data in
  if writable files filePath text then Resolved (<[filePath := text]> files) else Rejected.

(** [ipcMain.handle('load-data', ...)]: [null] when there is no such file
    (ENOENT); any other error, the SyntaxError of [JSON.parse] included, is
    rethrown. *)
Definition onLoadData (files : gmap string string) (key : string) : reply Json.value :=
  let filePath := dataFile key in
  match files !! filePath with
  | None => Resolved Json.Null
  | Some data =>
      if readable files filePath then
        match Json.parse data with
        | Some parsed => Resolved parsed
        | None => Rejected
        end
      else Rejected
  end.

(** [ipcMain.handle('export-data', ...)]; [chosen] is the path the save
    dialog gives ([None] when it is cancelled). *)
Definition onExportData (files : gmap string string) (chosen : option string)
    (data : Json.value) : reply (gmap string string * option string) :=
  match chosen with
  | Some filePath =>
      if String.eqb filePath "" then Resolved (files, None)
      else if writable files filePath (stringifyIndented data)
           then Resolved (<[filePath := stringifyIndented data]> files, Some filePath)
           else Rejected
  | None => Resolved (files, None)
  end.

(** [ipcMain.handle('import-data', ...)]; [picked] is the first path the
    open dialog gives. *)
Definition onImportData (files : gmap string string) (picked : option string)
  : reply Json.value :=
  match picked with
  | Some filePath =>
      match files !! filePath with
      | Some data =>
          if readable files filePath then
            match Json.parse data with
            | Some parsed => Resolved parsed
            | None => Rejected
            end
          else Rejected
      | None => Rejected
      end
  | None => Resolved Json.Null
  end.

(** [saveData(key, data)]; [electron] is [this.isElectron && this.ipcRenderer]. *)
Definition saveData (electron : bool) (m : machine) (key : string) (data : Json.value)
  : machine * bool :=
  if electron then
    match onSaveData (files m) key data with
    | Resolved files' => (mkMachine files' (localStorage m), true)
    | Rejected =>
        let '(localStorage', saved) := saveToLocalStorage fits (localStorage m) key data in
        (mkMachine (files m) localStorage', saved)
    end
  else
    let '(localStorage', saved) := saveToLocalStorage fits (localStorage m) key data in
    (mkMachine (files m) localStorage', saved).

(** [loadData(key)]. *)
Definition loadData (electron : bool) (m : machine) (key : string) : Json.value :=
  if electron then
    match onLoadData (files m) key with
    | Resolved data => data
    | Rejected => orNull (loadFromLocalStorage (localStorage m) key)
    end
  else orNull (loadFromLocalStorage (localStorage m) key).

(** [exportData(key)]; [downloads] says whether the browser download can be
    made (the [try] around it returns [null] otherwise). *)
Definition exportData (electron : bool) (m : machine) (key : string)
    (chosen : option string) (downloads : bool) : machine * exported :=
  let data := loadData electron m key in
  if falsy data then (m, NothingExported) else
  let browser :=
    if downloads then (m, BrowserDownload (stringifyIndented data))
    else (m, NothingExported) in
  if electron then
    match onExportData (files m) chosen data with
    | Resolved (files', Some filePath) =>
        (mkMachine files' (localStorage m), ExportedTo filePath)
    | Resolved (files', None) => (mkMachine files' (localStorage m), NothingExported)
    | Rejected => browser
    end
  else browser.

(** [importData(key)]; [picked] is the answer of the open dialog and
    [upload] what happens to the file input of the browser fallback (the
    promise stays pending as long as the input does not change). *)
Definition importData (electron : bool) (m : machine) (key : string)
    (picked : option string) (upload : fileInput) : machine * promise Json.value :=
  let browser :=
    match upload with
    | ChangedWith text =>
        match Json.parse text with
        | Some data => (fst (saveData electron m key data), Fulfilled data)
        | None => (m, Failed)
        end
    | ChangedWithoutFile => (m, Fulfilled Json.Null)
    | Untouched => (m, Pending)
    end in
  if electron then
    match onImportData (files m) picked with
    | Resolved data =>
        if falsy data then browser
        else (fst (saveData electron m key data), Fulfilled data)
    | Rejected => browser
    end
  else browser.

End Electron.

(** * Properties *)

(** ** Induction on task forests *)

Lemma forest_ind (P : list Task.t -> Prop) :
  P [] ->
  (forall x rest, P (Task.subtasks x) -> P rest -> P (x :: rest)) ->
  forall tasks, P tasks.
Proof.
  intros Hnil Hcons.
  assert (Hsub : forall x, P (Task.subtasks x)).
  { fix IHx 1.
    intros [i t d du p tg subs c]; simpl.
    induction subs as [|y r IHr]; [exact Hnil|].
    apply Hcons; [apply IHx | exact IHr]. }
  induction tasks as [|y r IHr]; [exact Hnil|].
  apply Hcons; [apply Hsub | exact IHr].
Qed.

(** ** The closures, stated on the subtasks of a task *)

Lemma findAndRemoveTask_sub_eq taskId x :
  findAndRemoveTask_sub taskId x =
  (fst (findAndRemoveTask (Task.subtasks x) taskId),
   Task.setSubtasks x (snd (findAndRemoveTask (Task.subtasks x) taskId))).
Proof.
  destruct x as [i t d du p tg subs c]; simpl.
  match goal with
  | |- (let '(_, _) := ?f subs in _) = _ =>
      assert (Hloop : forall l, f l = findAndRemoveTask l taskId)
  end.
  { induction l as [|y r IHr]; [reflexivity|].
    simpl. rewrite IHr. reflexivity. }
  rewrite Hloop. destruct (findAndRemoveTask subs taskId); reflexivity.
Qed.

Lemma removeTask_sub_eq taskId x :
  removeTask_sub taskId x =
  (fst (removeTask taskId (Task.subtasks x)),
   Task.setSubtasks x (snd (removeTask taskId (Task.subtasks x)))).
Proof.
  destruct x as [i t d du p tg subs c]; simpl.
  match goal with
  | |- (let '(_, _) := ?f subs in _) = _ =>
      assert (Hloop : forall l, f l = removeTask taskId l)
  end.
  { induction l as [|y r IHr]; [reflexivity|].
    simpl. rewrite IHr. reflexivity. }
  rewrite Hloop. destruct (removeTask taskId subs); reflexivity.
Qed.

Lemma writeFirst_sub_eq write targetId x :
  writeFirst_sub write targetId x =
  (fst (writeFirst write targetId (Task.subtasks x)),
   Task.setSubtasks x (snd (writeFirst write targetId (Task.subtasks x)))).
Proof.
  destruct x as [i t d du p tg subs c]; simpl.
  match goal with
  | |- (let '(_, _) := ?f subs in _) = _ =>
      assert (Hloop : forall l, f l = writeFirst write targetId l)
  end.
  { induction l as [|y r IHr]; [reflexivity|].
    simpl. rewrite IHr. reflexivity. }
  rewrite Hloop. destruct (writeFirst write targetId subs); reflexivity.
Qed.

Lemma setSubtasks_same x : Task.setSubtasks x (Task.subtasks x) = x.
Proof. destruct x; reflexivity. Qed.

Lemma forestIds_cons x rest :
  forestIds (x :: rest) = Task.id x :: forestIds (Task.subtasks x) ++ forestIds rest.
Proof. destruct x; reflexivity. Qed.

Lemma forestSize_cons x rest :
  forestSize (x :: rest) = S (forestSize (Task.subtasks x) + forestSize rest).
Proof. destruct x; reflexivity. Qed.

Lemma taskIds_eq x : taskIds x = Task.id x :: forestIds (Task.subtasks x).
Proof. destruct x; reflexivity. Qed.

Lemma taskSize_eq x : taskSize x = S (descendants x).
Proof. destruct x; reflexivity. Qed.

Lemma forestIds_setSubtasks x subs rest :
  forestIds (Task.setSubtasks x subs :: rest) = Task.id x :: forestIds subs ++ forestIds rest.
Proof. destruct x; reflexivity. Qed.

Lemma forestSize_setSubtasks x subs rest :
  forestSize (Task.setSubtasks x subs :: rest) = S (forestSize subs + forestSize rest).
Proof. destruct x; reflexivity. Qed.

(** ** What [findAndRemoveTask] finds and what it leaves *)

(** Either nothing has the id and the array is untouched, or the removed
    task is the first one with the id in depth-first pre-order, and the
    array afterwards is the array before without that task's subtree. *)
Lemma findAndRemoveTask_spec taskId tasks :
  match findAndRemoveTask tasks taskId with
  | (None, tasks') => tasks' = tasks /\ ~ In taskId (forestIds tasks)
  | (Some x, tasks') =>
      Task.id x = taskId /\ InForest x tasks /\
      exists before after,
        forestIds tasks = before ++ taskIds x ++ after /\
        forestIds tasks' = before ++ after /\
        ~ In taskId before /\
        forestSize tasks = (forestSize tasks' + taskSize x)%nat
  end.
Proof.
  induction tasks as [|y rest IHsub IHrest] using forest_ind.
  - simpl. split; [reflexivity | intros []].
  - simpl findAndRemoveTask.
    destruct (String.eqb_spec (Task.id y) taskId) as [Heq|Hne].
    + split; [exact Heq|]. split; [constructor|].
      exists [], (forestIds rest).
      split; [rewrite forestIds_cons, taskIds_eq; reflexivity|].
      split; [reflexivity|]. split; [intros []|].
      rewrite forestSize_cons, taskSize_eq. unfold descendants. lia.
    + rewrite findAndRemoveTask_sub_eq.
      destruct (findAndRemoveTask (Task.subtasks y) taskId) as [[x|] subs']; cbn [fst snd].
      * destruct IHsub as (Hid & Hin & before & after & Hb & Ha & Hnb & Hsz).
        split; [exact Hid|]. split; [now apply InForest_below|].
        exists (Task.id y :: before), (after ++ forestIds rest).
        rewrite forestIds_cons, forestIds_setSubtasks, Hb, Ha.
        rewrite forestSize_cons, forestSize_setSubtasks, Hsz.
        split; [cbn [app]; now rewrite <- !app_assoc|].
        split; [cbn [app]; now rewrite <- !app_assoc|].
        split; [cbn [In]; intros [E|E]; [congruence | tauto] | lia].
      * destruct IHsub as [-> Hns].
        destruct (findAndRemoveTask rest taskId) as [[x|] rest'].
        -- destruct IHrest as (Hid & Hin & before & after & Hb & Ha & Hnb & Hsz).
           split; [exact Hid|]. split; [now apply InForest_later|].
           exists (Task.id y :: forestIds (Task.subtasks y) ++ before), after.
           rewrite !forestIds_cons, Hb, Ha, !forestSize_cons, Hsz.
           split; [cbn [app]; now rewrite <- !app_assoc|].
           split; [cbn [app]; now rewrite <- !app_assoc|].
           split; [|lia].
           cbn [In]. rewrite in_app_iff. intros [E|[E|E]]; [congruence | tauto | tauto].
        -- destruct IHrest as [-> Hnr]. split; [reflexivity|].
           rewrite forestIds_cons. cbn [In]. rewrite in_app_iff.
           intros [E|[E|E]]; [congruence | tauto | tauto].
Qed.

Lemma findAndRemoveTask_absent taskId tasks :
  ~ In taskId (forestIds tasks) -> findAndRemoveTask tasks taskId = (None, tasks).
Proof.
  intros Hn. pose proof (findAndRemoveTask_spec taskId tasks) as H.
  destruct (findAndRemoveTask tasks taskId) as [[x|] tasks'].
  - destruct H as (Hid & _ & before & after & Hb & _).
    exfalso. apply Hn. rewrite Hb, taskIds_eq, Hid.
    apply in_or_app. right. now left.
  - destruct H as [-> _]. reflexivity.
Qed.

(** ** [findIndex] *)

Lemma findIndex_Some {A} (p : A -> bool) arr i :
  Js.findIndex p arr = Some i ->
  exists x, arr !! i = Some x /\ p x = true /\
            forall j y, (j < i)%nat -> arr !! j = Some y -> p y = false.
Proof.
  revert i. induction arr as [|a rest IH]; intros i; simpl; [discriminate|].
  destruct (p a) eqn:Hp.
  - intros [= <-]. exists a. repeat split; [assumption|]. intros j y Hj. lia.
  - destruct (Js.findIndex p rest) as [k|]; simpl; [|discriminate].
    intros [= <-]. destruct (IH k eq_refl) as (x & Hx & Hpx & Hlt).
    exists x. repeat split; [assumption..|].
    intros [|j] y Hj; simpl; [congruence|]. apply Hlt. lia.
Qed.

Lemma findIndex_None {A} (p : A -> bool) arr :
  Js.findIndex p arr = None -> forall x, In x arr -> p x = false.
Proof.
  induction arr as [|a rest IH]; simpl; [intros _ x []|].
  destruct (p a) eqn:Hp; [discriminate|].
  destruct (Js.findIndex p rest); [discriminate|].
  intros _ x [<-|Hx]; [assumption | now apply IH].
Qed.

Lemma findIndex_lt {A} (p : A -> bool) arr i :
  Js.findIndex p arr = Some i -> (i < length arr)%nat.
Proof.
  intros H. destruct (findIndex_Some _ _ _ H) as (x & Hx & _).
  now apply lookup_lt_Some in Hx.
Qed.

(** ** Relocation: a source task that is not in the named board *)

(** C10.  The drop looks for the source task only in the board named by the
    payload: when that board exists and holds no task with the source id at
    any depth, the drop leaves the tree as it is, whatever the other boards
    hold. *)
Theorem handleTaskDrop_source_outside_named_board
    (boards : list Board.t) (dragging : option DragData) (dragData : DragData)
    (targetBoardId : string) (targetTaskId : option string)
    (sourceBoardIndex : nat) (sourceBoard : Board.t) :
  Js.findIndex (fun b => String.eqb (Board.id b) (boardId dragData)) boards
    = Some sourceBoardIndex ->
  boards !! sourceBoardIndex = Some sourceBoard ->
  ~ In (taskId dragData) (forestIds (Board.tasks sourceBoard)) ->
  handleTaskDrop boards dragging (Some dragData) targetBoardId targetTaskId = boards.
Proof.
  intros Hidx Hlook Habsent.
  unfold handleTaskDrop, handleTaskDrop_body.
  destruct dragging; [|reflexivity].
  destruct (bool_decide _); [reflexivity|].
  rewrite Hidx, Hlook, (findAndRemoveTask_absent _ _ Habsent).
  reflexivity.
Qed.

Lemma handleTaskDrop_source_outside_named_board_witness :
  In "E" (allTaskIds nestedBoards) /\
  handleTaskDrop nestedBoards (Some (dragOf "b1" "E")) (Some (dragOf "b1" "E")) "b1" None
    = nestedBoards.
Proof.
  split; [vm_compute; tauto|].
  apply (handleTaskDrop_source_outside_named_board nestedBoards _ (dragOf "b1" "E") "b1" None
           0%nat (Board.mk "b1" "To Do" "bg-red-500" 0 [taskA])).
  - reflexivity.
  - reflexivity.
  - vm_compute. intuition discriminate.
Defined.

Lemma findIndex_ext {A} (p q : A -> bool) arr :
  (forall x, In x arr -> p x = q x) -> Js.findIndex p arr = Js.findIndex q arr.
Proof.
  induction arr as [|a rest IH]; intros H; simpl; [reflexivity|].
  rewrite (H a (or_introl eq_refl)), IH; [reflexivity|].
  intros x Hx. apply H. now right.
Qed.

Lemma findIndex_insert {A} (p : A -> bool) arr i x x' :
  arr !! i = Some x -> p x' = p x ->
  Js.findIndex p (<[i := x']> arr) = Js.findIndex p arr.
Proof.
  revert i. induction arr as [|a rest IH]; intros [|i]; simpl; try discriminate.
  - intros [= ->] ->. reflexivity.
  - intros Hl Hp. now rewrite (IH i Hl Hp).
Qed.

Lemma findIndex_alter {A} (p : A -> bool) (f : A -> A) arr i :
  (forall x, p (f x) = p x) ->
  Js.findIndex p (alter f i arr) = Js.findIndex p arr.
Proof.
  intros Hf. revert i. induction arr as [|a rest IH]; intros [|i]; try reflexivity.
  - cbn. now rewrite Hf.
  - change (alter f (S i) (a :: rest)) with (a :: alter f i rest).
    cbn [Js.findIndex]. now rewrite IH.
Qed.

(** ** What the writing loops do when no task has the id *)

Lemma writeFirst_absent write targetId tasks :
  ~ In targetId (forestIds tasks) -> writeFirst write targetId tasks = (false, tasks).
Proof.
  induction tasks as [|y rest IHsub IHrest] using forest_ind; [reflexivity|].
  rewrite forestIds_cons. cbn [In]. rewrite in_app_iff. intros Hn.
  simpl writeFirst.
  destruct (String.eqb_spec (Task.id y) targetId) as [Heq|Hne]; [tauto|].
  rewrite writeFirst_sub_eq, IHsub by tauto. cbn [fst snd].
  rewrite IHrest by tauto. reflexivity.
Qed.

(** ** Relocation: the three guarded lookups *)

(** A drop whose source board, source task (within the source board) or
    target board cannot be found returns before [setBoards]. *)
Lemma handleTaskDrop_guarded boards dragging dragData targetBoardId targetTaskId :
  Js.findIndex (fun b => String.eqb (Board.id b) (boardId dragData)) boards = None \/
  ~ In (taskId dragData) (allTaskIds boards) \/
  Js.findIndex (fun b => String.eqb (Board.id b) targetBoardId) boards = None ->
  handleTaskDrop boards dragging (Some dragData) targetBoardId targetTaskId = boards.
Proof.
  intros H. unfold handleTaskDrop, handleTaskDrop_body.
  destruct dragging; [|reflexivity].
  destruct (bool_decide _); [reflexivity|].
  destruct (Js.findIndex _ boards) as [i|] eqn:Hi; [|reflexivity].
  destruct (boards !! i) as [sb|] eqn:Hsb; [|reflexivity].
  destruct (findAndRemoveTask (Board.tasks sb) (taskId dragData)) as [[x|] remaining] eqn:Hrm;
    [|reflexivity].
  rewrite (findIndex_insert _ boards i sb) by (assumption || reflexivity).
  destruct H as [H|[H|H]].
  - discriminate.
  - exfalso. apply H. unfold allTaskIds. apply in_flat_map.
    exists sb. split; [eapply list_elem_of_In, list_elem_of_lookup_2; eassumption|].
    pose proof (findAndRemoveTask_spec (taskId dragData) (Board.tasks sb)) as Hs.
    rewrite Hrm in Hs. destruct Hs as (Hid & _ & before & after & Hb & _).
    rewrite Hb, taskIds_eq, Hid. apply in_or_app. right. now left.
  - rewrite H. reflexivity.
Qed.

(** ** Relocation: a target task that cannot be found

    [addSubtask] reports a missing parent by returning [false], and
    [handleTaskDrop] does not look at the answer: the task taken out of the
    source board is attached nowhere and [setBoards] is called all the same. *)
Lemma handleTaskDrop_target_task_missing boards dragging dragData targetBoardId parentId
    i sourceBoard x remaining j targetBoard :
  parentId <> "" ->
  parentId <> taskId dragData ->
  Js.findIndex (fun b => String.eqb (Board.id b) (boardId dragData)) boards = Some i ->
  boards !! i = Some sourceBoard ->
  findAndRemoveTask (Board.tasks sourceBoard) (taskId dragData) = (Some x, remaining) ->
  Js.findIndex (fun b => String.eqb (Board.id b) targetBoardId) boards = Some j ->
  <[i := Board.setTasks sourceBoard remaining]> boards !! j = Some targetBoard ->
  ~ In parentId (forestIds (Board.tasks targetBoard)) ->
  handleTaskDrop boards (Some dragging) (Some dragData) targetBoardId (Some parentId)
    = <[i := Board.setTasks sourceBoard remaining]> boards.
Proof.
  intros Hne Hself Hi Hsb Hrm Hj Htb Habs.
  unfold handleTaskDrop, handleTaskDrop_body.
  rewrite bool_decide_eq_false_2 by congruence.
  rewrite Hi, Hsb, Hrm.
  rewrite (findIndex_insert _ boards i sourceBoard) by (assumption || reflexivity).
  rewrite Hj. cbn [Js.truthy].
  destruct (String.eqb_spec parentId ""); [contradiction|]. cbn [negb commit].
  unfold addSubtask.
  apply list_eq. intros k. rewrite list_lookup_alter.
  destruct (decide (j = k)) as [<-|Hk].
  - rewrite Htb. cbn. rewrite writeFirst_absent by assumption.
    destruct targetBoard; reflexivity.
  - reflexivity.
Qed.

(** ** Unique ids *)

Lemma InForest_ids a tasks :
  InForest a tasks -> forall s, In s (taskIds a) -> In s (forestIds tasks).
Proof.
  induction 1 as [rest|y rest _ IH|y rest _ IH]; intros s Hs.
  - change (forestIds (a :: rest)) with (taskIds a ++ forestIds rest).
    apply in_or_app. now left.
  - rewrite forestIds_cons. right. apply in_or_app. left. now apply IH.
  - rewrite forestIds_cons. right. apply in_or_app. right. now apply IH.
Qed.

Lemma InForest_id a tasks : InForest a tasks -> In (Task.id a) (forestIds tasks).
Proof.
  intros H. apply (InForest_ids a tasks H). rewrite taskIds_eq. now left.
Qed.

Lemma NoDup_forestIds_cons y rest :
  List.NoDup (forestIds (y :: rest)) ->
  ~ In (Task.id y) (forestIds (Task.subtasks y)) /\
  ~ In (Task.id y) (forestIds rest) /\
  List.NoDup (forestIds (Task.subtasks y)) /\
  List.NoDup (forestIds rest) /\
  (forall s, In s (forestIds (Task.subtasks y)) -> ~ In s (forestIds rest)).
Proof.
  rewrite forestIds_cons. intros H. apply NoDup_cons_iff in H as [Hy Hnd].
  rewrite in_app_iff in Hy.
  pose proof (NoDup_app_remove_l _ _ Hnd) as Hr.
  pose proof (NoDup_app_remove_r _ _ Hnd) as Hl.
  repeat split; try tauto.
  intros s Hs Hs'. clear Hy Hl Hr.
  induction (forestIds (Task.subtasks y)) as [|h l IHl]; [destruct Hs|].
  simpl in Hnd. apply NoDup_cons_iff in Hnd as [Hh Hnd].
  destruct Hs as [->|Hs].
  - apply Hh. apply in_or_app. now right.
  - now apply IHl.
Qed.

(** With unique ids the loop stops at the very task that carries the id. *)
Lemma findAndRemoveTask_unique a tasks :
  List.NoDup (forestIds tasks) -> InForest a tasks ->
  fst (findAndRemoveTask tasks (Task.id a)) = Some a.
Proof.
  intros Hnd Hin. induction Hin as [rest|y rest Hin IH|y rest Hin IH].
  - simpl. now rewrite String.eqb_refl.
  - apply NoDup_forestIds_cons in Hnd as (Hy & _ & Hsub & _).
    simpl findAndRemoveTask.
    destruct (String.eqb_spec (Task.id y) (Task.id a)) as [E|_].
    + exfalso. apply Hy. rewrite E. now apply InForest_id.
    + rewrite findAndRemoveTask_sub_eq. specialize (IH Hsub).
      destruct (findAndRemoveTask (Task.subtasks y) (Task.id a)) as [[x|] subs'];
        cbn [fst snd] in *; [assumption | discriminate].
  - apply NoDup_forestIds_cons in Hnd as (_ & Hy & _ & Hrest & Hdisj).
    simpl findAndRemoveTask.
    destruct (String.eqb_spec (Task.id y) (Task.id a)) as [E|_].
    + exfalso. apply Hy. rewrite E. now apply InForest_id.
    + rewrite findAndRemoveTask_sub_eq, findAndRemoveTask_absent.
      * cbn [fst snd]. specialize (IH Hrest).
        destruct (findAndRemoveTask rest (Task.id a)) as [r rest']. exact IH.
      * intros Hs. apply (Hdisj _ Hs). now apply InForest_id.
Qed.

Lemma NoDup_allTaskIds_board boards i b :
  List.NoDup (allTaskIds boards) -> boards !! i = Some b ->
  List.NoDup (forestIds (Board.tasks b)).
Proof.
  revert i. induction boards as [|c rest IH]; intros [|i] Hnd; simpl; try discriminate.
  - intros [= ->]. unfold allTaskIds in Hnd. simpl in Hnd.
    now apply NoDup_app_remove_r in Hnd.
  - intros Hl. unfold allTaskIds in Hnd. simpl in Hnd.
    apply NoDup_app_remove_l in Hnd. now apply (IH i).
Qed.

Lemma totalTasks_cons b rest :
  totalTasks (b :: rest) = (forestSize (Board.tasks b) + totalTasks rest)%nat.
Proof. reflexivity. Qed.

Lemma totalTasks_insert boards i b b' :
  boards !! i = Some b ->
  (totalTasks (<[i := b']> boards) + forestSize (Board.tasks b)
   = totalTasks boards + forestSize (Board.tasks b'))%nat.
Proof.
  revert i. induction boards as [|c rest IH]; intros [|i] H; try discriminate.
  - injection H as ->. change (<[0%nat := b']> (b :: rest)) with (b' :: rest).
    rewrite !totalTasks_cons. lia.
  - change (<[S i := b']> (c :: rest)) with (c :: <[i := b']> rest).
    rewrite !totalTasks_cons. specialize (IH i H). lia.
Qed.

Lemma NoDup_middle {A} (l1 m l2 : list A) s :
  List.NoDup (l1 ++ m ++ l2) -> In s m -> ~ In s (l1 ++ l2).
Proof.
  rewrite <- NoDup_ListNoDup, !NoDup_app. intros (_ & H1 & _ & H2 & _) Hs.
  rewrite in_app_iff, <- !list_elem_of_In. apply list_elem_of_In in Hs.
  intros [H|H].
  - apply (H1 s H). apply elem_of_app. now left.
  - now apply (H2 s Hs).
Qed.

(** ** Relocation onto a task of the source's own subtree

    There is no walk of the source's subtree before the removal.  With
    unique ids the target leaves the board together with the source, is then
    not found by [addSubtask], and the source with its whole subtree is
    dropped from the tree. *)
Lemma handleTaskDrop_onto_descendant boards dragging sourceBoardId sub par i sourceBoard a d :
  List.NoDup (forestIds (Board.tasks sourceBoard)) ->
  Js.findIndex (fun b => String.eqb (Board.id b) sourceBoardId) boards = Some i ->
  boards !! i = Some sourceBoard ->
  InForest a (Board.tasks sourceBoard) ->
  DescendantOf d a ->
  Task.id d <> "" ->
  handleTaskDrop boards (Some dragging) (Some (mkDragData sourceBoardId (Task.id a) sub par))
    sourceBoardId (Some (Task.id d))
  = <[i := Board.setTasks sourceBoard
             (snd (findAndRemoveTask (Board.tasks sourceBoard) (Task.id a)))]> boards
  /\ totalTasks (handleTaskDrop boards (Some dragging)
                   (Some (mkDragData sourceBoardId (Task.id a) sub par))
                   sourceBoardId (Some (Task.id d)))
     = (totalTasks boards - taskSize a)%nat
  /\ (0 < taskSize a)%nat.
Proof.
  intros Hnd Hi Hsb Ha Hd Hne.
  pose proof (findAndRemoveTask_unique a _ Hnd Ha) as Hfst.
  pose proof (findAndRemoveTask_spec (Task.id a) (Board.tasks sourceBoard)) as Hspec.
  destruct (findAndRemoveTask (Board.tasks sourceBoard) (Task.id a)) as [r remaining] eqn:Hrm.
  cbn [fst snd] in *. subst r.
  destruct Hspec as (_ & _ & before & after & Hb & Hr & _ & Hsz).
  assert (Hdin : In (Task.id d) (forestIds (Task.subtasks a))) by now apply InForest_id.
  assert (Hda : Task.id d <> Task.id a).
  { intros E. rewrite Hb, taskIds_eq in Hnd.
    apply NoDup_app_remove_l in Hnd. simpl in Hnd.
    apply NoDup_cons_iff in Hnd as [Hn _]. apply Hn. rewrite <- E.
    apply in_or_app. now left. }
  assert (Heq : handleTaskDrop boards (Some dragging)
                  (Some (mkDragData sourceBoardId (Task.id a) sub par))
                  sourceBoardId (Some (Task.id d))
                = <[i := Board.setTasks sourceBoard remaining]> boards).
  { eapply handleTaskDrop_target_task_missing with (j := i); try eassumption.
    - apply list_lookup_insert_eq. now apply lookup_lt_Some in Hsb.
    - change (~ In (Task.id d) (forestIds remaining)). rewrite Hr.
      apply (NoDup_middle before (taskIds a) after).
      + now rewrite <- Hb.
      + rewrite taskIds_eq. now right. }
  split; [exact Heq|]. split; [|rewrite taskSize_eq; lia].
  rewrite Heq.
  pose proof (totalTasks_insert boards i sourceBoard
                (Board.setTasks sourceBoard remaining) Hsb) as Ht.
  change (Board.tasks (Board.setTasks sourceBoard remaining)) with remaining in Ht.
  lia.
Qed.

(** C1.  Dropping task A of the sample tree onto its subtask B (depth 1), C
    (depth 2) or D (depth 3) is not rejected: A and its whole subtree leave
    the tree. *)
Theorem handleTaskDrop_onto_own_subtask_loses_subtree :
  let drop target :=
    handleTaskDrop nestedBoards (Some (dragOf "b1" "A")) (Some (dragOf "b1" "A"))
      "b1" (Some target) in
  let emptied :=
    [ Board.mk "b1" "To Do" "bg-red-500" 0 [];
      Board.mk "b2" "Done" "bg-green-500" 1 [taskE] ] in
  DescendantOf taskB taskA /\ DescendantOf taskC taskA /\ DescendantOf taskD taskA /\
  drop "B" = emptied /\ drop "C" = emptied /\ drop "D" = emptied /\
  emptied <> nestedBoards /\
  totalTasks nestedBoards = 5%nat /\ totalTasks emptied = 1%nat.
Proof.
  cbv zeta. repeat split.
  - apply InForest_here.
  - apply InForest_below, InForest_here.
  - apply InForest_below, InForest_below, InForest_here.
  - discriminate.
Qed.

(** C2.  A drop whose target task id names no task of the target board is
    not abandoned: the source task is taken out of its board, attached
    nowhere, and the tree without it becomes the new state. *)
Theorem handleTaskDrop_missing_target_task_loses_source :
  ~ In "ghost" (allTaskIds nestedBoards) /\
  handleTaskDrop nestedBoards (Some (dragOf "b1" "A")) (Some (dragOf "b1" "A"))
    "b2" (Some "ghost")
  = [ Board.mk "b1" "To Do" "bg-red-500" 0 [];
      Board.mk "b2" "Done" "bg-green-500" 1 [taskE] ] /\
  handleTaskDrop nestedBoards (Some (dragOf "b1" "A")) (Some (dragOf "b1" "A"))
    "b2" (Some "ghost")
  <> nestedBoards.
Proof.
  split; [vm_compute; intuition discriminate|].
  split; [reflexivity | discriminate].
Qed.

(** ** Deleting a task *)

Lemma removeTask_eq taskId tasks :
  removeTask taskId tasks =
  (bool_decide (is_Some (fst (findAndRemoveTask tasks taskId))),
   snd (findAndRemoveTask tasks taskId)).
Proof.
  induction tasks as [|y rest IHsub IHrest] using forest_ind; [reflexivity|].
  simpl removeTask. simpl findAndRemoveTask.
  destruct (String.eqb (Task.id y) taskId); [reflexivity|].
  rewrite removeTask_sub_eq, findAndRemoveTask_sub_eq, IHsub. cbn [fst snd].
  destruct (findAndRemoveTask (Task.subtasks y) taskId) as [[x|] subs']; cbn [fst snd].
  - reflexivity.
  - rewrite bool_decide_eq_false_2 by (intros [? [=]]).
    rewrite IHrest.
    destruct (findAndRemoveTask rest taskId) as [r rest']; reflexivity.
Qed.

Lemma allTaskIds_app l1 l2 : allTaskIds (l1 ++ l2) = allTaskIds l1 ++ allTaskIds l2.
Proof. apply flat_map_app. Qed.

Lemma allTaskIds_split boards i b :
  boards !! i = Some b ->
  allTaskIds boards =
  allTaskIds (take i boards) ++ forestIds (Board.tasks b) ++ allTaskIds (drop (S i) boards).
Proof.
  intros H. rewrite <- (take_drop_middle boards i b H) at 1.
  rewrite allTaskIds_app. unfold allTaskIds at 2. simpl. reflexivity.
Qed.

Lemma allTaskIds_insert boards i b b' :
  boards !! i = Some b ->
  allTaskIds (<[i := b']> boards) =
  allTaskIds (take i boards) ++ forestIds (Board.tasks b') ++ allTaskIds (drop (S i) boards).
Proof.
  intros H. rewrite insert_take_drop by (now apply lookup_lt_Some in H).
  rewrite allTaskIds_app. unfold allTaskIds at 2. simpl. reflexivity.
Qed.

Lemma onBoard_found boards boardId write i b :
  Js.findIndex (fun board => String.eqb (Board.id board) boardId) boards = Some i ->
  boards !! i = Some b ->
  onBoard boards boardId write = <[i := Board.setTasks b (write (Board.tasks b))]> boards.
Proof.
  intros Hi Hb. unfold onBoard. rewrite Hi.
  apply list_eq. intros k. rewrite list_lookup_alter.
  destruct (decide (i = k)) as [<-|Hk].
  - rewrite Hb, list_lookup_insert_eq by (now apply lookup_lt_Some in Hb). reflexivity.
  - now rewrite list_lookup_insert_ne.
Qed.

(** C5.  In a tree with unique task ids, deleting a task through the board
    that holds it leaves no node with that id anywhere in the tree, and the
    number of task nodes drops by one plus the number of tasks below the
    deleted one. *)
Theorem deleteTask_removes_subtree
    (boards : list Board.t) (boardId taskId : string) (i : nat) (b : Board.t) (x : Task.t) :
  List.NoDup (allTaskIds boards) ->
  Js.findIndex (fun board => String.eqb (Board.id board) boardId) boards = Some i ->
  boards !! i = Some b ->
  InForest x (Board.tasks b) ->
  Task.id x = taskId ->
  ~ In taskId (allTaskIds (deleteTask boards boardId taskId)) /\
  (totalTasks (deleteTask boards boardId taskId) + (1 + descendants x)
   = totalTasks boards)%nat.
Proof.
  intros Hnd Hi Hb Hx <-.
  unfold deleteTask. rewrite (onBoard_found _ _ _ i b Hi Hb), removeTask_eq. cbn [snd].
  pose proof (NoDup_allTaskIds_board _ _ _ Hnd Hb) as Hndb.
  pose proof (findAndRemoveTask_unique x _ Hndb Hx) as Hfst.
  pose proof (findAndRemoveTask_spec (Task.id x) (Board.tasks b)) as Hspec.
  destruct (findAndRemoveTask (Board.tasks b) (Task.id x)) as [r remaining].
  cbn [fst snd] in *. subst r.
  destruct Hspec as (_ & _ & before & after & Hbefore & Hafter & _ & Hsz).
  split.
  - rewrite (allTaskIds_insert _ _ b) by assumption.
    change (Board.tasks (Board.setTasks b remaining)) with remaining.
    rewrite (allTaskIds_split _ _ _ Hb), Hbefore in Hnd. rewrite Hafter.
    set (L1 := allTaskIds (take i boards)) in *.
    set (L2 := allTaskIds (drop (S i) boards)) in *.
    replace (L1 ++ (before ++ after) ++ L2) with ((L1 ++ before) ++ (after ++ L2))
      by (now rewrite <- !app_assoc).
    apply (NoDup_middle (L1 ++ before) (taskIds x) (after ++ L2)).
    + now rewrite <- !app_assoc in *.
    + rewrite taskIds_eq. now left.
  - pose proof (totalTasks_insert boards i b (Board.setTasks b remaining) Hb) as Ht.
    change (Board.tasks (Board.setTasks b remaining)) with remaining in Ht.
    rewrite taskSize_eq in Hsz. lia.
Qed.

(** [deleteTask] looks only into the board named by [boardId]: when that
    board holds no task with the id, or no board has the id, nothing is
    deleted. *)
Lemma deleteTask_outside_named_board boards boardId taskId :
  (forall i b,
     Js.findIndex (fun board => String.eqb (Board.id board) boardId) boards = Some i ->
     boards !! i = Some b -> ~ In taskId (forestIds (Board.tasks b))) ->
  deleteTask boards boardId taskId = boards.
Proof.
  intros H. unfold deleteTask, onBoard.
  destruct (Js.findIndex _ boards) as [i|] eqn:Hi; [|reflexivity].
  destruct (findIndex_Some _ _ _ Hi) as (b & Hb & _).
  apply list_eq. intros k. rewrite list_lookup_alter.
  destruct (decide (i = k)) as [<-|_]; [|reflexivity].
  rewrite Hb. cbn. rewrite removeTask_eq, (findAndRemoveTask_absent _ _ (H i b eq_refl Hb)).
  destruct b; reflexivity.
Qed.

Lemma deleteTask_removes_subtree_witness :
  ~ In "B" (allTaskIds (deleteTask nestedBoards "b1" "B")) /\
  (totalTasks (deleteTask nestedBoards "b1" "B") + (1 + descendants taskB)
   = totalTasks nestedBoards)%nat.
Proof.
  apply (deleteTask_removes_subtree nestedBoards "b1" "B" 0%nat
           (Board.mk "b1" "To Do" "bg-red-500" 0 [taskA]) taskB).
  - vm_compute. repeat constructor; simpl; intuition discriminate.
  - reflexivity.
  - reflexivity.
  - apply InForest_below, InForest_here.
  - reflexivity.
Defined.

(** ** The board list under task-level handlers *)

Lemma boardFrame_alter_tasks boards i (write : Board.t -> list Task.t) :
  map boardFrame (alter (fun b => Board.setTasks b (write b)) i boards)
  = map boardFrame boards.
Proof.
  revert i. induction boards as [|c rest IH]; intros [|i]; try reflexivity.
  change (alter (fun b => Board.setTasks b (write b)) (S i) (c :: rest))
    with (c :: alter (fun b => Board.setTasks b (write b)) i rest).
  cbn [map]. now rewrite IH.
Qed.

Lemma boardFrame_insert_tasks boards i b tasks :
  boards !! i = Some b ->
  map boardFrame (<[i := Board.setTasks b tasks]> boards) = map boardFrame boards.
Proof.
  revert i. induction boards as [|c rest IH]; intros [|i] H; try discriminate.
  - injection H as ->. reflexivity.
  - change (<[S i := Board.setTasks b tasks]> (c :: rest))
      with (c :: <[i := Board.setTasks b tasks]> rest).
    cbn [map]. now rewrite (IH i H).
Qed.

Lemma boardFrame_onBoard boards boardId write :
  map boardFrame (onBoard boards boardId write) = map boardFrame boards.
Proof.
  unfold onBoard. destruct (Js.findIndex _ boards); [|reflexivity].
  apply (boardFrame_alter_tasks boards n (fun b => write (Board.tasks b))).
Qed.

Lemma boardFrame_handleTaskDrop boards dragging jsonData targetBoardId targetTaskId :
  map boardFrame (handleTaskDrop boards dragging jsonData targetBoardId targetTaskId)
  = map boardFrame boards.
Proof.
  unfold handleTaskDrop, handleTaskDrop_body.
  destruct dragging; [|reflexivity]. destruct jsonData as [dragData|]; [|reflexivity].
  destruct (bool_decide _); [reflexivity|].
  destruct (Js.findIndex _ boards) as [i|]; [|reflexivity].
  destruct (boards !! i) as [sb|] eqn:Hsb; [|reflexivity].
  destruct (findAndRemoveTask _ _) as [[x|] remaining]; [|reflexivity].
  destruct (Js.findIndex _ _) as [j|]; [|reflexivity].
  destruct (if Js.truthy targetTaskId then targetTaskId else None) as [parentId|]; cbn [commit].
  - rewrite (boardFrame_alter_tasks _ j
               (fun b => snd (addSubtask (Board.tasks b) parentId x))).
    now apply boardFrame_insert_tasks.
  - rewrite (boardFrame_alter_tasks _ j (fun b => Js.push (Board.tasks b) x)).
    now apply boardFrame_insert_tasks.
Qed.

Lemma boardFrame_contentItem_onChange boards boardId taskId index value :
  map boardFrame (settle boards (contentItem_onChange boards boardId taskId index value))
  = map boardFrame boards.
Proof.
  unfold contentItem_onChange.
  destruct (Js.findIndex _ boards) as [i|]; [|reflexivity].
  destruct (boards !! i) as [b|] eqn:Hb; [|reflexivity].
  destruct (updateTaskContent _ _ _ _) as [[r tasks]|]; [|reflexivity].
  cbn [settle]. now apply boardFrame_insert_tasks.
Qed.

(** C9.  Every task-level handler leaves the board list as it is: the same
    number of boards, each with the same id, title, color and order. *)
Theorem task_handlers_keep_board_frame (boards : list Board.t) :
  (forall stamp boardId,
      map boardFrame (addNewTask boards stamp boardId) = map boardFrame boards) /\
  (forall boardId taskId,
      map boardFrame (deleteTask boards boardId taskId) = map boardFrame boards) /\
  (forall boardId taskId newTitle,
      map boardFrame (updateTaskTitle boards boardId taskId newTitle) = map boardFrame boards) /\
  (forall boardId taskId value,
      map boardFrame (taskTitle_onChange boards boardId taskId value) = map boardFrame boards) /\
  (forall boardId taskId value,
      map boardFrame (description_onChange boards boardId taskId value)
      = map boardFrame boards) /\
  (forall boardId taskId priority,
      map boardFrame (updateTaskPriority boards boardId taskId priority)
      = map boardFrame boards) /\
  (forall taskId boardId date,
      map boardFrame (setDueDate boards taskId boardId date) = map boardFrame boards) /\
  (forall taskId boardId type,
      map boardFrame (addContentItem boards taskId boardId type) = map boardFrame boards) /\
  (forall taskId boardId contentIndex,
      map boardFrame (deleteContentItem boards taskId boardId contentIndex)
      = map boardFrame boards) /\
  (forall boardId taskId index value,
      map boardFrame (settle boards (contentItem_onChange boards boardId taskId index value))
      = map boardFrame boards) /\
  (forall dragging jsonData targetBoardId targetTaskId,
      map boardFrame (handleTaskDrop boards dragging jsonData targetBoardId targetTaskId)
      = map boardFrame boards).
Proof.
  repeat split; intros;
    first [ apply boardFrame_onBoard
          | apply boardFrame_contentItem_onChange
          | apply boardFrame_handleTaskDrop ].
Qed.

(** ** [splice] at an index inside the array *)

Lemma splice_remove {A} (arr : list A) i x :
  arr !! i = Some x -> Js.splice arr (Z.of_nat i) 1 [] = ([x], delete i arr).
Proof.
  intros H. pose proof (lookup_lt_Some _ _ _ H) as Hlt.
  unfold Js.splice, Js.spliceStart.
  destruct (Z.ltb_spec (Z.of_nat i) 0) as [?|_]; [lia|].
  rewrite (Z.min_l (Z.of_nat i)) by lia.
  replace (Z.min (Z.max 1 0) (Z.of_nat (length arr) - Z.of_nat i)) with 1 by lia.
  rewrite Nat2Z.id. replace (Z.to_nat (Z.of_nat i + 1)) with (S i) by lia.
  change (Z.to_nat 1) with 1%nat. f_equal.
  - rewrite (drop_S _ _ _ H). reflexivity.
  - cbn [app]. symmetry. apply delete_take_drop.
Qed.

Lemma splice_insert {A} (arr : list A) j x :
  (j <= length arr)%nat ->
  Js.splice arr (Z.of_nat j) 0 [x] = ([], take j arr ++ x :: drop j arr).
Proof.
  intros Hle. unfold Js.splice, Js.spliceStart.
  destruct (Z.ltb_spec (Z.of_nat j) 0) as [?|_]; [lia|].
  rewrite (Z.min_l (Z.of_nat j)) by lia.
  replace (Z.min (Z.max 0 0) (Z.of_nat (length arr) - Z.of_nat j)) with 0 by lia.
  rewrite Z.add_0_r, Nat2Z.id. reflexivity.
Qed.

(** ** Board reordering *)

(** The array after the two [splice] calls: the dragged board is put at the
    index the target had before the dragged board was taken out. *)
Lemma handleBoardDrop_effective boards draggingBoard sourceBoardId targetBoardId i j dragged :
  Js.truthy draggingBoard = true ->
  sourceBoardId <> "" ->
  sourceBoardId <> targetBoardId ->
  Js.findIndex (fun b => String.eqb (Board.id b) sourceBoardId) boards = Some i ->
  Js.findIndex (fun b => String.eqb (Board.id b) targetBoardId) boards = Some j ->
  boards !! i = Some dragged ->
  handleBoardDrop boards draggingBoard sourceBoardId targetBoardId
  = imap (fun index board => Board.setOrder board (Z.of_nat index))
         (take j (delete i boards) ++ dragged :: drop j (delete i boards)).
Proof.
  intros Hdb Hne Hst Hi Hj Hd.
  unfold handleBoardDrop, handleBoardDrop_body. rewrite Hdb. cbn [negb].
  destruct (String.eqb_spec sourceBoardId ""); [contradiction|].
  destruct (String.eqb_spec sourceBoardId targetBoardId); [contradiction|].
  cbn [orb]. rewrite Hi, Hj, (splice_remove _ _ _ Hd).
  rewrite splice_insert; [reflexivity|].
  apply findIndex_lt in Hj.
  rewrite (length_delete boards i) by (now exists dragged). lia.
Qed.

Lemma imap_setOrder_lookup (l : list Board.t) k :
  imap (fun index board => Board.setOrder board (Z.of_nat index)) l !! k
  = (fun b => Board.setOrder b (Z.of_nat k)) <$> l !! k.
Proof. now rewrite list_lookup_imap. Qed.

Lemma imap_setOrder_ids (l : list Board.t) :
  map Board.id (imap (fun index board => Board.setOrder board (Z.of_nat index)) l)
  = map Board.id l.
Proof.
  apply list_eq. intros k.
  change (@map Board.t string) with (@fmap list _ Board.t string).
  rewrite !list_lookup_fmap, imap_setOrder_lookup.
  destruct (l !! k); reflexivity.
Qed.

Lemma imap_setOrder_orders (l : list Board.t) :
  map Board.order (imap (fun index board => Board.setOrder board (Z.of_nat index)) l)
  = map Z.of_nat (seq 0 (length l)).
Proof.
  apply list_eq. intros k.
  change (@map Board.t Z) with (@fmap list _ Board.t Z).
  change (@map nat Z) with (@fmap list _ nat Z).
  rewrite !list_lookup_fmap, imap_setOrder_lookup.
  destruct (l !! k) as [b|] eqn:Hk.
  - rewrite lookup_seq_lt by (now apply lookup_lt_Some in Hk). reflexivity.
  - rewrite lookup_seq_ge by (now apply lookup_ge_None in Hk). reflexivity.
Qed.

(** Sorting a sequence whose order fields ascend by position changes nothing. *)
Lemma sortedBoards_ascending (l : list Board.t) n :
  (forall k b, l !! k = Some b -> Board.order b = n + Z.of_nat k) ->
  sortedBoards l = l.
Proof.
  revert n. induction l as [|b rest IH]; intros n H; [reflexivity|].
  unfold sortedBoards in *. cbn [foldr].
  rewrite (IH (n + 1)).
  - destruct rest as [|c rest']; [reflexivity|].
    cbn [insertByOrder].
    rewrite (H 0%nat b eq_refl), (H 1%nat c eq_refl).
    destruct (Z.leb_spec (n + Z.of_nat 0 - (n + Z.of_nat 1)) 0); [reflexivity | lia].
  - intros k c Hk. rewrite (H (S k) c Hk). lia.
Qed.

Lemma findIndex_delete_after {A} (p : A -> bool) arr i j :
  Js.findIndex p arr = Some j -> (j < i)%nat ->
  Js.findIndex p (delete i arr) = Some j.
Proof.
  revert i j. induction arr as [|a rest IH]; intros i j; [discriminate|].
  destruct i as [|i]; [lia|].
  change (delete (S i) (a :: rest)) with (a :: delete i rest).
  cbn [Js.findIndex]. destruct (p a); [tauto|].
  destruct (Js.findIndex p rest) as [k|] eqn:Hk; [|discriminate].
  cbn. intros [= <-] Hlt. rewrite (IH i k eq_refl) by lia. reflexivity.
Qed.

(** The guards of [handleBoardDrop]: no drag in progress, no payload, a
    board dropped on itself, or an id that names no board. *)
Lemma handleBoardDrop_guarded boards draggingBoard sourceBoardId targetBoardId :
  Js.truthy draggingBoard = false \/ sourceBoardId = "" \/ sourceBoardId = targetBoardId \/
  Js.findIndex (fun b => String.eqb (Board.id b) sourceBoardId) boards = None \/
  Js.findIndex (fun b => String.eqb (Board.id b) targetBoardId) boards = None ->
  handleBoardDrop boards draggingBoard sourceBoardId targetBoardId = boards.
Proof.
  unfold handleBoardDrop, handleBoardDrop_body.
  intros [H|[H|[H|[H|H]]]].
  - now rewrite H.
  - subst. destruct (negb _); reflexivity.
  - subst. rewrite String.eqb_refl, orb_true_r. destruct (negb _); reflexivity.
  - rewrite H. destruct (negb _); [reflexivity|]. destruct (_ || _); reflexivity.
  - rewrite H. destruct (negb _); [reflexivity|]. destruct (_ || _); [reflexivity|].
    destruct (Js.findIndex (fun b => String.eqb (Board.id b) sourceBoardId) boards);
      reflexivity.
Qed.

Lemma moved_lookup_target {A} (l : list A) i j (dragged : A) :
  (i < length l)%nat -> (j < length l)%nat ->
  (take j (delete i l) ++ dragged :: drop j (delete i l)) !! j = Some dragged /\
  ((j < i)%nat -> (take j (delete i l) ++ dragged :: drop j (delete i l)) !! S j = l !! j) /\
  ((i < j)%nat -> (take j (delete i l) ++ dragged :: drop j (delete i l)) !! (j - 1)%nat = l !! j).
Proof.
  intros Hi Hj.
  assert (Hlen : length (delete i l) = (length l - 1)%nat).
  { apply length_delete. now apply lookup_lt_is_Some. }
  assert (Htake : length (take j (delete i l)) = j) by (rewrite length_take; lia).
  split; [|split].
  - rewrite lookup_app_r by lia. rewrite Htake, Nat.sub_diag. reflexivity.
  - intros Hlt. rewrite lookup_app_r by lia. rewrite Htake.
    replace (S j - j)%nat with 1%nat by lia.
    change ((dragged :: drop j (delete i l)) !! 1%nat) with (drop j (delete i l) !! 0%nat).
    rewrite lookup_drop, Nat.add_0_r. now apply list_lookup_delete_lt.
  - intros Hlt. rewrite lookup_app_l by lia.
    rewrite lookup_take_lt by lia. rewrite list_lookup_delete_ge by lia.
    f_equal. lia.
Qed.

(** C7 (amended).  [handleBoardDrop] takes the source board out and puts it
    back at the index the target board had before: immediately before the
    target when the source followed it (as the specification words it),
    immediately after the target when the source preceded it; then every
    board gets its index as order.  Nothing changes when the ids are equal
    or one of them names no board. *)
Theorem handleBoardDrop_moves_to_target_index
    (boards : list Board.t) (draggingBoard : option string)
    (sourceBoardId targetBoardId : string) :
  (Js.truthy draggingBoard = false \/ sourceBoardId = "" \/ sourceBoardId = targetBoardId \/
   Js.findIndex (fun b => String.eqb (Board.id b) sourceBoardId) boards = None \/
   Js.findIndex (fun b => String.eqb (Board.id b) targetBoardId) boards = None ->
   handleBoardDrop boards draggingBoard sourceBoardId targetBoardId = boards) /\
  (forall i j dragged target,
     Js.truthy draggingBoard = true ->
     sourceBoardId <> "" ->
     sourceBoardId <> targetBoardId ->
     Js.findIndex (fun b => String.eqb (Board.id b) sourceBoardId) boards = Some i ->
     Js.findIndex (fun b => String.eqb (Board.id b) targetBoardId) boards = Some j ->
     boards !! i = Some dragged ->
     boards !! j = Some target ->
     let result := handleBoardDrop boards draggingBoard sourceBoardId targetBoardId in
     result = imap (fun index board => Board.setOrder board (Z.of_nat index))
                   (take j (delete i boards) ++ dragged :: drop j (delete i boards)) /\
     result !! j = Some (Board.setOrder dragged (Z.of_nat j)) /\
     ((j < i)%nat ->
        result !! S j = Some (Board.setOrder target (Z.of_nat (S j))) /\
        result = reorderBoards_asSpecified boards sourceBoardId targetBoardId) /\
     ((i < j)%nat ->
        result !! (j - 1)%nat = Some (Board.setOrder target (Z.of_nat (j - 1))))).
Proof.
  split; [apply handleBoardDrop_guarded|].
  intros i j dragged target Hdb Hne Hst Hi Hj Hd Ht result.
  assert (Hres : result = imap (fun index board => Board.setOrder board (Z.of_nat index))
                   (take j (delete i boards) ++ dragged :: drop j (delete i boards)))
    by (now apply handleBoardDrop_effective).
  pose proof (lookup_lt_Some _ _ _ Hd) as Hilt.
  pose proof (lookup_lt_Some _ _ _ Ht) as Hjlt.
  destruct (moved_lookup_target boards i j dragged Hilt Hjlt) as (Hat & Hbefore & Hafter).
  split; [exact Hres|]. split; [|split].
  - rewrite Hres, imap_setOrder_lookup, Hat. reflexivity.
  - intros Hlt. split.
    + rewrite Hres, imap_setOrder_lookup, (Hbefore Hlt), Ht. reflexivity.
    + rewrite Hres. unfold reorderBoards_asSpecified.
      destruct (String.eqb_spec sourceBoardId targetBoardId); [contradiction|].
      rewrite Hi, Hd, (findIndex_delete_after _ _ _ _ Hj Hlt). reflexivity.
  - intros Hlt. rewrite Hres, imap_setOrder_lookup, (Hafter Hlt), Ht. reflexivity.
Qed.

Lemma handleBoardDrop_moves_to_target_index_witness :
  handleBoardDrop defaultBoards (Some "board-1") "board-1" "board-2" !! 1%nat
  = Some (Board.setOrder (Board.mk "board-1" "To Do" "bg-red-500" 0
                            (Board.tasks (nth 0 defaultBoards (Board.mk "" "" "" 0 []))))
            1) /\
  handleBoardDrop defaultBoards (Some "board-1") "board-1" "board-2" !! 0%nat
  = Some (Board.mk "board-2" "In Progress" "bg-yellow-500" 0 []) /\
  handleBoardDrop defaultBoards None "board-1" "board-2" = defaultBoards.
Proof.
  destruct (handleBoardDrop_moves_to_target_index defaultBoards (Some "board-1")
              "board-1" "board-2") as [_ Hmove].
  destruct (handleBoardDrop_moves_to_target_index defaultBoards None
              "board-1" "board-2") as [Hguard _].
  destruct (Hmove 0%nat 1%nat
              (nth 0 defaultBoards (Board.mk "" "" "" 0 []))
              (Board.mk "board-2" "In Progress" "bg-yellow-500" 1 []))
    as (_ & Hat & _ & Hafter);
    [reflexivity | discriminate | discriminate | reflexivity | reflexivity
    | reflexivity | reflexivity |].
  split; [exact Hat|]. split; [apply Hafter; lia|].
  apply Hguard. left. reflexivity.
Defined.

(** C7 (as stated).  Dragging the first default board onto the second puts
    it after the second, where the specification's wording keeps it before. *)
Lemma handleBoardDrop_source_before_target_lands_after :
  map Board.id (handleBoardDrop defaultBoards (Some "board-1") "board-1" "board-2")
  = ["board-2"; "board-1"; "board-3"] /\
  map Board.id (reorderBoards_asSpecified defaultBoards "board-1" "board-2")
  = ["board-1"; "board-2"; "board-3"] /\
  handleBoardDrop defaultBoards (Some "board-1") "board-1" "board-2"
  <> reorderBoards_asSpecified defaultBoards "board-1" "board-2".
Proof.
  split; [reflexivity|]. split; [reflexivity|]. discriminate.
Qed.

(** C4 (amended).  After a board drop that passes the guards of
    [handleBoardDrop] (a board drag in progress, two different board ids,
    both naming a board) the multiset of board ids is the same, every
    board's order field is its index in the display-sorted sequence (which
    is the array itself), and the order values are exactly 0..n-1.  A drop
    stopped by a guard changes nothing. *)
Theorem handleBoardDrop_renumbers
    (boards : list Board.t) (draggingBoard : option string)
    (sourceBoardId targetBoardId : string) :
  (Js.truthy draggingBoard = false \/ sourceBoardId = "" \/ sourceBoardId = targetBoardId \/
   Js.findIndex (fun b => String.eqb (Board.id b) sourceBoardId) boards = None \/
   Js.findIndex (fun b => String.eqb (Board.id b) targetBoardId) boards = None ->
   handleBoardDrop boards draggingBoard sourceBoardId targetBoardId = boards) /\
  (forall i j,
     Js.truthy draggingBoard = true ->
     sourceBoardId <> "" ->
     sourceBoardId <> targetBoardId ->
     Js.findIndex (fun b => String.eqb (Board.id b) sourceBoardId) boards = Some i ->
     Js.findIndex (fun b => String.eqb (Board.id b) targetBoardId) boards = Some j ->
     let result := handleBoardDrop boards draggingBoard sourceBoardId targetBoardId in
     Permutation (map Board.id result) (map Board.id boards) /\
     (forall k b, sortedBoards result !! k = Some b -> Board.order b = Z.of_nat k) /\
     Permutation (map Board.order result) (map Z.of_nat (seq 0 (length result))) /\
     sortedBoards result = result /\
     length result = length boards /\
     map Board.order result = map Z.of_nat (seq 0 (length boards))).
Proof.
  split; [apply handleBoardDrop_guarded|].
  intros i j Hdb Hne Hst Hi Hj result.
  destruct (findIndex_Some _ _ _ Hi) as (dragged & Hd & _).
  assert (Hres : result = imap (fun index board => Board.setOrder board (Z.of_nat index))
                   (take j (delete i boards) ++ dragged :: drop j (delete i boards)))
    by (now apply handleBoardDrop_effective).
  set (moved := take j (delete i boards) ++ dragged :: drop j (delete i boards)) in *.
  assert (Hperm : Permutation moved boards).
  { unfold moved. rewrite <- Permutation_middle, take_drop.
    symmetry. now apply delete_Permutation. }
  assert (Hlen : length result = length boards).
  { rewrite Hres, length_imap. now apply Permutation_length. }
  assert (Hord : forall k b, result !! k = Some b -> Board.order b = 0 + Z.of_nat k).
  { intros k b. rewrite Hres, imap_setOrder_lookup.
    destruct (moved !! k); [|discriminate]. intros [= <-]. reflexivity. }
  assert (Hsorted : sortedBoards result = result) by (now apply (sortedBoards_ascending _ 0)).
  assert (Heq : map Board.order result = map Z.of_nat (seq 0 (length boards))).
  { rewrite <- Hlen, Hres, length_imap. apply imap_setOrder_orders. }
  split; [rewrite Hres, imap_setOrder_ids; now apply Permutation_map|].
  split; [intros k b; rewrite Hsorted; apply Hord|].
  split; [now rewrite Heq, Hlen|].
  split; [exact Hsorted|]. split; [exact Hlen | exact Heq].
Qed.

Lemma handleBoardDrop_renumbers_witness :
  map Board.order (handleBoardDrop defaultBoards (Some "board-3") "board-3" "board-1")
  = [0; 1; 2] /\
  Permutation
    (map Board.id (handleBoardDrop defaultBoards (Some "board-3") "board-3" "board-1"))
    (map Board.id defaultBoards) /\
  handleBoardDrop defaultBoards (Some "board-3") "board-3" "board-3" = defaultBoards.
Proof.
  destruct (handleBoardDrop_renumbers defaultBoards (Some "board-3") "board-3" "board-1")
    as [_ Hmove].
  destruct (handleBoardDrop_renumbers defaultBoards (Some "board-3") "board-3" "board-3")
    as [Hguard _].
  destruct (Hmove 2%nat 0%nat) as (Hperm & _ & _ & _ & _ & Hord);
    [reflexivity | discriminate | discriminate | reflexivity | reflexivity |].
  split; [exact Hord|]. split; [exact Hperm|].
  apply Hguard. right. right. left. reflexivity.
Defined.

(** C4 (as stated).  After [deleteBoard] the orders have a gap; a board
    dropped on itself is a board drop that renumbers nothing, so the second
    board in display order keeps order 2 and the orders are not 0..1. *)
Lemma handleBoardDrop_on_itself_keeps_gap :
  let gapped := deleteBoard defaultBoards true "board-2" in
  let result := handleBoardDrop gapped (Some "board-1") "board-1" "board-1" in
  map Board.order (sortedBoards result) = [0; 2] /\
  (exists k b, sortedBoards result !! k = Some b /\ Board.order b <> Z.of_nat k) /\
  ~ Permutation (map Board.order result) (map Z.of_nat (seq 0 (length result))).
Proof.
  cbv zeta. split; [reflexivity|]. split.
  - exists 1%nat, (Board.mk "board-3" "Done" "bg-green-500" 2 []).
    split; [reflexivity | discriminate].
  - intros Hp. apply (Permutation_in 2) in Hp; [|right; now left].
    vm_compute in Hp. intuition discriminate.
Qed.

(** ** The writing loops at the located task *)

Lemma locate_cons y rest targetId :
  locate (y :: rest) targetId =
  if String.eqb (Task.id y) targetId then Some y
  else match locate (Task.subtasks y) targetId with
       | Some x => Some x
       | None => locate rest targetId
       end.
Proof.
  unfold locate. simpl findAndRemoveTask.
  destruct (String.eqb (Task.id y) targetId); [reflexivity|].
  rewrite findAndRemoveTask_sub_eq.
  destruct (findAndRemoveTask (Task.subtasks y) targetId) as [[x|] subs']; cbn [fst snd];
    [reflexivity|].
  destruct (findAndRemoveTask rest targetId); reflexivity.
Qed.

Lemma locate_setSubtasks y subs rest targetId :
  locate (Task.setSubtasks y subs :: rest) targetId =
  if String.eqb (Task.id y) targetId then Some (Task.setSubtasks y subs)
  else match locate subs targetId with
       | Some x => Some x
       | None => locate rest targetId
       end.
Proof. rewrite locate_cons. destruct y; reflexivity. Qed.

Lemma writeFirst_cons write targetId y rest :
  writeFirst write targetId (y :: rest) =
  if String.eqb (Task.id y) targetId then (true, write y :: rest)
  else if fst (writeFirst write targetId (Task.subtasks y))
       then (true, Task.setSubtasks y (snd (writeFirst write targetId (Task.subtasks y)))
                   :: rest)
       else (fst (writeFirst write targetId rest),
             y :: snd (writeFirst write targetId rest)).
Proof.
  simpl writeFirst. destruct (String.eqb (Task.id y) targetId); [reflexivity|].
  rewrite writeFirst_sub_eq.
  destruct (writeFirst write targetId (Task.subtasks y)) as [[|] subs']; cbn [fst snd];
    [reflexivity|].
  destruct (writeFirst write targetId rest); reflexivity.
Qed.

(** The loop writes at the located task and nowhere else. *)
Lemma writeFirst_spec write targetId tasks :
  match locate tasks targetId with
  | None => writeFirst write targetId tasks = (false, tasks)
  | Some x =>
      fst (writeFirst write targetId tasks) = true /\
      (write x = x -> snd (writeFirst write targetId tasks) = tasks) /\
      (Task.id (write x) = Task.id x ->
       locate (snd (writeFirst write targetId tasks)) targetId = Some (write x))
  end.
Proof.
  induction tasks as [|y rest IHsub IHrest] using forest_ind; [reflexivity|].
  rewrite locate_cons, writeFirst_cons.
  destruct (String.eqb (Task.id y) targetId) eqn:Hy.
  - cbn [fst snd]. split; [reflexivity|]. split.
    + now intros ->.
    + intros Hid. rewrite locate_cons, Hid, Hy. reflexivity.
  - destruct (locate (Task.subtasks y) targetId) as [x|] eqn:Hsub.
    + destruct IHsub as (Hf & Hsame & Hloc). rewrite Hf. cbn [fst snd].
      split; [reflexivity|]. split.
      * intros Hw. rewrite (Hsame Hw). now rewrite setSubtasks_same.
      * intros Hid. rewrite locate_setSubtasks, Hy, (Hloc Hid). reflexivity.
    + rewrite IHsub. cbn [fst snd].
      destruct (locate rest targetId) as [x|].
      * destruct IHrest as (Hf & Hsame & Hloc).
        split; [exact Hf|]. split.
        -- intros Hw. now rewrite (Hsame Hw).
        -- intros Hid. rewrite locate_cons, Hy, Hsub. now apply Hloc.
      * rewrite IHrest. reflexivity.
Qed.

Lemma updateTaskContent_sub_eq targetId index newText x :
  updateTaskContent_sub targetId index newText x =
  match updateTaskContent (Task.subtasks x) targetId index newText with
  | Js.Normal (r, subs) => Js.Normal (r, Task.setSubtasks x subs)
  | Js.TypeError => Js.TypeError
  end.
Proof.
  destruct x as [i t d du p tg subs c]; simpl.
  match goal with
  | |- match ?f subs with _ => _ end = _ =>
      assert (Hloop : forall l, f l = updateTaskContent l targetId index newText)
  end.
  { induction l as [|y r IHr]; [reflexivity|].
    simpl. rewrite IHr. reflexivity. }
  rewrite Hloop. reflexivity.
Qed.

(** [updateTaskContent] raises exactly when the located task has no content
    item at the index, and then nothing has been written. *)
Lemma updateTaskContent_spec targetId index newText tasks :
  match locate tasks targetId with
  | None => updateTaskContent tasks targetId index newText = Js.Normal (false, tasks)
  | Some x =>
      match Js.get (Task.content x) index with
      | None => updateTaskContent tasks targetId index newText = Js.TypeError
      | Some _ => exists tasks',
          updateTaskContent tasks targetId index newText = Js.Normal (true, tasks')
      end
  end.
Proof.
  induction tasks as [|y rest IHsub IHrest] using forest_ind; [reflexivity|].
  rewrite locate_cons. simpl updateTaskContent.
  destruct (String.eqb (Task.id y) targetId).
  - unfold writeContentText. destruct (Js.get (Task.content y) index); eauto.
  - rewrite updateTaskContent_sub_eq.
    destruct (locate (Task.subtasks y) targetId) as [x|].
    + destruct (Js.get (Task.content x) index).
      * destruct IHsub as [subs' ->]. eauto.
      * now rewrite IHsub.
    + rewrite IHsub. destruct (locate rest targetId) as [x|].
      * destruct (Js.get (Task.content x) index).
        -- destruct IHrest as [rest' ->]. eauto.
        -- now rewrite IHrest.
      * now rewrite IHrest.
Qed.

(** ** [splice(index, 1)] outside the array *)

Lemma splice_beyond_end {A} (arr : list A) index :
  Z.of_nat (length arr) <= index -> snd (Js.splice arr index 1 []) = arr.
Proof.
  intros H. unfold Js.splice, Js.spliceStart. cbn [snd].
  destruct (Z.ltb_spec index 0) as [?|_]; [lia|].
  rewrite (Z.min_r index) by lia.
  replace (Z.min (Z.max 1 0) (Z.of_nat (length arr) - Z.of_nat (length arr))) with 0 by lia.
  rewrite Z.add_0_r, Nat2Z.id, take_ge, drop_ge by lia. now rewrite app_nil_r.
Qed.

Lemma splice_negative {A} (arr : list A) index :
  index < 0 ->
  snd (Js.splice arr index 1 [])
  = delete (Z.to_nat (Z.max (Z.of_nat (length arr) + index) 0)) arr.
Proof.
  intros H. unfold Js.splice, Js.spliceStart. cbn [snd app].
  destruct (Z.ltb_spec index 0) as [_|?]; [|lia].
  set (s := Z.max (Z.of_nat (length arr) + index) 0).
  rewrite delete_take_drop. f_equal.
  destruct arr as [|a rest].
  - now rewrite !drop_nil.
  - f_equal. cbn [length] in *. lia.
Qed.

Lemma get_outside {A} (arr : list A) index :
  index < 0 \/ Z.of_nat (length arr) <= index -> Js.get arr index = None.
Proof.
  intros H. unfold Js.get. destruct (Z.ltb_spec index 0); [reflexivity|].
  apply lookup_ge_None. lia.
Qed.

(** ** Content edits with an index outside the content *)

(** C6 (amended).  When the board or the task is not found both content
    handlers leave the tree as it is.  At the located task,
    [deleteContentItem] with an index at or beyond the end is a no-op; a
    negative index is counted from the end by [splice] and the item at
    [max (length + index) 0] is removed; the content input's handler raises
    a TypeError for every index outside the content, before any write. *)
Theorem content_index_outside_bounds
    (boards : list Board.t) (boardId taskId : string) (index : Z) (value : string) :
  (Js.findIndex (fun board => String.eqb (Board.id board) boardId) boards = None ->
   deleteContentItem boards taskId boardId index = boards /\
   contentItem_onChange boards boardId taskId index value = Js.Normal boards) /\
  (forall i b,
     Js.findIndex (fun board => String.eqb (Board.id board) boardId) boards = Some i ->
     boards !! i = Some b ->
     (locate (Board.tasks b) taskId = None ->
      deleteContentItem boards taskId boardId index = boards /\
      contentItem_onChange boards boardId taskId index value = Js.Normal boards) /\
     (forall x,
        locate (Board.tasks b) taskId = Some x ->
        (Z.of_nat (length (Task.content x)) <= index ->
         deleteContentItem boards taskId boardId index = boards) /\
        (index < 0 ->
         exists b',
           deleteContentItem boards taskId boardId index !! i = Some b' /\
           locate (Board.tasks b') taskId
           = Some (Task.setContent x
                     (delete (Z.to_nat (Z.max (Z.of_nat (length (Task.content x)) + index) 0))
                             (Task.content x)))) /\
        (index < 0 \/ Z.of_nat (length (Task.content x)) <= index ->
         contentItem_onChange boards boardId taskId index value = Js.TypeError /\
         settle boards (contentItem_onChange boards boardId taskId index value) = boards))).
Proof.
  split.
  - intros Hnone. unfold deleteContentItem, onBoard, contentItem_onChange.
    rewrite Hnone. split; reflexivity.
  - intros i b Hi Hb.
    assert (Hdel : deleteContentItem boards taskId boardId index
                   = <[i := Board.setTasks b
                              (snd (removeContentFromTask (Board.tasks b) taskId index))]> boards)
      by (unfold deleteContentItem; now rewrite (onBoard_found _ _ _ i b Hi Hb)).
    assert (Hsame : <[i := Board.setTasks b (Board.tasks b)]> boards = boards).
    { apply list_insert_id. rewrite Hb. destruct b; reflexivity. }
    pose proof (writeFirst_spec
                  (fun x => Task.setContent x (snd (Js.splice (Task.content x) index 1 [])))
                  taskId (Board.tasks b)) as Hw.
    pose proof (updateTaskContent_spec taskId index value (Board.tasks b)) as Hu.
    unfold contentItem_onChange. rewrite Hi, Hb.
    fold (removeContentFromTask (Board.tasks b) taskId index) in Hw.
    split.
    + intros Hloc. rewrite Hloc in Hw, Hu. rewrite Hdel, Hw, Hu. cbn [snd].
      rewrite Hsame. split; reflexivity.
    + intros x Hloc. rewrite Hloc in Hw, Hu. destruct Hw as (_ & Hnoop & Hlocated).
      split; [|split].
      * intros Hge. rewrite Hdel, Hnoop; [exact Hsame|].
        rewrite splice_beyond_end by assumption. destruct x; reflexivity.
      * intros Hneg. eexists. rewrite Hdel. split.
        -- apply list_lookup_insert_eq. now apply lookup_lt_Some in Hb.
        -- change (Board.tasks (Board.setTasks b ?t)) with t.
           rewrite Hlocated by (destruct x; reflexivity).
           now rewrite splice_negative.
      * intros Hout. rewrite (get_outside _ _ Hout) in Hu. rewrite Hu.
        split; reflexivity.
Qed.

Lemma content_index_outside_bounds_witness :
  deleteContentItem defaultBoards "task-1" "board-1" 2 = defaultBoards /\
  contentItem_onChange defaultBoards "board-1" "task-1" 2 "text" = Js.TypeError /\
  deleteContentItem defaultBoards "task-1" "board-9" 2 = defaultBoards.
Proof.
  destruct (content_index_outside_bounds defaultBoards "board-1" "task-1" 2 "text")
    as [_ Hfound].
  destruct (content_index_outside_bounds defaultBoards "board-9" "task-1" 2 "text")
    as [Hmissing _].
  destruct (Hfound 0%nat (nth 0 defaultBoards (Board.mk "" "" "" 0 [])) eq_refl eq_refl)
    as [_ Hlocated].
  destruct (Hlocated (nth 0 (Board.tasks (nth 0 defaultBoards (Board.mk "" "" "" 0 [])))
                        (leaf "" [])) eq_refl)
    as (Hge & _ & Hout).
  split; [apply Hge; simpl; lia|].
  split; [apply Hout; right; simpl; lia|].
  apply Hmissing. reflexivity.
Defined.

(** C6 (as stated).  On the default tree, whose task has two content items,
    deleting at index -1 removes the last item, and editing at index 2
    raises a TypeError. *)
Lemma content_edits_outside_bounds_change_or_throw :
  deleteContentItem defaultBoards "task-1" "board-1" (-1) <> defaultBoards /\
  (exists x, locate (Board.tasks (nth 0 (deleteContentItem defaultBoards "task-1" "board-1" (-1))
                                    (Board.mk "" "" "" 0 [])))
               "task-1" = Some x /\
             Task.content x = [mkContentItem "bullet" "Check user reviews"]) /\
  contentItem_onChange defaultBoards "board-1" "task-1" 2 "text" = Js.TypeError /\
  contentItem_onChange defaultBoards "board-1" "task-1" (-1) "text" = Js.TypeError.
Proof.
  split; [discriminate|]. split; [eexists; split; reflexivity|].
  split; reflexivity.
Qed.

(** ** Snapshots that share objects *)

Lemma alter_boardFrame (sigma : list Board.t) r (write : list Task.t -> list Task.t) :
  map boardFrame (alter (fun board => Board.setTasks board (write (Board.tasks board))) r sigma)
  = map boardFrame sigma.
Proof. apply (boardFrame_alter_tasks sigma r (fun b => write (Board.tasks b))). Qed.

Lemma idIs_alter_tasks sigma r (write : list Task.t -> list Task.t) boardId r' :
  Shared.idIs (alter (fun board => Board.setTasks board (write (Board.tasks board))) r sigma)
    boardId r'
  = Shared.idIs sigma boardId r'.
Proof.
  unfold Shared.idIs. rewrite list_lookup_alter.
  destruct (decide (r = r')) as [->|_]; [|reflexivity].
  destruct (sigma !! r'); reflexivity.
Qed.

Lemma forEachSetOrder_keeps (proj : Board.t -> string * string * string * list Task.t)
    (sigma : Shared.store) (entries : list (nat * Shared.ref)) :
  (forall b v, proj (Board.setOrder b v) = proj b) ->
  map proj (fold_left (fun acc (entry : nat * Shared.ref) =>
                         alter (fun board => Board.setOrder board (Z.of_nat (fst entry)))
                               (snd entry) acc)
                      entries sigma)
  = map proj sigma.
Proof.
  intros Hproj. revert sigma. induction entries as [|e rest IH]; intros sigma; [reflexivity|].
  cbn [fold_left]. rewrite IH.
  apply list_eq. intros k.
  change (@map Board.t (string * string * string * list Task.t))
    with (@fmap list _ Board.t (string * string * string * list Task.t)).
  rewrite !list_lookup_fmap, list_lookup_alter.
  destruct (decide (snd e = k)) as [<-|_]; [|reflexivity].
  destruct (sigma !! snd e) as [b|]; [|reflexivity].
  change (Some (proj (Board.setOrder b (Z.of_nat (fst e)))) = Some (proj b)).
  now rewrite Hproj.
Qed.

(** C3 (amended).  Relocation (on its deep copy), [deleteBoard] and
    [addNewBoard] leave every object of the store before the call as it was.
    The editing handlers (every instance of [Shared.onBoard]: title,
    description, priority, due date, adding and deleting a content item or
    a task; and the content input's handler) keep the array of references
    and write in place to the tasks of the board named by [boardId]: every
    other object, and that board's id, title, color and order, are as
    before.  [updateBoardTitle] writes in place to titles only and
    [handleBoardDrop] to order fields only. *)
Theorem mutation_sharing (s : Shared.state) :
  (forall dragging jsonData targetBoardId targetTaskId,
     take (length (Shared.heap s))
          (Shared.heap (Shared.handleTaskDrop s dragging jsonData targetBoardId targetTaskId))
     = Shared.heap s) /\
  (forall confirmed boardId,
     Shared.heap (Shared.deleteBoard s confirmed boardId) = Shared.heap s) /\
  (forall pick stamp,
     take (length (Shared.heap s)) (Shared.heap (Shared.addNewBoard s pick stamp))
     = Shared.heap s) /\
  (forall boardId write,
     Shared.boards (Shared.onBoard s boardId write) = Shared.boards s /\
     map boardFrame (Shared.heap (Shared.onBoard s boardId write))
     = map boardFrame (Shared.heap s) /\
     (forall r, Shared.idIs (Shared.heap s) boardId r = false ->
                Shared.heap (Shared.onBoard s boardId write) !! r = Shared.heap s !! r)) /\
  (forall boardId newTitle,
     Shared.boards (Shared.updateBoardTitle s boardId newTitle) = Shared.boards s /\
     map (fun b => (Board.id b, Board.color b, Board.order b, Board.tasks b))
         (Shared.heap (Shared.updateBoardTitle s boardId newTitle))
     = map (fun b => (Board.id b, Board.color b, Board.order b, Board.tasks b))
           (Shared.heap s)) /\
  (forall boardId taskId index value,
     Shared.boards (Shared.settle s (Shared.contentItem_onChange s boardId taskId index value))
     = Shared.boards s /\
     map boardFrame
         (Shared.heap (Shared.settle s
                         (Shared.contentItem_onChange s boardId taskId index value)))
     = map boardFrame (Shared.heap s)) /\
  (forall draggingBoard sourceBoardId targetBoardId,
     map (fun b => (Board.id b, Board.title b, Board.color b, Board.tasks b))
         (Shared.heap (Shared.handleBoardDrop s draggingBoard sourceBoardId targetBoardId))
     = map (fun b => (Board.id b, Board.title b, Board.color b, Board.tasks b))
           (Shared.heap s)).
Proof.
  split; [|split; [|split; [|split; [|split; [|split]]]]].
  - intros. unfold Shared.handleTaskDrop.
    destruct (handleTaskDrop_body _ _ _ _ _); cbn [Shared.heap].
    + now rewrite take_app_length.
    + now rewrite firstn_all.
  - intros [] boardId; reflexivity.
  - intros. cbn [Shared.addNewBoard Shared.heap]. now rewrite take_app_length.
  - intros boardId write. unfold Shared.onBoard.
    destruct (Js.findIndex _ _) as [i|] eqn:Hi; [|repeat split].
    destruct (Shared.boards s !! i) as [r|] eqn:Hr; [|repeat split].
    cbn [Shared.heap Shared.boards].
    split; [reflexivity|]. split; [apply alter_boardFrame|].
    intros r' Hother. rewrite list_lookup_alter.
    destruct (decide (r = r')) as [<-|_]; [|reflexivity].
    apply findIndex_Some in Hi as (r'' & Hr'' & Hp & _). congruence.
  - intros boardId newTitle. unfold Shared.updateBoardTitle.
    destruct (Js.findIndex _ _) as [i|]; [|repeat split].
    destruct (Shared.boards s !! i) as [r|]; [|repeat split].
    cbn [Shared.heap Shared.boards]. split; [reflexivity|].
    apply list_eq. intros k.
    change (@map Board.t (string * string * Z * list Task.t))
      with (@fmap list _ Board.t (string * string * Z * list Task.t)).
    rewrite !list_lookup_fmap, list_lookup_alter.
    destruct (decide (r = k)) as [->|_]; [|reflexivity].
    destruct (Shared.heap s !! k); reflexivity.
  - intros boardId taskId index value. unfold Shared.contentItem_onChange.
    destruct (Js.findIndex _ _) as [i|]; [|repeat split].
    destruct (Shared.boards s !! i) as [r|]; [|repeat split].
    destruct (Shared.heap s !! r) as [board|] eqn:Hboard; [|repeat split].
    destruct (updateTaskContent _ _ _ _) as [[found tasks]|]; [|repeat split].
    cbn [Shared.settle Shared.heap Shared.boards]. split; [reflexivity|].
    now apply boardFrame_insert_tasks.
  - intros draggingBoard sourceBoardId targetBoardId. unfold Shared.handleBoardDrop.
    destruct (negb _); [reflexivity|]. destruct (_ || _); [reflexivity|].
    destruct (Js.findIndex _ _) as [i|]; [|reflexivity].
    destruct (Js.findIndex _ _) as [j|]; [|reflexivity].
    destruct (Js.splice _ _ 1 _) as [[|dragged removed] rest]; [reflexivity|].
    destruct (Js.splice rest _ 0 _) as [ignored newBoards].
    cbn [Shared.heap]. unfold Shared.forEachSetOrder.
    apply (forEachSetOrder_keeps
             (fun b => (Board.id b, Board.title b, Board.color b, Board.tasks b))).
    reflexivity.
Qed.

Lemma mutation_sharing_witness :
  Shared.heap (Shared.updateTaskPriority Shared.defaultState "board-1" "task-1" "low") !! 1%nat
  = Shared.heap Shared.defaultState !! 1%nat.
Proof.
  destruct (mutation_sharing Shared.defaultState) as (_ & _ & _ & Hedit & _).
  destruct (Hedit "board-1" (fun tasks => snd (updatePriority tasks "task-1" "low")))
    as (_ & _ & Hother).
  apply (Hother 1%nat). reflexivity.
Defined.

(** C3 (as stated).  [updateTaskPriority] and [updateTaskTitle] write to the
    board object that the array before the call refers to: read through the
    store after the call, the old array shows the new priority and title. *)
Lemma editing_handlers_write_shared_object :
  let before := Shared.defaultState in
  let after := Shared.updateTaskPriority before "board-1" "task-1" "low" in
  let after' := Shared.updateTaskTitle before "board-1" "task-1" "Renamed" in
  In 0%nat (Shared.boards before) /\
  Shared.boards after = Shared.boards before /\
  map Task.priority (Board.tasks (nth 0 (Shared.heap before) (Board.mk "" "" "" 0 [])))
  = ["high"] /\
  map Task.priority (Board.tasks (nth 0 (Shared.heap after) (Board.mk "" "" "" 0 [])))
  = ["low"] /\
  Shared.heap after !! 0%nat <> Shared.heap before !! 0%nat /\
  Shared.view (Shared.mkState (Shared.heap after) (Shared.boards before))
  <> Shared.view before /\
  map Task.title (Board.tasks (nth 0 (Shared.heap after') (Board.mk "" "" "" 0 [])))
  = ["Renamed"] /\
  Shared.heap after' !! 0%nat <> Shared.heap before !! 0%nat.
Proof.
  cbv zeta. split; [now left|]. split; [reflexivity|].
  split; [reflexivity|]. split; [reflexivity|]. split; [discriminate|].
  split; [discriminate|]. split; [reflexivity | discriminate].
Qed.

(** ** [JSON.parse] reads back what [JSON.stringify] writes *)

Module JsonFacts.
Import Json.

Lemma isChar_eq c d : isChar c (String d EmptyString) = true -> c = d.
Proof. apply Ascii.eqb_eq. Qed.

Lemma followed_cases rest :
  followed rest ->
  rest = [] \/ exists tail, rest = ","%char :: tail \/ rest = "]"%char :: tail
                            \/ rest = "}"%char :: tail.
Proof.
  destruct rest as [|c tail]; [now left|]. cbn [followed]. intros H. right. exists tail.
  apply orb_true_iff in H as [H|H]; [apply orb_true_iff in H as [H|H]|];
    apply isChar_eq in H; subst; tauto.
Qed.

(** One escaped code unit is read back as that code unit. *)
Lemma readString_escapeChar c acc tail :
  readString Plain acc (escapeChar c ++ tail) = readString Plain (c :: acc) tail.
Proof.
  destruct c as [b0 b1 b2 b3 b4 b5 b6 b7].
  destruct b0, b1, b2, b3, b4, b5, b6, b7; reflexivity.
Qed.

Lemma readString_quote s acc rest :
  readString Plain acc (flat_map escapeChar (chars s) ++ dquote :: rest)
  = Some (string_of_list_ascii (rev acc ++ chars s), rest).
Proof.
  revert acc. induction s as [|c s IH]; intros acc.
  - cbn. now rewrite app_nil_r.
  - cbn [chars list_ascii_of_string flat_map]. fold (chars s).
    rewrite <- app_assoc, readString_escapeChar, IH.
    cbn [rev]. now rewrite <- app_assoc.
Qed.

Lemma readString_quoted s rest :
  readString Plain [] (flat_map escapeChar (chars s) ++ dquote :: rest) = Some (s, rest).
Proof.
  rewrite readString_quote. cbn [rev app]. unfold chars.
  now rewrite string_of_list_ascii_of_string.
Qed.

Lemma readDigits_followed rest : followed rest -> readDigits rest = (Decimal.Nil, rest).
Proof.
  intros H. destruct (followed_cases rest H) as [-> | (tail & [-> | [-> | ->]])];
    [reflexivity|..]; cbn [readDigits]; destruct (readDigits tail); reflexivity.
Qed.

Lemma readDigits_uintChars d rest :
  followed rest -> readDigits (uintChars d ++ rest) = (d, rest).
Proof.
  intros H. induction d; cbn [uintChars app readDigits];
    [now apply readDigits_followed | rewrite IHd; reflexivity ..].
Qed.

Lemma readNumber_uintChars negative d rest :
  d <> Decimal.Nil -> leadingZero d = false -> followed rest ->
  readNumber negative (uintChars d ++ rest)
  = Some (Number (Z.of_int (if negative then Decimal.Neg d else Decimal.Pos d)), rest).
Proof.
  intros Hd Hz H. unfold readNumber. rewrite (readDigits_uintChars d rest H), Hz.
  destruct d; [contradiction|..];
    (destruct (followed_cases rest H) as [-> | (tail & [-> | [-> | ->]])]; reflexivity).
Qed.

(** The numeral of a positive number does not start with 0. *)
Lemma leadingZero_to_uint p : leadingZero (Pos.to_uint p) = false.
Proof.
  assert (Hnorm : Pos.to_uint p = Decimal.unorm (Pos.to_uint p)).
  { pose proof (Unsigned.to_of (Pos.to_uint p)) as H.
    rewrite Unsigned.of_to in H. exact H. }
  destruct (Pos.to_uint p) as [|u|u|u|u|u|u|u|u|u|u] eqn:E; try reflexivity.
  destruct u as [|u|u|u|u|u|u|u|u|u|u]; [reflexivity|..]; exfalso;
    (rewrite DecimalFacts.unorm_D0 in Hnorm;
     match type of Hnorm with
     | Decimal.D0 ?v = _ =>
         destruct (Decimal.uint_eq_dec (Decimal.nzhead v) Decimal.Nil) as [Hnil|Hnn];
         [ apply DecimalFacts.unorm_0 in Hnil; rewrite Hnil in Hnorm; discriminate
         | rewrite (DecimalFacts.unorm_nzhead v Hnn) in Hnorm;
           symmetry in Hnorm; exact (DecimalFacts.nzhead_nonzero _ _ Hnorm) ]
     end).
Qed.

(** Induction on values, through arrays and objects. *)
Lemma value_ind' (P : value -> Prop) :
  P Null -> (forall b, P (Bool b)) -> (forall z, P (Number z)) -> (forall s, P (Str s)) ->
  (forall items, Forall P items -> P (Array items)) ->
  (forall members, Forall (fun m => P (snd m)) members -> P (Object members)) ->
  forall v, P v.
Proof.
  intros HN HB HZ HS HA HO. fix IH 1. intros [| b | z | s | items | members].
  - exact HN.
  - apply HB.
  - apply HZ.
  - apply HS.
  - apply HA. induction items as [|x rest IHr]; constructor; [apply IH | exact IHr].
  - apply HO. induction members as [|[k x] rest IHr]; constructor; [apply IH | exact IHr].
Qed.

Lemma printNumber_nonnil z :
  exists d, d <> Decimal.Nil /\ leadingZero d = false /\
            (printNumber z = uintChars d /\ Z.to_int z = Decimal.Pos d \/
             printNumber z = "-"%char :: uintChars d /\ Z.to_int z = Decimal.Neg d).
Proof.
  unfold printNumber. destruct z as [|p|p]; cbn [Z.to_int].
  - exists (Decimal.D0 Decimal.Nil). split; [discriminate|]. split; [reflexivity | now left].
  - exists (Pos.to_uint p). split; [apply Unsigned.to_uint_nonnil|].
    split; [apply leadingZero_to_uint | now left].
  - exists (Pos.to_uint p). split; [apply Unsigned.to_uint_nonnil|].
    split; [apply leadingZero_to_uint | now right].
Qed.

Lemma uintChars_head d :
  d <> Decimal.Nil ->
  exists c cs, uintChars d = c :: cs /\
    isWhitespace c = false /\ isChar c "n" = false /\ isChar c "t" = false /\
    isChar c "f" = false /\ Ascii.eqb c dquote = false /\ isChar c "[" = false /\
    isChar c "{" = false /\ isChar c "-" = false /\ isChar c "]" = false /\
    isChar c "}" = false.
Proof.
  destruct d; [contradiction|..]; intros _; eexists _, _; (split; [reflexivity|]);
    repeat split; reflexivity.
Qed.

(** A printed value starts with a character that is neither whitespace nor
    a closing bracket. *)
Lemma print_head v :
  exists c cs, print v = c :: cs /\
    isWhitespace c = false /\ isChar c "]" = false /\ isChar c "}" = false.
Proof.
  destruct v as [| [|] | z | s | items | members];
    try (eexists _, _; split; [reflexivity|]; repeat split; reflexivity).
  change (print (Number z)) with (printNumber z).
  destruct (printNumber_nonnil z) as (d & Hd & _ & [[-> _]|[-> _]]).
  - destruct (uintChars_head d Hd) as (c & cs & -> & Hw & H). exists c, cs. tauto.
  - eexists _, _; split; [reflexivity|]; repeat split; reflexivity.
Qed.

Lemma skipWhitespace_print v rest : skipWhitespace (print v ++ rest) = print v ++ rest.
Proof.
  destruct (print_head v) as (c & cs & -> & Hw & _). cbn. now rewrite Hw.
Qed.

Lemma skipWhitespace_followed rest : followed rest -> skipWhitespace rest = rest.
Proof.
  intros H. destruct (followed_cases rest H) as [-> | (tail & [-> | [-> | ->]])];
    reflexivity.
Qed.

Lemma parseValue_minus fuel cs :
  parseValue (S fuel) ("-"%char :: cs) = readNumber true cs.
Proof. reflexivity. Qed.

Lemma parseValue_number fuel z rest :
  followed rest -> parseValue (S fuel) (printNumber z ++ rest) = Some (Number z, rest).
Proof.
  intros H. destruct (printNumber_nonnil z) as (d & Hd & Hlz & [[Hp Hz]|[Hp Hz]]); rewrite Hp.
  - destruct (uintChars_head d Hd)
      as (c & cs & Hc & Hw & Hn & Ht & Hf & Hq & Ha & Ho & Hm & _).
    cbn [parseValue]. rewrite Hc. cbn [app skipWhitespace].
    rewrite Hw, Hn, Ht, Hf, Hq, Ha, Ho, Hm.
    change (c :: cs ++ rest) with ((c :: cs) ++ rest). rewrite <- Hc.
    rewrite (readNumber_uintChars false d rest Hd Hlz H), <- Hz, of_to. reflexivity.
  - change (("-"%char :: uintChars d) ++ rest) with ("-"%char :: (uintChars d ++ rest)).
    rewrite parseValue_minus, (readNumber_uintChars true d rest Hd Hlz H), <- Hz, of_to.
    reflexivity.
Qed.

Lemma print_Array items : print (Array items) = chars "[" ++ elements items ++ chars "]".
Proof. reflexivity. Qed.

Lemma print_Object members :
  print (Object members) = chars "{" ++ properties members ++ chars "}".
Proof. reflexivity. Qed.

Lemma parseValue_null fuel rest : parseValue (S fuel) (chars "null" ++ rest) = Some (Null, rest).
Proof. reflexivity. Qed.

Lemma parseValue_true fuel rest :
  parseValue (S fuel) (chars "true" ++ rest) = Some (Bool true, rest).
Proof. reflexivity. Qed.

Lemma parseValue_false fuel rest :
  parseValue (S fuel) (chars "false" ++ rest) = Some (Bool false, rest).
Proof. reflexivity. Qed.

Lemma parseValue_string fuel s rest :
  parseValue (S fuel) (quote s ++ rest) = Some (Str s, rest).
Proof.
  unfold quote. cbn [app]. rewrite <- app_assoc. cbn [app].
  change (parseValue (S fuel) (dquote :: ?cs))
    with (option_map (fun '(s, rest') => (Str s, rest')) (readString Plain [] cs)).
  now rewrite readString_quoted.
Qed.

Lemma parseValue_array fuel c cs :
  isWhitespace c = false -> isChar c "]" = false ->
  parseValue (S fuel) ("["%char :: c :: cs)
  = option_map (fun '(items, after) => (Array items, after)) (parseElements fuel (c :: cs)).
Proof.
  intros Hw Hc.
  change (parseValue (S fuel) ("["%char :: c :: cs))
    with (match skipWhitespace (c :: cs) with
          | c' :: rest' =>
              if isChar c' "]" then Some (Array [], rest')
              else option_map (fun '(items, after) => (Array items, after))
                     (parseElements fuel (c' :: rest'))
          | [] => None
          end).
  cbn [skipWhitespace]. now rewrite Hw, Hc.
Qed.

Lemma parseValue_object fuel c cs :
  isWhitespace c = false -> isChar c "}" = false ->
  parseValue (S fuel) ("{"%char :: c :: cs)
  = option_map (fun '(members, after) => (Object members, after))
      (parseMembers fuel (c :: cs)).
Proof.
  intros Hw Hc.
  change (parseValue (S fuel) ("{"%char :: c :: cs))
    with (match skipWhitespace (c :: cs) with
          | c' :: rest' =>
              if isChar c' "}" then Some (Object [], rest')
              else option_map (fun '(members, after) => (Object members, after))
                     (parseMembers fuel (c' :: rest'))
          | [] => None
          end).
  cbn [skipWhitespace]. now rewrite Hw, Hc.
Qed.

Lemma parseElements_comma fuel cs x tail :
  parseValue fuel cs = Some (x, ","%char :: tail) ->
  parseElements (S fuel) cs
  = option_map (fun '(items, after) => (x :: items, after)) (parseElements fuel tail).
Proof. intros H. cbn [parseElements]. rewrite H. reflexivity. Qed.

Lemma parseElements_close fuel cs x tail :
  parseValue fuel cs = Some (x, "]"%char :: tail) ->
  parseElements (S fuel) cs = Some ([x], tail).
Proof. intros H. cbn [parseElements]. rewrite H. reflexivity. Qed.

Lemma parseMembers_key fuel k cs :
  parseMembers (S fuel) (quote k ++ ":"%char :: cs)
  = match parseValue fuel cs with
    | Some (v, rest3) =>
        match skipWhitespace rest3 with
        | c :: rest4 =>
            if isChar c "," then
              option_map (fun '(members, after) => ((k, v) :: members, after))
                (parseMembers fuel rest4)
            else if isChar c "}" then Some ([(k, v)], rest4)
            else None
        | [] => None
        end
    | None => None
    end.
Proof.
  unfold quote. cbn [app]. rewrite <- app_assoc. cbn [app].
  set (body := flat_map escapeChar (chars k) ++ dquote :: ":"%char :: cs).
  change (parseMembers (S fuel) (dquote :: body))
    with (match readString Plain [] body with
          | Some (k, rest1) =>
              match skipWhitespace rest1 with
              | colon :: rest2 =>
                  if isChar colon ":" then
                    match parseValue fuel rest2 with
                    | Some (v, rest3) =>
                        match skipWhitespace rest3 with
                        | c :: rest4 =>
                            if isChar c "," then
                              option_map (fun '(members, after) => ((k, v) :: members, after))
                                (parseMembers fuel rest4)
                            else if isChar c "}" then Some ([(k, v)], rest4)
                            else None
                        | [] => None
                        end
                    | None => None
                    end
                  else None
              | [] => None
              end
          | None => None
          end).
  unfold body. rewrite readString_quoted. reflexivity.
Qed.

Lemma list_sum_map_cons {A} (f : A -> nat) x l :
  list_sum (map f (x :: l)) = (f x + list_sum (map f l))%nat.
Proof. reflexivity. Qed.

Lemma properties_more j y m l rest :
  properties ((j, y) :: m :: l) ++ rest
  = quote j ++ ":"%char :: print y ++ ","%char :: properties (m :: l) ++ rest.
Proof.
  change (properties ((j, y) :: m :: l))
    with (quote j ++ chars ":" ++ print y ++ chars "," ++ properties (m :: l)).
  rewrite <- !app_assoc. reflexivity.
Qed.

Lemma properties_last j y rest :
  properties [(j, y)] ++ rest = quote j ++ ":"%char :: print y ++ rest.
Proof.
  change (properties [(j, y)]) with (quote j ++ chars ":" ++ print y ++ []).
  rewrite app_nil_r, <- !app_assoc. reflexivity.
Qed.

(** Reading a printed value gives the value back and stops right after it. *)
Lemma parseValue_print v :
  forall fuel rest, (size v <= fuel)%nat -> followed rest ->
                    parseValue fuel (print v ++ rest) = Some (v, rest).
Proof.
  induction v as [| b | z | s | items IH | members IH] using value_ind';
    intros [|fuel] rest Hfuel Hrest; try (cbn in Hfuel; lia).
  - apply parseValue_null.
  - destruct b; [apply parseValue_true | apply parseValue_false].
  - now apply parseValue_number.
  - apply parseValue_string.
  - cbn [size] in Hfuel. apply le_S_n in Hfuel.
    rewrite print_Array. cbn [chars list_ascii_of_string app]. rewrite <- app_assoc.
    cbn [chars list_ascii_of_string app].
    destruct items as [|x items']; [reflexivity|].
    assert (Hel : forall l fuel',
               Forall (fun v => forall fuel rest, (size v <= fuel)%nat -> followed rest ->
                                  parseValue fuel (print v ++ rest) = Some (v, rest)) l ->
               l <> [] -> (list_sum (map (fun x => S (size x)) l) <= fuel')%nat ->
               parseElements fuel' (elements l ++ "]"%char :: rest) = Some (l, rest)).
    { clear. induction l as [|y l' IHl]; intros fuel' Hall Hne Hsum; [contradiction|].
      apply Forall_cons_iff in Hall as [Hy Hall]. rewrite list_sum_map_cons in Hsum.
      destruct fuel' as [|fuel']; [lia|].
      destruct l' as [|y' l''].
      - cbn [elements]. rewrite app_nil_r.
        apply parseElements_close, Hy; [lia | cbn; reflexivity].
      - cbn [elements]. rewrite <- app_assoc. cbn [chars list_ascii_of_string app].
        rewrite (parseElements_comma fuel' _ y (elements (y' :: l'') ++ "]"%char :: rest)).
        + rewrite IHl; [reflexivity | assumption | discriminate | lia].
        + apply Hy; [lia | cbn; reflexivity]. }
    destruct (print_head x) as (c & cs & Hc & Hw & Hb & _).
    assert (Hstart : exists cs', elements (x :: items') ++ "]"%char :: rest = c :: cs').
    { cbn [elements]. rewrite Hc. eexists. reflexivity. }
    destruct Hstart as [cs' Hstart]. rewrite Hstart, parseValue_array by assumption.
    rewrite <- Hstart, Hel; [reflexivity | assumption | discriminate | assumption].
  - cbn [size] in Hfuel. apply le_S_n in Hfuel.
    rewrite print_Object. cbn [chars list_ascii_of_string app]. rewrite <- app_assoc.
    cbn [chars list_ascii_of_string app].
    destruct members as [|[k x] members']; [reflexivity|].
    assert (Hel : forall l fuel',
               Forall (fun m => forall fuel rest, (size (snd m) <= fuel)%nat -> followed rest ->
                                  parseValue fuel (print (snd m) ++ rest)
                                  = Some (snd m, rest)) l ->
               l <> [] -> (list_sum (map (fun m => S (size (snd m))) l) <= fuel')%nat ->
               parseMembers fuel' (properties l ++ "}"%char :: rest) = Some (l, rest)).
    { clear. induction l as [|[j y] l' IHl]; intros fuel' Hall Hne Hsum; [contradiction|].
      apply Forall_cons_iff in Hall as [Hy Hall]. rewrite list_sum_map_cons in Hsum.
      cbn [snd] in Hsum, Hy.
      destruct fuel' as [|fuel']; [lia|].
      destruct l' as [|m' l''].
      - rewrite properties_last.
        rewrite parseMembers_key, (Hy fuel' ("}"%char :: rest));
          [reflexivity | lia | cbn; reflexivity].
      - rewrite properties_more.
        rewrite parseMembers_key,
          (Hy fuel' (","%char :: properties (m' :: l'') ++ "}"%char :: rest));
          [| lia | cbn; reflexivity].
        cbn [skipWhitespace]. change (isWhitespace ","%char) with false.
        change (isChar ","%char ",") with true. cbv iota.
        rewrite IHl; [reflexivity | assumption | discriminate | lia]. }
    assert (Hstart : exists cs', properties ((k, x) :: members') ++ "}"%char :: rest
                                 = dquote :: cs').
    { cbn [properties]. unfold quote. eexists. reflexivity. }
    destruct Hstart as [cs' Hstart]. rewrite Hstart, parseValue_object by reflexivity.
    rewrite <- Hstart, Hel; [reflexivity | assumption | discriminate | assumption].
Qed.

Lemma print_nonempty v : (1 <= length (print v))%nat.
Proof. destruct (print_head v) as (c & cs & -> & _). cbn. lia. Qed.

Lemma elements_length items :
  Forall (fun v => (size v <= length (print v))%nat) items ->
  (list_sum (map (fun x => S (size x)) items) <= S (length (elements items)))%nat.
Proof.
  induction 1 as [|x rest Hx _ IH]; [cbn; lia|].
  rewrite list_sum_map_cons. destruct rest as [|y rest'].
  - cbn [elements map list_sum fold_right]. rewrite app_nil_r. cbn. lia.
  - change (elements (x :: y :: rest'))
      with (print x ++ chars "," ++ elements (y :: rest')).
    rewrite !length_app. cbn [chars list_ascii_of_string length]. lia.
Qed.

Lemma properties_length members :
  Forall (fun m => (size (snd m) <= length (print (snd m)))%nat) members ->
  (list_sum (map (fun m => S (size (snd m))) members) <= S (length (properties members)))%nat.
Proof.
  induction 1 as [|[k x] rest Hx _ IH]; [cbn; lia|].
  rewrite list_sum_map_cons. cbn [snd] in *. destruct rest as [|m rest'].
  - change (properties [(k, x)]) with (quote k ++ chars ":" ++ print x ++ []).
    rewrite !length_app. cbn [map list_sum fold_right length]. lia.
  - change (properties ((k, x) :: m :: rest'))
      with (quote k ++ chars ":" ++ print x ++ chars "," ++ properties (m :: rest')).
    rewrite !length_app. cbn [chars list_ascii_of_string length]. lia.
Qed.

(** The text is at least as long as the reading is deep. *)
Lemma size_le_length v : (size v <= length (print v))%nat.
Proof.
  induction v as [| b | z | s | items IH | members IH] using value_ind'.
  - cbn. lia.
  - apply (print_nonempty (Bool b)).
  - apply (print_nonempty (Number z)).
  - apply (print_nonempty (Str s)).
  - rewrite print_Array, !length_app. cbn [size chars list_ascii_of_string length].
    pose proof (elements_length items IH). lia.
  - rewrite print_Object, !length_app. cbn [size chars list_ascii_of_string length].
    pose proof (properties_length members IH). lia.
Qed.

Lemma length_string_of_list_ascii l : String.length (string_of_list_ascii l) = length l.
Proof. induction l as [|c l IH]; [reflexivity|]. cbn. now rewrite IH. Qed.

(** [JSON.parse(JSON.stringify(v))] is [v]. *)
Lemma parse_stringify v : parse (stringify v) = Some v.
Proof.
  unfold parse, stringify, chars.
  rewrite length_string_of_list_ascii, list_ascii_of_string_of_list_ascii.
  rewrite <- (app_nil_r (print v)) at 2.
  rewrite parseValue_print; [reflexivity | apply size_le_length | exact I].
Qed.

Lemma stringify_nonempty v : String.eqb (stringify v) "" = false.
Proof.
  unfold stringify. destruct (print_head v) as (c & cs & -> & _). reflexivity.
Qed.

End JsonFacts.

(** ** The tree as a JSON value *)

Lemma mapM_map_Some {A B} (f : B -> option A) (g : A -> B) (l : list A) :
  Forall (fun x => f (g x) = Some x) l -> mapM f (map g l) = Some l.
Proof.
  induction 1 as [|x rest Hx _ IH]; [reflexivity|].
  cbn. rewrite Hx. cbn. rewrite IH. reflexivity.
Qed.

Lemma contentFromJson_contentToJson item : contentFromJson (contentToJson item) = Some item.
Proof. destruct item; reflexivity. Qed.

Lemma taskFromJson_taskToJson_forest tasks :
  Forall (fun x => taskFromJson (taskToJson x) = Some x) tasks.
Proof.
  induction tasks as [|y rest IHsub IHrest] using forest_ind; constructor; [|exact IHrest].
  destruct y as [i t d du p tg subs c]. cbn [Task.subtasks] in IHsub.
  cbn -[mapM].
  rewrite (mapM_map_Some _ Json.Str tg) by (apply Forall_forall; reflexivity).
  cbn [mbind option_bind].
  rewrite (mapM_map_Some contentFromJson contentToJson c)
    by (apply Forall_forall; intros; apply contentFromJson_contentToJson).
  cbn [mbind option_bind].
  assert (Hall : forall l, Forall (fun x => taskFromJson (taskToJson x) = Some x) l ->
            (fix all (xs : list Json.value) : option (list Task.t) :=
               match xs with
               | [] => Some []
               | y :: ys =>
                   match taskFromJson y, all ys with
                   | Some y', Some ys' => Some (y' :: ys')
                   | _, _ => None
                   end
               end) (map taskToJson l) = Some l).
  { induction 1 as [|x l Hx _ IH]; [reflexivity|]. cbn [map]. rewrite Hx, IH. reflexivity. }
  rewrite (Hall subs IHsub). reflexivity.
Qed.

Lemma boardsFromJson_boardsToJson boards : boardsFromJson (boardsToJson boards) = Some boards.
Proof.
  unfold boardsFromJson, boardsToJson. apply mapM_map_Some.
  apply Forall_forall. intros [i t c o ts] _.
  cbn -[mapM]. rewrite (mapM_map_Some taskFromJson taskToJson ts)
    by apply taskFromJson_taskToJson_forest.
  reflexivity.
Qed.

(** ** Saving and loading *)

(** C8.  When the save is accepted by [localStorage], loading under the
    same key gives back the value that was saved, and that value determines
    the tree, field by field. *)
Theorem load_after_save
    (fits : gmap string string -> string -> string -> bool)
    (localStorage localStorage' : gmap string string) (key : string)
    (boards : list Board.t) :
  saveToLocalStorage fits localStorage key (boardsToJson boards) = (localStorage', true) ->
  loadFromLocalStorage localStorage' key = Some (boardsToJson boards) /\
  boardsFromJson (boardsToJson boards) = Some boards.
Proof.
  unfold saveToLocalStorage, loadFromLocalStorage.
  destruct (fits _ _ _); [|discriminate]. intros [= <-].
  rewrite lookup_insert_eq, JsonFacts.stringify_nonempty, JsonFacts.parse_stringify.
  split; [reflexivity | apply boardsFromJson_boardsToJson].
Qed.

(** A save that [localStorage] refuses reports [false] and stores nothing. *)
Lemma save_refused fits localStorage key data :
  fits localStorage key (Json.stringify data) = false ->
  saveToLocalStorage fits localStorage key data = (localStorage, false).
Proof. intros H. unfold saveToLocalStorage. now rewrite H. Qed.

(** What is stored under the key but is not JSON loads as [null]. *)
Lemma load_corrupt localStorage key item :
  localStorage !! key = Some item -> Json.parse item = None ->
  loadFromLocalStorage localStorage key = None.
Proof.
  intros Hitem Hparse. unfold loadFromLocalStorage. rewrite Hitem, Hparse.
  destruct (String.eqb item ""); reflexivity.
Qed.

Lemma load_after_save_witness :
  loadFromLocalStorage
    (<["kanbanBoards" := Json.stringify (boardsToJson defaultBoards)]> ∅) "kanbanBoards"
  = Some (boardsToJson defaultBoards) /\
  boardsFromJson (boardsToJson defaultBoards) = Some defaultBoards.
Proof.
  apply (load_after_save (fun _ _ _ => true) ∅ _ "kanbanBoards" defaultBoards).
  reflexivity.
Defined.

(** ** The two layers agree

    On a well-formed state every handler of the store layer denotes the
    tree that the handler of the value layer computes from the tree the
    state denotes. *)

Lemma omap_lookup_valid (sigma : list Board.t) (refs : list nat) k :
  Forall (fun r => (r < length sigma)%nat) refs ->
  omap (fun r : nat => sigma !! r) refs !! k = refs !! k ≫= (fun r => sigma !! r).
Proof.
  intros H. revert k. induction H as [|r rest Hr _ IH]; intros k; [reflexivity|].
  destruct (lookup_lt_is_Some_2 sigma r Hr) as [b Hb].
  cbn [omap list_omap]. rewrite Hb. destruct k as [|k]; cbn.
  - now rewrite Hb.
  - apply IH.
Qed.

Lemma omap_length_valid (sigma : list Board.t) (refs : list nat) :
  Forall (fun r => (r < length sigma)%nat) refs ->
  length (omap (fun r : nat => sigma !! r) refs) = length refs.
Proof.
  induction 1 as [|r rest Hr _ IH]; [reflexivity|].
  destruct (lookup_lt_is_Some_2 sigma r Hr) as [b Hb].
  cbn [omap list_omap]. rewrite Hb. cbn. now rewrite IH.
Qed.

Lemma findIndex_view (sigma : list Board.t) (refs : list nat) boardId :
  Forall (fun r => (r < length sigma)%nat) refs ->
  Js.findIndex (fun b => String.eqb (Board.id b) boardId)
    (omap (fun r : nat => sigma !! r) refs)
  = Js.findIndex (Shared.idIs sigma boardId) refs.
Proof.
  induction 1 as [|r rest Hr _ IH]; [reflexivity|].
  destruct (lookup_lt_is_Some_2 sigma r Hr) as [b Hb].
  cbn [omap list_omap Js.findIndex]. unfold Shared.idIs at 1. rewrite Hb.
  cbn [Js.findIndex]. now rewrite IH.
Qed.

Lemma view_alter (sigma : list Board.t) (refs : list nat) (g : Board.t -> Board.t) i r :
  List.NoDup refs -> Forall (fun r => (r < length sigma)%nat) refs ->
  refs !! i = Some r ->
  omap (fun r' : nat => alter g r sigma !! r') refs
  = alter g i (omap (fun r' : nat => sigma !! r') refs).
Proof.
  intros Hnd Hv Hr. apply list_eq. intros k.
  rewrite omap_lookup_valid by (now rewrite length_alter).
  rewrite list_lookup_alter, !omap_lookup_valid by assumption.
  destruct (decide (i = k)) as [<-|Hik].
  - rewrite Hr. cbn. rewrite list_lookup_alter, decide_True by reflexivity. reflexivity.
  - destruct (refs !! k) as [r'|] eqn:Hk; cbn; [|reflexivity].
    rewrite list_lookup_alter, decide_False; [reflexivity|].
    intros ->. apply Hik. apply NoDup_ListNoDup in Hnd.
    now apply (NoDup_lookup refs i k r').
Qed.

Lemma view_onBoard s boardId write :
  Shared.wellFormed s ->
  Shared.view (Shared.onBoard s boardId write) = onBoard (Shared.view s) boardId write.
Proof.
  intros [Hnd Hv]. unfold Shared.onBoard, onBoard, Shared.view.
  rewrite findIndex_view by assumption.
  destruct (Js.findIndex _ (Shared.boards s)) as [i|] eqn:Hi; [|reflexivity].
  destruct (findIndex_Some _ _ _ Hi) as (r & Hr & _). rewrite Hr.
  cbn [Shared.heap Shared.boards]. now apply view_alter.
Qed.

Lemma view_updateBoardTitle s boardId newTitle :
  Shared.wellFormed s ->
  Shared.view (Shared.updateBoardTitle s boardId newTitle)
  = updateBoardTitle (Shared.view s) boardId newTitle.
Proof.
  intros [Hnd Hv]. unfold Shared.updateBoardTitle, updateBoardTitle, Shared.view.
  rewrite findIndex_view by assumption.
  destruct (Js.findIndex _ (Shared.boards s)) as [i|] eqn:Hi; [|reflexivity].
  destruct (findIndex_Some _ _ _ Hi) as (r & Hr & _). rewrite Hr.
  cbn [Shared.heap Shared.boards]. now apply view_alter.
Qed.

Lemma view_deleteBoard s confirmed boardId :
  Shared.wellFormed s ->
  Shared.view (Shared.deleteBoard s confirmed boardId)
  = deleteBoard (Shared.view s) confirmed boardId.
Proof.
  intros [_ Hv]. unfold Shared.deleteBoard, deleteBoard, Shared.view.
  destruct confirmed; [|reflexivity]. cbn [Shared.heap Shared.boards].
  induction Hv as [|r rest Hr _ IH]; [reflexivity|].
  destruct (lookup_lt_is_Some_2 (Shared.heap s) r Hr) as [b Hb].
  cbn [List.filter omap list_omap]. unfold Shared.idIs at 1. rewrite Hb.
  cbn [List.filter].
  destruct (negb (String.eqb (Board.id b) boardId)); cbn [omap list_omap];
    rewrite ?Hb, IH; reflexivity.
Qed.

Lemma view_append (sigma extra : list Board.t) (refs : list nat) :
  Forall (fun r => (r < length sigma)%nat) refs ->
  omap (fun r : nat => (sigma ++ extra) !! r) refs = omap (fun r : nat => sigma !! r) refs.
Proof.
  induction 1 as [|r rest Hr _ IH]; [reflexivity|].
  cbn [omap list_omap]. rewrite lookup_app_l, IH by assumption. reflexivity.
Qed.

Lemma view_fresh (sigma extra : list Board.t) :
  omap (fun r : nat => (sigma ++ extra) !! r) (seq (length sigma) (length extra)) = extra.
Proof.
  revert sigma. induction extra as [|b rest IH]; intros sigma; [reflexivity|].
  cbn [length seq omap list_omap].
  rewrite (list_lookup_middle sigma rest b (length sigma) eq_refl).
  f_equal. specialize (IH (sigma ++ [b])).
  rewrite <- app_assoc, length_app in IH. cbn [length app] in IH.
  rewrite Nat.add_1_r in IH. exact IH.
Qed.

Lemma view_addNewBoard s pick stamp :
  Shared.wellFormed s ->
  Shared.view (Shared.addNewBoard s pick stamp) = addNewBoard (Shared.view s) pick stamp.
Proof.
  intros [_ Hv]. unfold Shared.addNewBoard, addNewBoard, Shared.view.
  cbn [Shared.heap Shared.boards].
  rewrite omap_app, view_append, omap_length_valid by assumption.
  f_equal. cbn [omap list_omap].
  now rewrite (list_lookup_middle (Shared.heap s) [] _ (length (Shared.heap s)) eq_refl).
Qed.

Lemma view_handleTaskDrop s dragging jsonData targetBoardId targetTaskId :
  Shared.view (Shared.handleTaskDrop s dragging jsonData targetBoardId targetTaskId)
  = handleTaskDrop (Shared.view s) dragging jsonData targetBoardId targetTaskId.
Proof.
  unfold Shared.handleTaskDrop, handleTaskDrop.
  destruct (handleTaskDrop_body _ _ _ _ _) as [newBoards|]; [|reflexivity].
  unfold Shared.view at 1. cbn [Shared.heap Shared.boards commit]. apply view_fresh.
Qed.

Lemma view_deref (sigma : list Board.t) (refs : list nat) :
  Forall (fun r => (r < length sigma)%nat) refs ->
  omap (fun r : nat => sigma !! r) refs = Shared.deref sigma <$> refs.
Proof.
  induction 1 as [|r rest Hr _ IH]; [reflexivity|].
  destruct (lookup_lt_is_Some_2 sigma r Hr) as [b Hb].
  cbn [omap list_omap fmap list_fmap]. unfold Shared.deref at 1. rewrite Hb, IH. reflexivity.
Qed.

Lemma forEachSetOrder_length sigma entries :
  length (fold_left (fun acc (entry : nat * nat) =>
                       alter (fun board => Board.setOrder board (Z.of_nat (fst entry)))
                             (snd entry) acc)
                    entries sigma)
  = length sigma.
Proof.
  revert sigma. induction entries as [|e rest IH]; intros sigma; [reflexivity|].
  cbn [fold_left]. now rewrite IH, length_alter.
Qed.

(** After the [forEach], an object of the array carries its position, and
    an object outside the array is as before. *)
Lemma forEachSetOrder_lookup (newBoards : list nat) :
  forall off (sigma : list Board.t) r,
    List.NoDup newBoards ->
    let result :=
      fold_left (fun acc (entry : nat * nat) =>
                   alter (fun board => Board.setOrder board (Z.of_nat (fst entry)))
                         (snd entry) acc)
                (imap (fun index r => ((off + index)%nat, r)) newBoards) sigma in
    (forall k, newBoards !! k = Some r ->
               result !! r
               = (fun b => Board.setOrder b (Z.of_nat (off + k))) <$> sigma !! r) /\
    (~ In r newBoards -> result !! r = sigma !! r).
Proof.
  induction newBoards as [|x rest IH]; intros off sigma r Hnd result.
  - split; [intros k; discriminate | reflexivity].
  - apply NoDup_cons_iff in Hnd as [Hx Hnd].
    subst result. rewrite imap_cons. cbn [fold_left fst snd].
    rewrite (imap_ext _ (fun index r => ((S off + index)%nat, r)))
      by (intros; cbn; f_equal; lia).
    destruct (IH (S off)
                (alter (fun board => Board.setOrder board (Z.of_nat (off + 0))) x sigma)
                r Hnd) as [Hin Hout].
    split.
    + intros [|k] Hk.
      * injection Hk as ->. rewrite (Hout Hx), list_lookup_alter, decide_True by reflexivity.
        reflexivity.
      * cbn in Hk. rewrite (Hin k Hk), list_lookup_alter_ne.
        -- replace (off + S k)%nat with (S off + k)%nat by lia. reflexivity.
        -- intros ->. apply Hx. eapply list_elem_of_In, list_elem_of_lookup_2, Hk.
    + intros Hr. rewrite Hout by (intros H; apply Hr; now right).
      apply list_lookup_alter_ne. intros ->. apply Hr. now left.
Qed.

Lemma view_forEachSetOrder (sigma : list Board.t) (newBoards : list nat) :
  List.NoDup newBoards -> Forall (fun r => (r < length sigma)%nat) newBoards ->
  omap (fun r : nat => Shared.forEachSetOrder sigma newBoards !! r) newBoards
  = imap (fun index board => Board.setOrder board (Z.of_nat index))
         (omap (fun r : nat => sigma !! r) newBoards).
Proof.
  intros Hnd Hv. apply list_eq. intros k.
  unfold Shared.forEachSetOrder.
  rewrite omap_lookup_valid by (now rewrite forEachSetOrder_length).
  rewrite list_lookup_imap, omap_lookup_valid by assumption.
  destruct (newBoards !! k) as [r|] eqn:Hk; [|reflexivity]. cbn.
  destruct (forEachSetOrder_lookup newBoards 0 sigma r Hnd) as [Hin _].
  cbn in Hin. rewrite (Hin k Hk). reflexivity.
Qed.

Lemma view_handleBoardDrop s draggingBoard sourceBoardId targetBoardId :
  Shared.wellFormed s ->
  Shared.view (Shared.handleBoardDrop s draggingBoard sourceBoardId targetBoardId)
  = handleBoardDrop (Shared.view s) draggingBoard sourceBoardId targetBoardId.
Proof.
  intros [Hnd Hv]. unfold Shared.handleBoardDrop, handleBoardDrop, handleBoardDrop_body.
  destruct (negb _); [reflexivity|]. destruct (_ || _); [reflexivity|].
  unfold Shared.view. rewrite !findIndex_view by assumption.
  destruct (Js.findIndex (Shared.idIs _ sourceBoardId) _) as [i|] eqn:Hi; [|reflexivity].
  destruct (Js.findIndex (Shared.idIs _ targetBoardId) _) as [j|] eqn:Hj; [|reflexivity].
  destruct (findIndex_Some _ _ _ Hi) as (r & Hr & _).
  pose proof (findIndex_lt _ _ _ Hj) as Hjlt.
  pose proof (lookup_lt_Some _ _ _ Hr) as Hilt.
  assert (Hlen : length (delete i (Shared.boards s)) = (length (Shared.boards s) - 1)%nat)
    by (apply length_delete; eauto).
  rewrite (splice_remove _ _ _ Hr), splice_insert by lia.
  set (newBoards := take j (delete i (Shared.boards s))
                    ++ r :: drop j (delete i (Shared.boards s))).
  assert (Hperm : Permutation newBoards (Shared.boards s)).
  { unfold newBoards. rewrite <- Permutation_middle, take_drop.
    symmetry. now apply delete_Permutation. }
  assert (Hnd' : List.NoDup newBoards).
  { apply NoDup_ListNoDup. rewrite Hperm. now apply NoDup_ListNoDup. }
  assert (Hv' : Forall (fun r => (r < length (Shared.heap s))%nat) newBoards)
    by (now rewrite Hperm).
  cbn [Shared.heap Shared.boards].
  rewrite view_forEachSetOrder by assumption.
  rewrite (view_deref _ _ Hv'), (view_deref _ _ Hv).
  assert (Hb : (Shared.deref (Shared.heap s) <$> Shared.boards s) !! i
               = Some (Shared.deref (Shared.heap s) r))
    by (now rewrite list_lookup_fmap, Hr).
  rewrite (splice_remove _ _ _ Hb), splice_insert
    by (rewrite length_delete, length_fmap by eauto; lia).
  cbn [commit]. f_equal. unfold newBoards.
  now rewrite fmap_app, fmap_cons, fmap_take, fmap_drop, list_fmap_delete.
Qed.

Lemma view_insert (sigma : list Board.t) (refs : list nat) i r b :
  List.NoDup refs -> Forall (fun r => (r < length sigma)%nat) refs ->
  refs !! i = Some r ->
  omap (fun r' : nat => <[r := b]> sigma !! r') refs
  = <[i := b]> (omap (fun r' : nat => sigma !! r') refs).
Proof.
  intros Hnd Hv Hr. apply list_eq. intros k.
  pose proof (lookup_lt_Some _ _ _ Hr) as Hi.
  rewrite omap_lookup_valid by (now rewrite length_insert).
  destruct (decide (i = k)) as [<-|Hik].
  - rewrite Hr, list_lookup_insert_eq by (now rewrite omap_length_valid). cbn.
    apply list_lookup_insert_eq. exact (Forall_lookup_1 _ _ _ _ Hv Hr).
  - rewrite list_lookup_insert_ne, omap_lookup_valid by assumption.
    destruct (refs !! k) as [r'|] eqn:Hk; cbn; [|reflexivity].
    apply list_lookup_insert_ne. intros ->. apply Hik.
    apply NoDup_ListNoDup in Hnd. now apply (NoDup_lookup refs i k r').
Qed.

Lemma view_contentItem_onChange s boardId taskId index value :
  Shared.wellFormed s ->
  match Shared.contentItem_onChange s boardId taskId index value with
  | Js.Normal s' =>
      contentItem_onChange (Shared.view s) boardId taskId index value
      = Js.Normal (Shared.view s')
  | Js.TypeError =>
      contentItem_onChange (Shared.view s) boardId taskId index value = Js.TypeError
  end.
Proof.
  intros [Hnd Hv]. unfold Shared.contentItem_onChange, contentItem_onChange, Shared.view.
  rewrite findIndex_view by assumption.
  destruct (Js.findIndex _ (Shared.boards s)) as [i|] eqn:Hi; [|reflexivity].
  destruct (findIndex_Some _ _ _ Hi) as (r & Hr & _). rewrite Hr.
  rewrite omap_lookup_valid, Hr by assumption. cbn [mbind option_bind].
  destruct (Shared.heap s !! r) as [board|]; [|reflexivity].
  destruct (updateTaskContent _ _ _ _) as [[found tasks]|]; [|reflexivity].
  cbn [Shared.heap Shared.boards]. f_equal. symmetry. now apply view_insert.
Qed.

(** ** Well-formed states stay well-formed *)

Lemma wellFormed_defaultState : Shared.wellFormed Shared.defaultState.
Proof.
  split.
  - repeat constructor; cbn; intuition discriminate.
  - repeat constructor; cbn; lia.
Qed.

Lemma wellFormed_same_array s sigma :
  Shared.wellFormed s -> length sigma = length (Shared.heap s) ->
  Shared.wellFormed (Shared.mkState sigma (Shared.boards s)).
Proof.
  intros [Hnd Hv] Hlen. split; [exact Hnd|]. cbn [Shared.heap Shared.boards].
  now rewrite Hlen.
Qed.

Lemma wellFormed_onBoard s boardId write :
  Shared.wellFormed s -> Shared.wellFormed (Shared.onBoard s boardId write).
Proof.
  intros Hwf. unfold Shared.onBoard.
  destruct (Js.findIndex _ _) as [i|]; [|destruct s; exact Hwf].
  destruct (Shared.boards s !! i) as [r|]; [|destruct s; exact Hwf].
  apply wellFormed_same_array; [exact Hwf | apply length_alter].
Qed.

Lemma wellFormed_updateBoardTitle s boardId newTitle :
  Shared.wellFormed s -> Shared.wellFormed (Shared.updateBoardTitle s boardId newTitle).
Proof.
  intros Hwf. unfold Shared.updateBoardTitle.
  destruct (Js.findIndex _ _) as [i|]; [|destruct s; exact Hwf].
  destruct (Shared.boards s !! i) as [r|]; [|destruct s; exact Hwf].
  apply wellFormed_same_array; [exact Hwf | apply length_alter].
Qed.

Lemma wellFormed_contentItem_onChange s boardId taskId index value :
  Shared.wellFormed s ->
  Shared.wellFormed
    (Shared.settle s (Shared.contentItem_onChange s boardId taskId index value)).
Proof.
  intros Hwf. unfold Shared.contentItem_onChange.
  destruct (Js.findIndex _ _) as [i|]; [|destruct s; exact Hwf].
  destruct (Shared.boards s !! i) as [r|]; [|destruct s; exact Hwf].
  destruct (Shared.heap s !! r) as [board|]; [|destruct s; exact Hwf].
  destruct (updateTaskContent _ _ _ _) as [[found tasks]|]; [|exact Hwf].
  apply wellFormed_same_array; [exact Hwf | apply length_insert].
Qed.

Lemma wellFormed_deleteBoard s confirmed boardId :
  Shared.wellFormed s -> Shared.wellFormed (Shared.deleteBoard s confirmed boardId).
Proof.
  intros [Hnd Hv]. unfold Shared.deleteBoard. destruct confirmed; [|now split].
  split; cbn [Shared.heap Shared.boards].
  - now apply List.NoDup_filter.
  - apply Forall_forall. intros r Hr. apply list_elem_of_In, filter_In in Hr as [Hr _].
    apply (proj1 (Forall_forall _ _) Hv). now apply list_elem_of_In.
Qed.

Lemma wellFormed_addNewBoard s pick stamp :
  Shared.wellFormed s -> Shared.wellFormed (Shared.addNewBoard s pick stamp).
Proof.
  intros [Hnd Hv]. split; cbn [Shared.addNewBoard Shared.heap Shared.boards].
  - apply NoDup_ListNoDup, NoDup_app. split; [now apply NoDup_ListNoDup|]. split.
    + intros r Hr Hnew. apply list_elem_of_singleton in Hnew as ->.
      apply (proj1 (Forall_forall _ _) Hv) in Hr. lia.
    + apply NoDup_singleton.
  - rewrite length_app. cbn [length]. apply Forall_app. split.
    + eapply Forall_impl; [exact Hv|]. cbn. intros; lia.
    + repeat constructor. lia.
Qed.

Lemma wellFormed_handleTaskDrop s dragging jsonData targetBoardId targetTaskId :
  Shared.wellFormed s ->
  Shared.wellFormed (Shared.handleTaskDrop s dragging jsonData targetBoardId targetTaskId).
Proof.
  intros Hwf. unfold Shared.handleTaskDrop.
  destruct (handleTaskDrop_body _ _ _ _ _) as [newBoards|]; [|exact Hwf].
  split; cbn [Shared.heap Shared.boards].
  - apply List.seq_NoDup.
  - apply Forall_forall. intros r Hr. apply list_elem_of_In, in_seq in Hr.
    rewrite length_app. lia.
Qed.

Lemma wellFormed_handleBoardDrop s draggingBoard sourceBoardId targetBoardId :
  Shared.wellFormed s ->
  Shared.wellFormed (Shared.handleBoardDrop s draggingBoard sourceBoardId targetBoardId).
Proof.
  intros Hwf. pose proof Hwf as [Hnd Hv]. unfold Shared.handleBoardDrop.
  destruct (negb _); [exact Hwf|]. destruct (_ || _); [exact Hwf|].
  destruct (Js.findIndex (Shared.idIs _ sourceBoardId) _) as [i|] eqn:Hi; [|exact Hwf].
  destruct (Js.findIndex (Shared.idIs _ targetBoardId) _) as [j|] eqn:Hj; [|exact Hwf].
  destruct (findIndex_Some _ _ _ Hi) as (r & Hr & _).
  pose proof (findIndex_lt _ _ _ Hj) as Hjlt.
  assert (Hlen : length (delete i (Shared.boards s)) = (length (Shared.boards s) - 1)%nat)
    by (apply length_delete; eauto).
  rewrite (splice_remove _ _ _ Hr), splice_insert by lia.
  assert (Hperm : Permutation (take j (delete i (Shared.boards s))
                               ++ r :: drop j (delete i (Shared.boards s)))
                              (Shared.boards s)).
  { rewrite <- Permutation_middle, take_drop. symmetry. now apply delete_Permutation. }
  split; cbn [Shared.heap Shared.boards].
  - apply NoDup_ListNoDup. rewrite Hperm. now apply NoDup_ListNoDup.
  - unfold Shared.forEachSetOrder. rewrite forEachSetOrder_length, Hperm. exact Hv.
Qed.

(** ** The specification's scenarios on the default tree *)

Example scenario_add_update_reorder :
  let added := addNewTask defaultBoards "1700000000000" "board-2" in
  let updated := updateTaskPriority added "board-2" "task-1700000000000" "high" in
  let result := handleBoardDrop updated (Some "board-2") "board-2" "board-1" in
  map (fun b => (Board.id b, Board.order b)) result
  = [("board-2", 0); ("board-1", 1); ("board-3", 2)] /\
  map (fun b => map (fun x => (Task.id x, Task.priority x)) (Board.tasks b)) result
  = [[("task-1700000000000", "high")]; [("task-1", "high")]; []].
Proof. split; reflexivity. Qed.

Example scenario_move_onto_sibling :
  let b := addNewBoard [] 0 "1" in
  let t1 := addNewTask b "2" "board-1" in
  let t2 := addNewTask t1 "3" "board-1" in
  let result := handleTaskDrop t2 (Some (dragOf "board-1" "task-3"))
                  (Some (dragOf "board-1" "task-3")) "board-1" (Some "task-2") in
  map (fun b => map (fun x => (Task.id x, map Task.id (Task.subtasks x))) (Board.tasks b))
      result
  = [[("task-2", ["task-3"])]].
Proof. reflexivity. Qed.

Example scenario_deleteBoard_cascades :
  totalTasks nestedBoards = 5%nat /\
  allTaskIds (deleteBoard nestedBoards true "b1") = ["E"].
Proof. split; reflexivity. Qed.

(** * Further properties of the handlers *)

(** ** Writes at the located task: the nesting *)

Lemma outlineOf_eq y : outlineOf y = Node (Task.id y) (map outlineOf (Task.subtasks y)).
Proof. destruct y; reflexivity. Qed.

Lemma outlineOf_setSubtasks y subs :
  outlineOf (Task.setSubtasks y subs) = Node (Task.id y) (map outlineOf subs).
Proof. destruct y; reflexivity. Qed.

Lemma writeFirst_outline write targetId tasks :
  (forall y, outlineOf (write y) = outlineOf y) ->
  map outlineOf (snd (writeFirst write targetId tasks)) = map outlineOf tasks.
Proof.
  intros Hw. induction tasks as [|y rest IHsub IHrest] using forest_ind; [reflexivity|].
  rewrite writeFirst_cons.
  destruct (String.eqb (Task.id y) targetId); [cbn [snd map]; now rewrite Hw|].
  destruct (fst (writeFirst write targetId (Task.subtasks y))); cbn [snd map].
  - rewrite outlineOf_setSubtasks, IHsub, <- outlineOf_eq. reflexivity.
  - now rewrite IHrest.
Qed.

(** When [updateTaskContent] completes it has done what the shared loop
    does with the write of one content text. *)
Lemma updateTaskContent_Normal targetId index newText tasks :
  forall r tasks',
    updateTaskContent tasks targetId index newText = Js.Normal (r, tasks') ->
    writeFirst (fun x => match writeContentText x index newText with
                         | Js.Normal x' => x'
                         | Js.TypeError => x
                         end) targetId tasks = (r, tasks').
Proof.
  induction tasks as [|y rest IHsub IHrest] using forest_ind; intros r tasks'.
  - cbn. now intros [= <- <-].
  - rewrite writeFirst_cons. simpl updateTaskContent.
    destruct (String.eqb (Task.id y) targetId).
    + destruct (writeContentText y index newText); [|discriminate]. now intros [= <- <-].
    + rewrite updateTaskContent_sub_eq.
      destruct (updateTaskContent (Task.subtasks y) targetId index newText)
        as [[[|] subs']|] eqn:Hsub; [| |discriminate].
      * rewrite (IHsub _ _ eq_refl). cbn [fst snd]. now intros [= <- <-].
      * rewrite (IHsub _ _ eq_refl). cbn [fst snd].
        destruct (updateTaskContent rest targetId index newText) as [[r' rest']|] eqn:Hrest;
          [|discriminate].
        rewrite (IHrest _ _ eq_refl). cbn [fst snd]. now intros [= <- <-].
Qed.

Lemma outlineOf_writeContentText x index newText :
  outlineOf (match writeContentText x index newText with
             | Js.Normal x' => x'
             | Js.TypeError => x
             end) = outlineOf x.
Proof.
  unfold writeContentText. destruct (Js.get (Task.content x) index); [|reflexivity].
  destruct x; reflexivity.
Qed.

Lemma boardOutline_alter boards i (write : list Task.t -> list Task.t) :
  (forall tasks, map outlineOf (write tasks) = map outlineOf tasks) ->
  map boardOutline (alter (fun b => Board.setTasks b (write (Board.tasks b))) i boards)
  = map boardOutline boards.
Proof.
  intros Hw. revert i. induction boards as [|b rest IH]; intros [|i]; try reflexivity.
  - cbn. unfold boardOutline at 1 3. cbn. now rewrite Hw.
  - cbn. f_equal. apply IH.
Qed.

Lemma onBoard_outline boards boardId write :
  (forall tasks, map outlineOf (write tasks) = map outlineOf tasks) ->
  map boardOutline (onBoard boards boardId write) = map boardOutline boards.
Proof.
  intros Hw. unfold onBoard.
  destruct (Js.findIndex _ boards); [now apply boardOutline_alter | reflexivity].
Qed.

(** X1.  The handlers that edit a field or the content of a task keep the
    nesting of the whole tree: the same boards with the same task ids, every
    task under the same parent and at the same place among its siblings.
    An edit never adds, drops, moves or renames a task. *)
Theorem edits_keep_nesting (boards : list Board.t) :
  (forall boardId taskId newTitle,
      map boardOutline (updateTaskTitle boards boardId taskId newTitle)
      = map boardOutline boards) /\
  (forall boardId taskId value,
      map boardOutline (taskTitle_onChange boards boardId taskId value)
      = map boardOutline boards) /\
  (forall boardId taskId value,
      map boardOutline (description_onChange boards boardId taskId value)
      = map boardOutline boards) /\
  (forall boardId taskId priority,
      map boardOutline (updateTaskPriority boards boardId taskId priority)
      = map boardOutline boards) /\
  (forall taskId boardId date,
      map boardOutline (setDueDate boards taskId boardId date) = map boardOutline boards) /\
  (forall taskId boardId type,
      map boardOutline (addContentItem boards taskId boardId type)
      = map boardOutline boards) /\
  (forall taskId boardId contentIndex,
      map boardOutline (deleteContentItem boards taskId boardId contentIndex)
      = map boardOutline boards) /\
  (forall boardId taskId index value,
      map boardOutline (settle boards (contentItem_onChange boards boardId taskId index value))
      = map boardOutline boards).
Proof.
  repeat match goal with |- _ /\ _ => split end;
    try (intros; apply onBoard_outline; intros tasks; apply writeFirst_outline;
         intros y; destruct y; reflexivity).
  intros bId taskId index value. unfold contentItem_onChange.
  destruct (Js.findIndex _ boards) as [i|] eqn:Hi; [|reflexivity].
  destruct (boards !! i) as [b|] eqn:Hb; [|reflexivity].
  destruct (updateTaskContent (Board.tasks b) taskId index value) as [[r tasks']|] eqn:Hu;
    [|reflexivity].
  cbn [settle]. apply updateTaskContent_Normal in Hu.
  rewrite <- (list_insert_id boards i b Hb) at 2.
  rewrite !list_fmap_insert. f_equal. unfold boardOutline. cbn. f_equal.
  change tasks' with (snd (r, tasks')). rewrite <- Hu.
  apply writeFirst_outline. intros y. apply outlineOf_writeContentText.
Qed.

(** ** Writes at the located task: what is read afterwards *)

Lemma writeFirst_fst w w' targetId tasks :
  fst (writeFirst w targetId tasks) = fst (writeFirst w' targetId tasks).
Proof.
  pose proof (writeFirst_spec w targetId tasks) as H1.
  pose proof (writeFirst_spec w' targetId tasks) as H2.
  destruct (locate tasks targetId).
  - destruct H1 as [-> _], H2 as [-> _]. reflexivity.
  - now rewrite H1, H2.
Qed.

Lemma ownFields_setSubtasks y subs : ownFields (Task.setSubtasks y subs) = ownFields y.
Proof. destruct y; reflexivity. Qed.

(** A write at one id leaves the fields of the task located by any other
    id as they were. *)
Lemma locate_writeFirst_other write targetId other tasks :
  (forall y, Task.id (write y) = Task.id y) ->
  (forall y, Task.subtasks (write y) = Task.subtasks y) ->
  other <> targetId ->
  option_map ownFields (locate (snd (writeFirst write targetId tasks)) other)
  = option_map ownFields (locate tasks other).
Proof.
  intros Hid Hsubs Hne.
  induction tasks as [|y rest IHsub IHrest] using forest_ind; [reflexivity|].
  rewrite writeFirst_cons.
  destruct (String.eqb_spec (Task.id y) targetId) as [Hy|Hy].
  - cbn [snd]. rewrite !locate_cons, Hid, Hsubs.
    destruct (String.eqb_spec (Task.id y) other) as [Ho|_]; [congruence | reflexivity].
  - destruct (fst (writeFirst write targetId (Task.subtasks y))); cbn [snd].
    + rewrite locate_setSubtasks, locate_cons.
      destruct (String.eqb (Task.id y) other).
      * cbn. now rewrite ownFields_setSubtasks.
      * destruct (locate (snd (writeFirst write targetId (Task.subtasks y))) other),
                 (locate (Task.subtasks y) other); cbn in IHsub; try discriminate;
          [exact IHsub | reflexivity].
    + rewrite !locate_cons. destruct (String.eqb (Task.id y) other); [reflexivity|].
      destruct (locate (Task.subtasks y) other); [reflexivity | exact IHrest].
Qed.

Lemma onBoard_writeFirst_read_back boards bId tId write i b x :
  (forall y, Task.id (write y) = Task.id y) ->
  (forall y, Task.subtasks (write y) = Task.subtasks y) ->
  Js.findIndex (fun board => String.eqb (Board.id board) bId) boards = Some i ->
  boards !! i = Some b ->
  locate (Board.tasks b) tId = Some x ->
  exists b',
    onBoard boards bId (fun tasks => snd (writeFirst write tId tasks)) !! i = Some b' /\
    locate (Board.tasks b') tId = Some (write x) /\
    (forall other, other <> tId ->
       option_map ownFields (locate (Board.tasks b') other)
       = option_map ownFields (locate (Board.tasks b) other)) /\
    (forall j, j <> i ->
       onBoard boards bId (fun tasks => snd (writeFirst write tId tasks)) !! j = boards !! j).
Proof.
  intros Hid Hsubs Hi Hb Hx.
  rewrite (onBoard_found _ _ _ _ _ Hi Hb).
  eexists. split; [apply list_lookup_insert_eq; eapply lookup_lt_Some; eassumption|].
  cbn [Board.tasks Board.setTasks]. split; [|split].
  - pose proof (writeFirst_spec write tId (Board.tasks b)) as Hs. rewrite Hx in Hs.
    destruct Hs as (_ & _ & Hloc). now apply Hloc.
  - intros other Ho. now apply locate_writeFirst_other.
  - intros j Hj. now apply list_lookup_insert_ne.
Qed.

(** X2.  Read after write.  When the board is found and the task is located
    in it, each field editor leaves the located task with the new value in
    that field (and [addContentItem] with the new item last in its content),
    the fields of every task located by another id as they were, and every
    other board untouched. *)
Theorem field_edits_read_back
    (boards : list Board.t) (bId tId : string) (i : nat) (b : Board.t) (x : Task.t) :
  Js.findIndex (fun board => String.eqb (Board.id board) bId) boards = Some i ->
  boards !! i = Some b ->
  locate (Board.tasks b) tId = Some x ->
  let readsBack (after : list Board.t) (x' : Task.t) :=
    exists b',
      after !! i = Some b' /\
      locate (Board.tasks b') tId = Some x' /\
      (forall other, other <> tId ->
         option_map ownFields (locate (Board.tasks b') other)
         = option_map ownFields (locate (Board.tasks b) other)) /\
      (forall j, j <> i -> after !! j = boards !! j) in
  (forall v, readsBack (updateTaskTitle boards bId tId v) (Task.setTitle x v)) /\
  (forall v, readsBack (taskTitle_onChange boards bId tId v) (Task.setTitle x v)) /\
  (forall v, readsBack (description_onChange boards bId tId v) (Task.setDescription x v)) /\
  (forall v, readsBack (updateTaskPriority boards bId tId v) (Task.setPriority x v)) /\
  (forall v, readsBack (setDueDate boards tId bId v) (Task.setDueDate x v)) /\
  (forall ty, readsBack (addContentItem boards tId bId ty)
                (Task.setContent x
                   (Task.content x ++
                    [mkContentItem ty (if String.eqb ty "bullet" then "New bullet point"
                                       else "New numbered item")]))).
Proof.
  intros Hi Hb Hx readsBack. unfold readsBack.
  assert (Hgen : forall write,
             (forall y, Task.id (write y) = Task.id y) ->
             (forall y, Task.subtasks (write y) = Task.subtasks y) ->
             exists b',
               onBoard boards bId (fun tasks => snd (writeFirst write tId tasks)) !! i
               = Some b' /\
               locate (Board.tasks b') tId = Some (write x) /\
               (forall other, other <> tId ->
                  option_map ownFields (locate (Board.tasks b') other)
                  = option_map ownFields (locate (Board.tasks b) other)) /\
               (forall j, j <> i ->
                  onBoard boards bId (fun tasks => snd (writeFirst write tId tasks)) !! j
                  = boards !! j)).
  { intros write Hid Hsubs. now apply onBoard_writeFirst_read_back. }
  split; [intros v; apply (Hgen (fun y => Task.setTitle y v)); intros []; reflexivity|].
  split; [intros v; apply (Hgen (fun y => Task.setTitle y v)); intros []; reflexivity|].
  split; [intros v; apply (Hgen (fun y => Task.setDescription y v)); intros []; reflexivity|].
  split; [intros v; apply (Hgen (fun y => Task.setPriority y v)); intros []; reflexivity|].
  split; [intros v; apply (Hgen (fun y => Task.setDueDate y v)); intros []; reflexivity|].
  intros ty.
  apply (Hgen (fun y => Task.setContent y
                 (Js.push (Task.content y)
                    (mkContentItem ty (if String.eqb ty "bullet" then "New bullet point"
                                       else "New numbered item")))));
    intros []; reflexivity.
Qed.

Lemma field_edits_read_back_witness :
  exists b',
    updateTaskPriority nestedBoards "b1" "C" "low" !! 0%nat = Some b' /\
    locate (Board.tasks b') "C" = Some (Task.setPriority taskC "low") /\
    (forall other, other <> "C" ->
       option_map ownFields (locate (Board.tasks b') other)
       = option_map ownFields (locate [taskA] other)) /\
    (forall j, j <> 0%nat ->
       updateTaskPriority nestedBoards "b1" "C" "low" !! j = nestedBoards !! j).
Proof.
  destruct (field_edits_read_back nestedBoards "b1" "C" 0
              (Board.mk "b1" "To Do" "bg-red-500" 0 [taskA]) taskC)
    as (_ & _ & _ & H & _); [reflexivity | reflexivity | reflexivity |].
  exact (H "low").
Defined.

(** ** Two writes in a row *)

Lemma id_setSubtasks y subs : Task.id (Task.setSubtasks y subs) = Task.id y.
Proof. destruct y; reflexivity. Qed.

Lemma subtasks_setSubtasks y subs : Task.subtasks (Task.setSubtasks y subs) = subs.
Proof. destruct y; reflexivity. Qed.

Lemma setSubtasks_twice y subs subs' :
  Task.setSubtasks (Task.setSubtasks y subs) subs' = Task.setSubtasks y subs'.
Proof. destruct y; reflexivity. Qed.

(** The second write at the same id reaches the task the first one
    reached. *)
Lemma writeFirst_twice w1 w2 w12 targetId tasks :
  (forall y, Task.id (w1 y) = Task.id y) ->
  (forall y, w12 y = w2 (w1 y)) ->
  writeFirst w2 targetId (snd (writeFirst w1 targetId tasks)) = writeFirst w12 targetId tasks.
Proof.
  intros Hid H12.
  induction tasks as [|y rest IHsub IHrest] using forest_ind; [reflexivity|].
  rewrite (writeFirst_cons w1), (writeFirst_cons w12).
  destruct (String.eqb (Task.id y) targetId) eqn:Hy.
  - cbn [snd]. now rewrite writeFirst_cons, Hid, Hy, H12.
  - rewrite (writeFirst_fst w12 w1).
    destruct (fst (writeFirst w1 targetId (Task.subtasks y))) eqn:Hf; cbn [snd].
    + rewrite writeFirst_cons, id_setSubtasks, Hy, subtasks_setSubtasks, IHsub.
      rewrite (writeFirst_fst w12 w1), Hf, setSubtasks_twice. reflexivity.
    + rewrite writeFirst_cons, Hy, (writeFirst_fst w2 w1), Hf, IHrest. reflexivity.
Qed.

Lemma alter_twice {A} (f g : A -> A) i (l : list A) :
  alter g i (alter f i l) = alter (fun x => g (f x)) i l.
Proof.
  revert i. induction l as [|a l IH]; intros [|i]; try reflexivity.
  cbn. f_equal. apply IH.
Qed.

Lemma alter_swap {A} (f g : A -> A) i j (l : list A) :
  i <> j -> alter g j (alter f i l) = alter f i (alter g j l).
Proof.
  revert i j. induction l as [|a l IH]; intros [|i] [|j] Hne; try reflexivity;
    [contradiction|].
  cbn. f_equal. apply IH. congruence.
Qed.

Lemma onBoard_ext boards bId f g :
  (forall tasks, f tasks = g tasks) -> onBoard boards bId f = onBoard boards bId g.
Proof.
  intros H. unfold onBoard. destruct (Js.findIndex _ boards); [|reflexivity].
  apply list_alter_ext; [|reflexivity]. intros b _. now rewrite H.
Qed.

Lemma findIndex_onBoard boards bId write other :
  Js.findIndex (fun board => String.eqb (Board.id board) other) (onBoard boards bId write)
  = Js.findIndex (fun board => String.eqb (Board.id board) other) boards.
Proof.
  unfold onBoard. destruct (Js.findIndex _ boards); [|reflexivity].
  apply findIndex_alter. intros b. reflexivity.
Qed.

Lemma onBoard_twice boards bId f g :
  onBoard (onBoard boards bId f) bId g = onBoard boards bId (fun tasks => g (f tasks)).
Proof.
  unfold onBoard at 1. rewrite findIndex_onBoard. unfold onBoard.
  destruct (Js.findIndex _ boards); [|reflexivity].
  rewrite alter_twice. reflexivity.
Qed.

(** X3.  The last write wins: a field edit of a task followed by an edit of
    the same field of the same task gives the tree that the second edit
    alone gives.  This holds on every tree, with duplicate ids and with
    missing boards or tasks. *)
Theorem field_edits_last_write_wins (boards : list Board.t) (bId tId v1 v2 : string) :
  updateTaskTitle (updateTaskTitle boards bId tId v1) bId tId v2
  = updateTaskTitle boards bId tId v2 /\
  updateTaskTitle (taskTitle_onChange boards bId tId v1) bId tId v2
  = updateTaskTitle boards bId tId v2 /\
  taskTitle_onChange (taskTitle_onChange boards bId tId v1) bId tId v2
  = taskTitle_onChange boards bId tId v2 /\
  description_onChange (description_onChange boards bId tId v1) bId tId v2
  = description_onChange boards bId tId v2 /\
  updateTaskPriority (updateTaskPriority boards bId tId v1) bId tId v2
  = updateTaskPriority boards bId tId v2 /\
  setDueDate (setDueDate boards tId bId v1) tId bId v2 = setDueDate boards tId bId v2.
Proof.
  repeat match goal with |- _ /\ _ => split end;
    (etransitivity; [apply onBoard_twice|]; apply onBoard_ext; intros tasks;
     f_equal; apply writeFirst_twice; intros y; destruct y; reflexivity).
Qed.

(** X4.  Adding a content item to a task and then deleting the item at the
    index the new item got (the length of the content before) gives the
    tree back. *)
Theorem addContentItem_then_deleteContentItem
    (boards : list Board.t) (bId tId ty : string) (i : nat) (b : Board.t) (x : Task.t) :
  Js.findIndex (fun board => String.eqb (Board.id board) bId) boards = Some i ->
  boards !! i = Some b ->
  locate (Board.tasks b) tId = Some x ->
  deleteContentItem (addContentItem boards tId bId ty) tId bId
    (Z.of_nat (length (Task.content x)))
  = boards.
Proof.
  intros Hi Hb Hx. unfold deleteContentItem, addContentItem.
  rewrite onBoard_twice, (onBoard_found _ _ _ _ _ Hi Hb).
  unfold removeContentFromTask, addContentToTask.
  erewrite writeFirst_twice; [| intros y; destruct y; reflexivity | intros y; reflexivity].
  pose proof (writeFirst_spec
                (fun y => Task.setContent
                   (Task.setContent y
                      (Js.push (Task.content y)
                         (mkContentItem ty (if String.eqb ty "bullet" then "New bullet point"
                                            else "New numbered item"))))
                   (snd (Js.splice
                      (Task.content
                         (Task.setContent y
                            (Js.push (Task.content y)
                               (mkContentItem ty
                                  (if String.eqb ty "bullet" then "New bullet point"
                                   else "New numbered item")))))
                      (Z.of_nat (length (Task.content x))) 1 [])))
                tId (Board.tasks b)) as Hs.
  rewrite Hx in Hs. destruct Hs as (_ & Hsame & _).
  rewrite Hsame.
  - apply list_insert_id. rewrite Hb. destruct b; reflexivity.
  - destruct x as [xi xt xd xdu xp xtg xs xc]. cbn [Task.content Task.setContent].
    unfold Js.push. erewrite splice_remove.
    + cbn [snd]. f_equal.
      rewrite delete_middle. apply app_nil_r.
    + rewrite lookup_app_r by lia. now rewrite Nat.sub_diag.
Qed.

Lemma addContentItem_then_deleteContentItem_witness :
  deleteContentItem (addContentItem defaultBoards "task-1" "board-1" "numbered")
    "task-1" "board-1" 2
  = defaultBoards.
Proof.
  apply (addContentItem_then_deleteContentItem defaultBoards "board-1" "task-1" "numbered" 0
           (nth 0 defaultBoards (Board.mk "" "" "" 0 []))
           (nth 0 (Board.tasks (nth 0 defaultBoards (Board.mk "" "" "" 0 []))) taskA));
    reflexivity.
Defined.

(** ** Edits of different fields *)

Lemma writeFirst_fst_outline w w' targetId tasks :
  forall tasks', map outlineOf tasks = map outlineOf tasks' ->
  fst (writeFirst w targetId tasks) = fst (writeFirst w' targetId tasks').
Proof.
  induction tasks as [|y rest IHsub IHrest] using forest_ind; intros [|y' rest'] H;
    try discriminate; [reflexivity|].
  cbn [map] in H. injection H as Hy Hrest. rewrite (outlineOf_eq y), (outlineOf_eq y') in Hy.
  injection Hy as Hid Hsubs.
  rewrite !writeFirst_cons, Hid.
  destruct (String.eqb (Task.id y') targetId); [reflexivity|].
  rewrite (IHsub _ Hsubs).
  destruct (fst (writeFirst w' targetId (Task.subtasks y'))); [reflexivity|].
  cbn [fst]. now apply IHrest.
Qed.

Lemma outlineOf_kept (w : Task.t -> Task.t) :
  (forall y, Task.id (w y) = Task.id y) ->
  (forall y, Task.subtasks (w y) = Task.subtasks y) ->
  forall y, outlineOf (w y) = outlineOf y.
Proof. intros Hid Hsubs y. now rewrite (outlineOf_eq (w y)), Hid, Hsubs, <- outlineOf_eq. Qed.

(** Two writes that do not look at each other's field can be done in
    either order, at the same task or at two different ones. *)
Lemma writeFirst_commute w1 w2 t1 t2 tasks :
  (forall y, Task.id (w1 y) = Task.id y) ->
  (forall y, Task.id (w2 y) = Task.id y) ->
  (forall y, Task.subtasks (w1 y) = Task.subtasks y) ->
  (forall y, Task.subtasks (w2 y) = Task.subtasks y) ->
  (forall y subs, w1 (Task.setSubtasks y subs) = Task.setSubtasks (w1 y) subs) ->
  (forall y subs, w2 (Task.setSubtasks y subs) = Task.setSubtasks (w2 y) subs) ->
  (forall y, w1 (w2 y) = w2 (w1 y)) ->
  snd (writeFirst w2 t2 (snd (writeFirst w1 t1 tasks)))
  = snd (writeFirst w1 t1 (snd (writeFirst w2 t2 tasks))).
Proof.
  intros Hid1 Hid2 Hsubs1 Hsubs2 Hset1 Hset2 Hcomm.
  assert (F1 : forall l, fst (writeFirst w2 t2 (snd (writeFirst w1 t1 l)))
                         = fst (writeFirst w2 t2 l)).
  { intros l. apply writeFirst_fst_outline, writeFirst_outline.
    now apply outlineOf_kept. }
  assert (F2 : forall l, fst (writeFirst w1 t1 (snd (writeFirst w2 t2 l)))
                         = fst (writeFirst w1 t1 l)).
  { intros l. apply writeFirst_fst_outline, writeFirst_outline.
    now apply outlineOf_kept. }
  induction tasks as [|y rest IHsub IHrest] using forest_ind; [reflexivity|].
  rewrite (writeFirst_cons w1 t1 y rest), (writeFirst_cons w2 t2 y rest).
  destruct (String.eqb (Task.id y) t1) eqn:Ha, (String.eqb (Task.id y) t2) eqn:Hb;
    cbn [snd].
  - rewrite !writeFirst_cons, Hid1, Hid2, Ha, Hb. cbn [snd]. now rewrite Hcomm.
  - destruct (fst (writeFirst w2 t2 (Task.subtasks y))) eqn:Hf2; cbn [snd].
    + rewrite !writeFirst_cons, Hid1, id_setSubtasks, Ha, Hb, Hsubs1, Hf2. cbn [snd].
      now rewrite Hset1.
    + rewrite !writeFirst_cons, Hid1, Ha, Hb, Hsubs1, Hf2. reflexivity.
  - destruct (fst (writeFirst w1 t1 (Task.subtasks y))) eqn:Hf1; cbn [snd].
    + rewrite !writeFirst_cons, Hid2, id_setSubtasks, Ha, Hb, Hsubs2, Hf1. cbn [snd].
      now rewrite Hset2.
    + rewrite !writeFirst_cons, Hid2, Ha, Hb, Hsubs2, Hf1. reflexivity.
  - destruct (fst (writeFirst w1 t1 (Task.subtasks y))) eqn:Hf1,
             (fst (writeFirst w2 t2 (Task.subtasks y))) eqn:Hf2; cbn [snd];
      rewrite !writeFirst_cons, ?id_setSubtasks, ?subtasks_setSubtasks, Ha, Hb,
        ?F1, ?F2, ?Hf1, ?Hf2; cbn [snd]; rewrite ?setSubtasks_twice.
    + now rewrite IHsub.
    + reflexivity.
    + reflexivity.
    + now rewrite IHrest.
Qed.

Lemma onBoard_commute boards b1 b2 f g :
  (forall tasks, g (f tasks) = f (g tasks)) ->
  onBoard (onBoard boards b1 f) b2 g = onBoard (onBoard boards b2 g) b1 f.
Proof.
  intros H. unfold onBoard at 1 3. rewrite !findIndex_onBoard. unfold onBoard.
  destruct (Js.findIndex (fun board => String.eqb (Board.id board) b1) boards) as [i|],
           (Js.findIndex (fun board => String.eqb (Board.id board) b2) boards) as [j|];
    try reflexivity.
  destruct (decide (i = j)) as [->|Hne]; [|now apply alter_swap].
  rewrite !alter_twice. apply list_alter_ext; [|reflexivity].
  intros b _. cbn. now rewrite H.
Qed.

(** X5.  Edits of different fields commute, whichever boards and tasks they
    name (the same task, two tasks of one board, tasks of two boards, ids
    that name nothing): the tree after both does not depend on the order in
    which the two handlers ran. *)
Theorem edits_of_different_fields_commute
    (boards : list Board.t) (b1 t1 v1 b2 t2 v2 : string) :
  updateTaskTitle (updateTaskPriority boards b1 t1 v1) b2 t2 v2
  = updateTaskPriority (updateTaskTitle boards b2 t2 v2) b1 t1 v1 /\
  updateTaskTitle (description_onChange boards b1 t1 v1) b2 t2 v2
  = description_onChange (updateTaskTitle boards b2 t2 v2) b1 t1 v1 /\
  updateTaskTitle (setDueDate boards t1 b1 v1) b2 t2 v2
  = setDueDate (updateTaskTitle boards b2 t2 v2) t1 b1 v1 /\
  updateTaskPriority (description_onChange boards b1 t1 v1) b2 t2 v2
  = description_onChange (updateTaskPriority boards b2 t2 v2) b1 t1 v1 /\
  updateTaskPriority (setDueDate boards t1 b1 v1) b2 t2 v2
  = setDueDate (updateTaskPriority boards b2 t2 v2) t1 b1 v1 /\
  description_onChange (setDueDate boards t1 b1 v1) b2 t2 v2
  = setDueDate (description_onChange boards b2 t2 v2) t1 b1 v1.
Proof.
  repeat match goal with |- _ /\ _ => split end;
    (apply onBoard_commute; intros tasks; apply writeFirst_commute;
     try (intros []; reflexivity); intros [] ?; reflexivity).
Qed.

(** ** Adding a task *)

Lemma forestIds_app l1 l2 : forestIds (l1 ++ l2) = forestIds l1 ++ forestIds l2.
Proof. apply flat_map_app. Qed.

Lemma forestSize_app l1 l2 : forestSize (l1 ++ l2) = (forestSize l1 + forestSize l2)%nat.
Proof.
  unfold forestSize. induction l1 as [|x l1 IH]; [reflexivity|].
  cbn [app map]. change (list_sum (?a :: ?l)) with (a + list_sum l)%nat. rewrite IH. lia.
Qed.

(** X6.  [addNewTask] on a board that is found puts the new task last at
    the top level of that board and changes nothing else: the ids of the
    tree are the old ones and the new one, the count grows by one, and the
    ids stay unique exactly when the new id ("task-" and the time stamp) was
    not in the tree before.  Two tasks added within the same millisecond get
    the same id. *)
Theorem addNewTask_appends
    (boards : list Board.t) (stamp bId : string) (i : nat) (b : Board.t) :
  Js.findIndex (fun board => String.eqb (Board.id board) bId) boards = Some i ->
  boards !! i = Some b ->
  let result := addNewTask boards stamp bId in
  result = <[i := Board.setTasks b (Board.tasks b ++ [newTask stamp])]> boards /\
  Permutation (allTaskIds result) (("task-" ++ stamp)%string :: allTaskIds boards) /\
  totalTasks result = S (totalTasks boards) /\
  (List.NoDup (allTaskIds result) <->
   List.NoDup (allTaskIds boards) /\ ~ In ("task-" ++ stamp)%string (allTaskIds boards)) /\
  ~ List.NoDup (allTaskIds (addNewTask result stamp bId)).
Proof.
  intros Hi Hb result.
  assert (Hres : result
                 = <[i := Board.setTasks b (Board.tasks b ++ [newTask stamp])]> boards)
    by (exact (onBoard_found boards bId (fun tasks => Js.push tasks (newTask stamp))
                 i b Hi Hb)).
  assert (Hperm : Permutation (allTaskIds result)
                    (("task-" ++ stamp)%string :: allTaskIds boards)).
  { rewrite Hres, (allTaskIds_insert _ _ _ _ Hb), (allTaskIds_split _ _ _ Hb).
    cbn [Board.tasks Board.setTasks]. rewrite forestIds_app.
    change (forestIds [newTask stamp]) with [("task-" ++ stamp)%string].
    rewrite <- !app_assoc. cbn [app].
    rewrite !(app_assoc (allTaskIds (take i boards))).
    symmetry. apply Permutation_middle. }
  split; [exact Hres|]. split; [exact Hperm|]. split; [|split].
  - pose proof (totalTasks_insert boards i b
                  (Board.setTasks b (Board.tasks b ++ [newTask stamp])) Hb) as Ht.
    cbn [Board.tasks Board.setTasks] in Ht. rewrite forestSize_app in Ht.
    change (forestSize [newTask stamp]) with 1%nat in Ht. rewrite Hres. lia.
  - split.
    + intros Hnd. apply (Permutation_NoDup Hperm) in Hnd.
      apply List.NoDup_cons_iff in Hnd. tauto.
    + intros [Hnd Hfresh]. apply (Permutation_NoDup (Permutation_sym Hperm)).
      now constructor.
  - intros Hnd.
    assert (Hi' : Js.findIndex (fun board => String.eqb (Board.id board) bId) result
                  = Some i) by (unfold result, addNewTask; now rewrite findIndex_onBoard).
    assert (Hb' : result !! i
                  = Some (Board.setTasks b (Board.tasks b ++ [newTask stamp]))).
    { rewrite Hres. apply list_lookup_insert_eq. eapply lookup_lt_Some; eassumption. }
    assert (Hperm' : Permutation (allTaskIds (addNewTask result stamp bId))
                       (("task-" ++ stamp)%string :: allTaskIds result)).
    { unfold addNewTask at 1. rewrite (onBoard_found _ _ _ _ _ Hi' Hb').
      rewrite (allTaskIds_insert _ _ _ _ Hb'), (allTaskIds_split _ _ _ Hb').
      cbn [Board.tasks Board.setTasks]. unfold Js.push. rewrite !forestIds_app.
      change (forestIds [newTask stamp]) with [("task-" ++ stamp)%string].
      rewrite <- !app_assoc. cbn [app].
      rewrite !(app_assoc (allTaskIds (take i result))).
      symmetry. apply Permutation_middle. }
    apply (Permutation_NoDup Hperm') in Hnd. apply List.NoDup_cons_iff in Hnd.
    destruct Hnd as [Hnot _]. apply Hnot.
    apply (Permutation_in _ (Permutation_sym Hperm)). now left.
Qed.

Lemma addNewTask_appends_witness :
  let result := addNewTask defaultBoards "1700000000000" "board-2" in
  result = <[1%nat := Board.mk "board-2" "In Progress" "bg-yellow-500" 1
                        [newTask "1700000000000"]]> defaultBoards /\
  Permutation (allTaskIds result) ["task-1700000000000"; "task-1"] /\
  totalTasks result = 2%nat /\
  (List.NoDup (allTaskIds result) <->
   List.NoDup (allTaskIds defaultBoards) /\
   ~ In "task-1700000000000" (allTaskIds defaultBoards)) /\
  ~ List.NoDup (allTaskIds (addNewTask result "1700000000000" "board-2")).
Proof.
  apply (addNewTask_appends defaultBoards "1700000000000" "board-2" 1
           (Board.mk "board-2" "In Progress" "bg-yellow-500" 1 []));
    reflexivity.
Defined.

Lemma findAndRemoveTask_last tasks x :
  ~ In (Task.id x) (forestIds tasks) ->
  findAndRemoveTask (tasks ++ [x]) (Task.id x) = (Some x, tasks).
Proof.
  induction tasks as [|y rest IH]; intros Hnot.
  - cbn. now rewrite String.eqb_refl.
  - rewrite forestIds_cons in Hnot. cbn [app]. simpl findAndRemoveTask.
    destruct (String.eqb_spec (Task.id y) (Task.id x)) as [Heq|_];
      [exfalso; apply Hnot; now left|].
    rewrite findAndRemoveTask_sub_eq, findAndRemoveTask_absent.
    + cbn [fst snd]. rewrite IH; [reflexivity|].
      intros Hin. apply Hnot. right. apply in_or_app. now right.
    + intros Hin. apply Hnot. right. apply in_or_app. now left.
Qed.

(** X7.  Adding a task and deleting it again gives the tree back, provided
    the new id is not already the id of a task in the named board (then the
    deletion would reach that task instead of the new one).  A board id that
    names no board makes both handlers do nothing. *)
Theorem addNewTask_then_deleteTask (boards : list Board.t) (stamp bId : string) :
  (forall i b,
     Js.findIndex (fun board => String.eqb (Board.id board) bId) boards = Some i ->
     boards !! i = Some b ->
     ~ In ("task-" ++ stamp)%string (forestIds (Board.tasks b))) ->
  deleteTask (addNewTask boards stamp bId) bId ("task-" ++ stamp)%string = boards.
Proof.
  intros Hfresh. unfold deleteTask, addNewTask. rewrite onBoard_twice.
  destruct (Js.findIndex (fun board => String.eqb (Board.id board) bId) boards)
    as [i|] eqn:Hi.
  - destruct (findIndex_Some _ _ _ Hi) as (b & Hb & _).
    rewrite (onBoard_found _ _ _ _ _ Hi Hb), removeTask_eq. cbn [snd]. unfold Js.push.
    pose proof (findAndRemoveTask_last (Board.tasks b) (newTask stamp)) as Hlast.
    change (Task.id (newTask stamp)) with ("task-" ++ stamp)%string in Hlast.
    rewrite Hlast by (apply (Hfresh i b); [reflexivity | exact Hb]).
    cbn [snd]. apply list_insert_id. rewrite Hb. destruct b; reflexivity.
  - unfold onBoard. now rewrite Hi.
Qed.

Lemma addNewTask_then_deleteTask_witness :
  deleteTask (addNewTask nestedBoards "7" "b1") "b1" "task-7" = nestedBoards.
Proof.
  apply (addNewTask_then_deleteTask nestedBoards "7" "b1").
  intros i b Hi Hb. vm_compute in Hi. injection Hi as <-. vm_compute in Hb.
  injection Hb as <-. vm_compute. intuition discriminate.
Defined.

(** ** Relocation: where the ids go *)

Lemma length_forestIds tasks : length (forestIds tasks) = forestSize tasks.
Proof.
  induction tasks as [|y rest IHsub IHrest] using forest_ind; [reflexivity|].
  rewrite forestIds_cons, forestSize_cons. cbn [length]. rewrite length_app. lia.
Qed.

Lemma length_allTaskIds boards : length (allTaskIds boards) = totalTasks boards.
Proof.
  induction boards as [|b rest IH]; [reflexivity|].
  rewrite totalTasks_cons. unfold allTaskIds in *. cbn [flat_map].
  rewrite length_app, length_forestIds, IH. reflexivity.
Qed.

Lemma forestIds_head x rest : forestIds (x :: rest) = taskIds x ++ forestIds rest.
Proof. reflexivity. Qed.

Lemma forestSize_head x rest : forestSize (x :: rest) = (taskSize x + forestSize rest)%nat.
Proof. reflexivity. Qed.

(** The ids before and after a write at the located task. *)
Lemma writeFirst_ids write targetId tasks :
  forall x, locate tasks targetId = Some x ->
  exists before after,
    forestIds tasks = before ++ taskIds x ++ after /\
    forestIds (snd (writeFirst write targetId tasks)) = before ++ taskIds (write x) ++ after.
Proof.
  induction tasks as [|y rest IHsub IHrest] using forest_ind; intros x; [discriminate|].
  rewrite locate_cons, writeFirst_cons.
  destruct (String.eqb (Task.id y) targetId).
  - intros [= <-]. exists [], (forestIds rest). cbn [snd app]. now rewrite !forestIds_head.
  - pose proof (writeFirst_spec write targetId (Task.subtasks y)) as Hs.
    destruct (locate (Task.subtasks y) targetId) as [x0|].
    + intros [= <-]. destruct Hs as [-> _]. cbn [snd].
      destruct (IHsub x0 eq_refl) as (before & after & Hb & Ha).
      exists (Task.id y :: before), (after ++ forestIds rest).
      rewrite forestIds_setSubtasks, forestIds_cons, Hb, Ha, <- !app_assoc. now cbn.
    + intros Hx. rewrite Hs. cbn [fst snd].
      destruct (IHrest x Hx) as (before & after & Hb & Ha).
      exists (taskIds y ++ before), after.
      rewrite !forestIds_head, Hb, Ha, <- !app_assoc. now cbn.
Qed.

Lemma alter_as_insert {A} (f : A -> A) i (l : list A) x :
  l !! i = Some x -> alter f i l = <[i := f x]> l.
Proof.
  revert i. induction l as [|a l IH]; intros [|i] H; try discriminate.
  - injection H as ->. reflexivity.
  - cbn. f_equal. now apply IH.
Qed.

Lemma allTaskIds_insert_more boards j tb tasks' extra :
  boards !! j = Some tb ->
  Permutation (forestIds tasks') (extra ++ forestIds (Board.tasks tb)) ->
  Permutation (allTaskIds (<[j := Board.setTasks tb tasks']> boards))
              (extra ++ allTaskIds boards).
Proof.
  intros Hj Hp. rewrite (allTaskIds_insert _ _ _ _ Hj), (allTaskIds_split _ _ _ Hj).
  cbn [Board.tasks Board.setTasks]. rewrite Hp, <- !app_assoc.
  apply Permutation_app_swap_app.
Qed.

Lemma setTasks_same b : Board.setTasks b (Board.tasks b) = b.
Proof. destruct b; reflexivity. Qed.

(** The tree that a drop commits once the source board, the source task
    and the target board have been found. *)
Lemma handleTaskDrop_committed boards dragging dragData targetBoardId targetTaskId
    i sourceBoard x remaining j targetBoard :
  targetTaskId <> Some (taskId dragData) ->
  Js.findIndex (fun b => String.eqb (Board.id b) (boardId dragData)) boards = Some i ->
  boards !! i = Some sourceBoard ->
  findAndRemoveTask (Board.tasks sourceBoard) (taskId dragData) = (Some x, remaining) ->
  Js.findIndex (fun b => String.eqb (Board.id b) targetBoardId) boards = Some j ->
  <[i := Board.setTasks sourceBoard remaining]> boards !! j = Some targetBoard ->
  handleTaskDrop boards (Some dragging) (Some dragData) targetBoardId targetTaskId
  = <[j := Board.setTasks targetBoard
             (match (if Js.truthy targetTaskId then targetTaskId else None) with
              | Some parentId => snd (addSubtask (Board.tasks targetBoard) parentId x)
              | None => Board.tasks targetBoard ++ [x]
              end)]>
      (<[i := Board.setTasks sourceBoard remaining]> boards).
Proof.
  intros Hself Hi Hsb Hrm Hj Htb.
  unfold handleTaskDrop, handleTaskDrop_body.
  rewrite bool_decide_eq_false_2 by assumption.
  rewrite Hi, Hsb, Hrm.
  rewrite (findIndex_insert _ boards i sourceBoard) by (assumption || reflexivity).
  rewrite Hj.
  destruct (if Js.truthy targetTaskId then targetTaskId else None); cbn [commit];
    now rewrite (alter_as_insert _ _ _ _ Htb).
Qed.

Lemma removed_ids boards i sourceBoard taskId x remaining :
  boards !! i = Some sourceBoard ->
  findAndRemoveTask (Board.tasks sourceBoard) taskId = (Some x, remaining) ->
  Permutation (allTaskIds boards)
    (taskIds x ++ allTaskIds (<[i := Board.setTasks sourceBoard remaining]> boards)).
Proof.
  intros Hsb Hrm.
  pose proof (findAndRemoveTask_spec taskId (Board.tasks sourceBoard)) as Hs.
  rewrite Hrm in Hs. destruct Hs as (_ & _ & before & after & Hb & Ha & _).
  rewrite (allTaskIds_insert _ _ _ _ Hsb), (allTaskIds_split _ _ _ Hsb).
  cbn [Board.tasks Board.setTasks]. rewrite Hb, Ha, <- !app_assoc.
  rewrite (Permutation_app_swap_app (taskIds x) (allTaskIds (take i boards))).
  apply Permutation_app_head. apply Permutation_app_swap_app.
Qed.

Lemma taskIds_addSubtask par x :
  taskIds (Task.setSubtasks par (Js.push (Task.subtasks par) x)) = taskIds par ++ taskIds x.
Proof.
  rewrite (taskIds_eq par), (taskIds_eq (Task.setSubtasks par _)).
  rewrite id_setSubtasks, subtasks_setSubtasks. unfold Js.push.
  rewrite forestIds_app, forestIds_head. cbn [forestIds flat_map].
  now rewrite app_nil_r.
Qed.

(** The ids after [addSubtask]: with the new subtask's ids when the parent
    is located, the same when it is not. *)
Lemma addSubtask_ids tasks parentId x :
  match locate tasks parentId with
  | Some _ => Permutation (forestIds (snd (addSubtask tasks parentId x)))
                          (taskIds x ++ forestIds tasks)
  | None => snd (addSubtask tasks parentId x) = tasks
  end.
Proof.
  unfold addSubtask.
  destruct (locate tasks parentId) as [par|] eqn:Hp.
  - destruct (writeFirst_ids
                (fun p => Task.setSubtasks p (Js.push (Task.subtasks p) x))
                parentId tasks par Hp) as (before & after & Hb & Ha).
    rewrite Ha, Hb, taskIds_addSubtask, <- !app_assoc.
    rewrite (Permutation_app_swap_app (taskIds x) before). apply Permutation_app_head.
    rewrite (Permutation_app_swap_app (taskIds x) (taskIds par)).
    apply Permutation_app_head. reflexivity.
  - pose proof (writeFirst_spec
                  (fun p => Task.setSubtasks p (Js.push (Task.subtasks p) x))
                  parentId tasks) as Hs.
    rewrite Hp in Hs. now rewrite Hs.
Qed.

(** Every outcome of a drop, by the ids of the tree. *)
Lemma handleTaskDrop_ids boards dragging jsonData targetBoardId targetTaskId :
  exists lost,
    Permutation (allTaskIds boards)
      (lost ++ allTaskIds (handleTaskDrop boards dragging jsonData targetBoardId targetTaskId)).
Proof.
  assert (Hsame : exists lost, Permutation (allTaskIds boards) (lost ++ allTaskIds boards))
    by (now exists []).
  unfold handleTaskDrop, handleTaskDrop_body.
  destruct dragging as [dragging|]; [|exact Hsame].
  destruct jsonData as [dragData|]; [|exact Hsame].
  destruct (bool_decide _); [exact Hsame|].
  destruct (Js.findIndex _ boards) as [i|] eqn:Hi; [|exact Hsame].
  destruct (boards !! i) as [sb|] eqn:Hsb; [|exact Hsame].
  destruct (findAndRemoveTask (Board.tasks sb) (taskId dragData)) as [[x|] remaining] eqn:Hrm;
    [|exact Hsame].
  rewrite (findIndex_insert _ boards i sb) by (assumption || reflexivity).
  destruct (Js.findIndex (fun b => String.eqb (Board.id b) targetBoardId) boards)
    as [j|] eqn:Hj; [|exact Hsame].
  pose proof (removed_ids boards i sb _ x remaining Hsb Hrm) as Hremoved.
  set (newBoards := <[i := Board.setTasks sb remaining]> boards) in *.
  assert (Htb : exists tb, newBoards !! j = Some tb).
  { apply lookup_lt_is_Some_2. unfold newBoards. rewrite length_insert.
    now apply findIndex_lt in Hj. }
  destruct Htb as [tb Htb].
  destruct (if Js.truthy targetTaskId then targetTaskId else None) as [parentId|];
    cbn [commit]; rewrite (alter_as_insert _ _ _ _ Htb).
  - pose proof (addSubtask_ids (Board.tasks tb) parentId x) as Ha.
    destruct (locate (Board.tasks tb) parentId).
    + exists []. cbn [app]. rewrite Hremoved. symmetry.
      now apply allTaskIds_insert_more.
    + rewrite Ha, setTasks_same, (list_insert_id _ _ _ Htb). now exists (taskIds x).
  - exists []. cbn [app]. rewrite Hremoved. symmetry.
    apply allTaskIds_insert_more; [exact Htb|].
    unfold Js.push. rewrite forestIds_app, forestIds_head. cbn [forestIds flat_map].
    rewrite app_nil_r. apply Permutation_app_comm.
Qed.

(** X8.  A drop never invents or duplicates a task, whatever the event
    carries: the ids of the tree before are the ids of the tree after
    together with the ids that were lost (none when the drop was refused or
    succeeded).  So unique ids stay unique and the number of tasks never
    grows. *)
Theorem handleTaskDrop_never_invents_a_task
    (boards : list Board.t) (dragging jsonData : option DragData)
    (targetBoardId : string) (targetTaskId : option string) :
  let result := handleTaskDrop boards dragging jsonData targetBoardId targetTaskId in
  (exists lost,
     Permutation (allTaskIds boards) (lost ++ allTaskIds result) /\
     (totalTasks result + length lost = totalTasks boards)%nat) /\
  (List.NoDup (allTaskIds boards) -> List.NoDup (allTaskIds result)) /\
  (totalTasks result <= totalTasks boards)%nat.
Proof.
  intros result.
  destruct (handleTaskDrop_ids boards dragging jsonData targetBoardId targetTaskId)
    as [lost Hp].
  fold result in Hp.
  assert (Hlen : (totalTasks result + length lost = totalTasks boards)%nat).
  { apply Permutation_length in Hp. rewrite length_app, !length_allTaskIds in Hp. lia. }
  split; [exists lost; now split|]. split; [|lia].
  intros Hnd. apply (Permutation_NoDup Hp) in Hnd.
  now apply List.NoDup_app_remove_l in Hnd.
Qed.

(** X9.  A drop on a board (no target task, or the empty string for one)
    that finds the source board, the source task in it and the target board
    moves the task with its whole subtree to the end of the target board's
    top level: the source board keeps its other tasks, the ids of the tree
    are the same and so is the number of tasks. *)
Theorem handleTaskDrop_onto_board
    (boards : list Board.t) (dragging dragData : DragData) (targetBoardId : string)
    (targetTaskId : option string) (i j : nat) (sourceBoard : Board.t) (x : Task.t) :
  Js.truthy targetTaskId = false ->
  targetTaskId <> Some (taskId dragData) ->
  Js.findIndex (fun b => String.eqb (Board.id b) (boardId dragData)) boards = Some i ->
  boards !! i = Some sourceBoard ->
  locate (Board.tasks sourceBoard) (taskId dragData) = Some x ->
  Js.findIndex (fun b => String.eqb (Board.id b) targetBoardId) boards = Some j ->
  let remaining := snd (findAndRemoveTask (Board.tasks sourceBoard) (taskId dragData)) in
  let result :=
    handleTaskDrop boards (Some dragging) (Some dragData) targetBoardId targetTaskId in
  exists targetBoard,
    boards !! j = Some targetBoard /\
    result
    = <[j := Board.setTasks targetBoard
               ((if decide (i = j) then remaining else Board.tasks targetBoard) ++ [x])]>
        (<[i := Board.setTasks sourceBoard remaining]> boards) /\
    Permutation (allTaskIds result) (allTaskIds boards) /\
    totalTasks result = totalTasks boards.
Proof.
  intros Htruthy Hself Hi Hsb Hx Hj remaining result.
  assert (Hrm : findAndRemoveTask (Board.tasks sourceBoard) (taskId dragData)
                = (Some x, remaining)).
  { unfold locate in Hx. unfold remaining.
    destruct (findAndRemoveTask (Board.tasks sourceBoard) (taskId dragData)) as [r rest].
    cbn in Hx |- *. now subst r. }
  destruct (findIndex_Some _ _ _ Hj) as (tb & Htb & _).
  exists tb. split; [exact Htb|].
  assert (Hlt : (i < length boards)%nat) by (eapply lookup_lt_Some; eassumption).
  assert (Hres : result
    = <[j := Board.setTasks tb ((if decide (i = j) then remaining else Board.tasks tb) ++ [x])]>
        (<[i := Board.setTasks sourceBoard remaining]> boards)).
  { unfold result. destruct (decide (i = j)) as [<-|Hne].
    - rewrite (handleTaskDrop_committed boards dragging dragData targetBoardId targetTaskId
                 i sourceBoard x remaining i (Board.setTasks sourceBoard remaining));
        try assumption; [|now apply list_lookup_insert_eq].
      rewrite Htruthy. assert (tb = sourceBoard) by congruence. subst tb.
      destruct sourceBoard; reflexivity.
    - rewrite (handleTaskDrop_committed boards dragging dragData targetBoardId targetTaskId
                 i sourceBoard x remaining j tb);
        try assumption; [|now rewrite list_lookup_insert_ne].
      now rewrite Htruthy. }
  split; [exact Hres|].
  assert (Hperm : Permutation (allTaskIds result) (allTaskIds boards)).
  { destruct (handleTaskDrop_ids boards (Some dragging) (Some dragData) targetBoardId
                targetTaskId) as [lost Hp]. fold result in Hp.
    pose proof (removed_ids boards i sourceBoard _ x remaining Hsb Hrm) as Hremoved.
    set (newBoards := <[i := Board.setTasks sourceBoard remaining]> boards) in *.
    assert (Htb' : newBoards !! j
                   = Some (if decide (i = j) then Board.setTasks sourceBoard remaining
                           else tb)).
    { unfold newBoards. destruct (decide (i = j)) as [<-|Hne];
        [now apply list_lookup_insert_eq | now rewrite list_lookup_insert_ne]. }
    rewrite Hremoved, Hres. symmetry.
    replace (Board.setTasks tb
               ((if decide (i = j) then remaining else Board.tasks tb) ++ [x]))
      with (Board.setTasks (if decide (i = j) then Board.setTasks sourceBoard remaining
                            else tb)
              (Board.tasks (if decide (i = j) then Board.setTasks sourceBoard remaining
                            else tb) ++ [x])).
    - symmetry. apply allTaskIds_insert_more; [exact Htb'|].
      rewrite forestIds_app, forestIds_head. cbn [forestIds flat_map].
      rewrite app_nil_r. apply Permutation_app_comm.
    - destruct (decide (i = j)) as [<-|Hne]; [|reflexivity].
      assert (tb = sourceBoard) by congruence. subst tb. destruct sourceBoard; reflexivity. }
  split; [exact Hperm|].
  apply Permutation_length in Hperm. now rewrite !length_allTaskIds in Hperm.
Qed.

Lemma handleTaskDrop_onto_board_witness :
  exists targetBoard,
    nestedBoards !! 1%nat = Some targetBoard /\
    handleTaskDrop nestedBoards (Some (dragOf "b1" "C")) (Some (dragOf "b1" "C")) "b2" None
    = <[1%nat := Board.setTasks targetBoard (Board.tasks targetBoard ++ [taskC])]>
        (<[0%nat := Board.mk "b1" "To Do" "bg-red-500" 0 [leaf "A" [leaf "B" []]]]>
           nestedBoards) /\
    Permutation
      (allTaskIds (handleTaskDrop nestedBoards (Some (dragOf "b1" "C"))
                     (Some (dragOf "b1" "C")) "b2" None))
      (allTaskIds nestedBoards) /\
    totalTasks (handleTaskDrop nestedBoards (Some (dragOf "b1" "C"))
                  (Some (dragOf "b1" "C")) "b2" None)
    = totalTasks nestedBoards.
Proof.
  apply (handleTaskDrop_onto_board nestedBoards (dragOf "b1" "C") (dragOf "b1" "C") "b2"
           None 0 1 (Board.mk "b1" "To Do" "bg-red-500" 0 [taskA]) taskC);
    try reflexivity. discriminate.
Defined.

(** X10.  A drop on a task that finds the source board, the source task in
    it, the target board and, after the source task has been taken out, the
    target task in the target board makes the source task the last subtask
    of the target task.  The other boards are as the removal left them, the
    ids of the tree are the same and so is the number of tasks. *)
Theorem handleTaskDrop_onto_task
    (boards : list Board.t) (dragging dragData : DragData)
    (targetBoardId parentId : string) (i j : nat)
    (sourceBoard targetBoard : Board.t) (x parent : Task.t) :
  parentId <> "" ->
  parentId <> taskId dragData ->
  Js.findIndex (fun b => String.eqb (Board.id b) (boardId dragData)) boards = Some i ->
  boards !! i = Some sourceBoard ->
  locate (Board.tasks sourceBoard) (taskId dragData) = Some x ->
  Js.findIndex (fun b => String.eqb (Board.id b) targetBoardId) boards = Some j ->
  let remaining := snd (findAndRemoveTask (Board.tasks sourceBoard) (taskId dragData)) in
  <[i := Board.setTasks sourceBoard remaining]> boards !! j = Some targetBoard ->
  locate (Board.tasks targetBoard) parentId = Some parent ->
  let result :=
    handleTaskDrop boards (Some dragging) (Some dragData) targetBoardId (Some parentId) in
  exists targetBoard',
    result !! j = Some targetBoard' /\
    locate (Board.tasks targetBoard') parentId
    = Some (Task.setSubtasks parent (Task.subtasks parent ++ [x])) /\
    (forall k, k <> j ->
       result !! k = <[i := Board.setTasks sourceBoard remaining]> boards !! k) /\
    Permutation (allTaskIds result) (allTaskIds boards) /\
    totalTasks result = totalTasks boards.
Proof.
  intros Hne Hself Hi Hsb Hx Hj remaining Htb Hparent result.
  assert (Hrm : findAndRemoveTask (Board.tasks sourceBoard) (taskId dragData)
                = (Some x, remaining)).
  { unfold locate in Hx. unfold remaining.
    destruct (findAndRemoveTask (Board.tasks sourceBoard) (taskId dragData)) as [r rest].
    cbn in Hx |- *. now subst r. }
  assert (Hres : result
    = <[j := Board.setTasks targetBoard
               (snd (addSubtask (Board.tasks targetBoard) parentId x))]>
        (<[i := Board.setTasks sourceBoard remaining]> boards)).
  { unfold result.
    rewrite (handleTaskDrop_committed boards dragging dragData targetBoardId (Some parentId)
               i sourceBoard x remaining j targetBoard); try assumption; [|congruence].
    cbn [Js.truthy]. destruct (String.eqb_spec parentId ""); [contradiction|].
    reflexivity. }
  pose proof (addSubtask_ids (Board.tasks targetBoard) parentId x) as Hids.
  rewrite Hparent in Hids.
  assert (Hperm : Permutation (allTaskIds result) (allTaskIds boards)).
  { rewrite Hres, (removed_ids boards i sourceBoard _ x remaining Hsb Hrm).
    now apply allTaskIds_insert_more. }
  eexists. split; [|split; [|split; [|split]]].
  - rewrite Hres. apply list_lookup_insert_eq. eapply lookup_lt_Some; eassumption.
  - cbn [Board.tasks Board.setTasks]. unfold addSubtask.
    pose proof (writeFirst_spec
                  (fun p => Task.setSubtasks p (Js.push (Task.subtasks p) x))
                  parentId (Board.tasks targetBoard)) as Hs.
    rewrite Hparent in Hs. destruct Hs as (_ & _ & Hloc).
    apply Hloc. apply id_setSubtasks.
  - intros k Hk. rewrite Hres. now apply list_lookup_insert_ne.
  - exact Hperm.
  - apply Permutation_length in Hperm. now rewrite !length_allTaskIds in Hperm.
Qed.

Lemma handleTaskDrop_onto_task_witness :
  exists targetBoard',
    handleTaskDrop nestedBoards (Some (dragOf "b2" "E")) (Some (dragOf "b2" "E"))
      "b1" (Some "C") !! 0%nat = Some targetBoard' /\
    locate (Board.tasks targetBoard') "C" = Some (leaf "C" [taskD; taskE]) /\
    (forall k, k <> 0%nat ->
       handleTaskDrop nestedBoards (Some (dragOf "b2" "E")) (Some (dragOf "b2" "E"))
         "b1" (Some "C") !! k
       = <[1%nat := Board.mk "b2" "Done" "bg-green-500" 1 []]> nestedBoards !! k) /\
    Permutation
      (allTaskIds (handleTaskDrop nestedBoards (Some (dragOf "b2" "E"))
                     (Some (dragOf "b2" "E")) "b1" (Some "C")))
      (allTaskIds nestedBoards) /\
    totalTasks (handleTaskDrop nestedBoards (Some (dragOf "b2" "E"))
                  (Some (dragOf "b2" "E")) "b1" (Some "C"))
    = totalTasks nestedBoards.
Proof.
  apply (handleTaskDrop_onto_task nestedBoards (dragOf "b2" "E") (dragOf "b2" "E")
           "b1" "C" 1 0 (Board.mk "b2" "Done" "bg-green-500" 1 [taskE])
           (Board.mk "b1" "To Do" "bg-red-500" 0 [taskA]) taskE taskC);
    try reflexivity; discriminate.
Defined.

(** X11.  A drop of a task onto one of its own descendants, at any depth, in
    any tree whose source board has unique task ids: the handler commits the
    tree without the dragged task, so the task and its whole subtree are
    gone and the number of tasks drops by the size of that subtree. *)
Theorem handleTaskDrop_onto_descendant_loses_subtree
    (boards : list Board.t) (dragging : DragData) (sourceBoardId : string)
    (sub : bool) (par : option string) (i : nat) (sourceBoard : Board.t) (a d : Task.t) :
  List.NoDup (forestIds (Board.tasks sourceBoard)) ->
  Js.findIndex (fun b => String.eqb (Board.id b) sourceBoardId) boards = Some i ->
  boards !! i = Some sourceBoard ->
  InForest a (Board.tasks sourceBoard) ->
  DescendantOf d a ->
  Task.id d <> "" ->
  let result :=
    handleTaskDrop boards (Some dragging) (Some (mkDragData sourceBoardId (Task.id a) sub par))
      sourceBoardId (Some (Task.id d)) in
  result = <[i := Board.setTasks sourceBoard
                     (snd (findAndRemoveTask (Board.tasks sourceBoard) (Task.id a)))]> boards /\
  (List.NoDup (allTaskIds boards) ->
   forall s, In s (taskIds a) -> ~ In s (allTaskIds result)) /\
  (totalTasks result + taskSize a = totalTasks boards)%nat.
Proof.
  intros Hnd Hi Hsb Ha Hd Hne result.
  destruct (handleTaskDrop_onto_descendant boards dragging sourceBoardId sub par i
              sourceBoard a d Hnd Hi Hsb Ha Hd Hne) as (Hres & Htotal & Hpos).
  fold result in Hres, Htotal.
  assert (Hrm : findAndRemoveTask (Board.tasks sourceBoard) (Task.id a)
                = (Some a, snd (findAndRemoveTask (Board.tasks sourceBoard) (Task.id a)))).
  { pose proof (findAndRemoveTask_unique a _ Hnd Ha) as Hu.
    destruct (findAndRemoveTask (Board.tasks sourceBoard) (Task.id a)) as [r rest].
    cbn in Hu |- *. now subst r. }
  pose proof (removed_ids boards i sourceBoard _ a _ Hsb Hrm) as Hremoved.
  rewrite <- Hres in Hremoved.
  split; [exact Hres|]. split.
  - intros Hall s Hs. apply (Permutation_NoDup Hremoved) in Hall.
    exact (NoDup_middle [] (taskIds a) (allTaskIds result) s Hall Hs).
  - apply Permutation_length in Hremoved.
    rewrite length_app, !length_allTaskIds in Hremoved.
    assert (length (taskIds a) = taskSize a).
    { rewrite taskIds_eq, taskSize_eq. cbn [length]. unfold descendants.
      now rewrite length_forestIds. }
    lia.
Qed.

Lemma handleTaskDrop_onto_descendant_loses_subtree_witness :
  let result :=
    handleTaskDrop nestedBoards (Some (dragOf "b1" "B")) (Some (dragOf "b1" "B"))
      "b1" (Some "D") in
  result = <[0%nat := Board.mk "b1" "To Do" "bg-red-500" 0 [leaf "A" []]]> nestedBoards /\
  (List.NoDup (allTaskIds nestedBoards) ->
   forall s, In s ["B"; "C"; "D"] -> ~ In s (allTaskIds result)) /\
  (totalTasks result + 3 = totalTasks nestedBoards)%nat.
Proof.
  apply (handleTaskDrop_onto_descendant_loses_subtree nestedBoards (dragOf "b1" "B") "b1"
           false None 0 (Board.mk "b1" "To Do" "bg-red-500" 0 [taskA]) taskB taskD).
  - vm_compute. repeat constructor; cbn; intuition discriminate.
  - reflexivity.
  - reflexivity.
  - apply InForest_below, InForest_here.
  - apply InForest_below, InForest_here.
  - discriminate.
Defined.

(** ** Deleting a task twice *)

(** X12.  In a tree with unique task ids a second [deleteTask] with the same
    arguments changes nothing: the first one has removed the only task with
    the id. *)
Theorem deleteTask_idempotent (boards : list Board.t) (bId tId : string) :
  List.NoDup (allTaskIds boards) ->
  deleteTask (deleteTask boards bId tId) bId tId = deleteTask boards bId tId.
Proof.
  intros Hnd. unfold deleteTask. rewrite onBoard_twice.
  destruct (Js.findIndex (fun board => String.eqb (Board.id board) bId) boards)
    as [i|] eqn:Hi; [|unfold onBoard; now rewrite Hi].
  destruct (findIndex_Some _ _ _ Hi) as (b & Hb & _).
  rewrite !(onBoard_found _ _ _ _ _ Hi Hb). do 2 f_equal.
  rewrite !removeTask_eq. cbn [snd].
  pose proof (findAndRemoveTask_spec tId (Board.tasks b)) as Hs.
  pose proof (NoDup_allTaskIds_board boards i b Hnd Hb) as Hndb.
  destruct (findAndRemoveTask (Board.tasks b) tId) as [[x|] tasks'] eqn:Hrm; cbn [snd].
  - destruct Hs as (Hid & _ & before & after & Hbefore & Hafter & _).
    rewrite findAndRemoveTask_absent; [reflexivity|].
    rewrite Hafter. rewrite Hbefore in Hndb.
    apply (NoDup_middle before (taskIds x) after tId Hndb).
    rewrite taskIds_eq, Hid. now left.
  - destruct Hs as [-> _]. now rewrite Hrm.
Qed.

Lemma deleteTask_idempotent_witness :
  deleteTask (deleteTask nestedBoards "b1" "C") "b1" "C" = deleteTask nestedBoards "b1" "C".
Proof.
  apply (deleteTask_idempotent nestedBoards "b1" "C").
  vm_compute. repeat constructor; cbn; intuition discriminate.
Defined.

(** ** The display order *)

Lemma sortedBoards_cons b l : sortedBoards (b :: l) = insertByOrder b (sortedBoards l).
Proof. reflexivity. Qed.

Lemma insertByOrder_Permutation b l : Permutation (insertByOrder b l) (b :: l).
Proof.
  induction l as [|c l IH]; [reflexivity|]. cbn [insertByOrder].
  destruct (Board.order b - Board.order c <=? 0); [reflexivity|].
  rewrite IH. apply perm_swap.
Qed.

Lemma sortedBoards_Permutation l : Permutation (sortedBoards l) l.
Proof.
  induction l as [|b l IH]; [reflexivity|].
  now rewrite sortedBoards_cons, insertByOrder_Permutation, IH.
Qed.

Lemma insertByOrder_sorted b l :
  StronglySorted (fun a c => Board.order a <= Board.order c) l ->
  StronglySorted (fun a c => Board.order a <= Board.order c) (insertByOrder b l).
Proof.
  induction 1 as [|c l Hs IH Hc]; [repeat constructor|].
  cbn [insertByOrder]. destruct (Z.leb_spec (Board.order b - Board.order c) 0) as [Hle|Hgt].
  - constructor; [now constructor|]. constructor; [lia|].
    eapply Forall_impl; [exact Hc|]. cbn. intros; lia.
  - constructor; [exact IH|].
    rewrite insertByOrder_Permutation. constructor; [lia | exact Hc].
Qed.

Lemma sortedBoards_sorted l :
  StronglySorted (fun a c => Board.order a <= Board.order c) (sortedBoards l).
Proof.
  induction l as [|b l IH]; [constructor|].
  rewrite sortedBoards_cons. now apply insertByOrder_sorted.
Qed.

Lemma insertByOrder_first b l :
  Forall (fun c => Board.order b <= Board.order c) l -> insertByOrder b l = b :: l.
Proof.
  destruct 1 as [|c l Hc _]; [reflexivity|]. cbn [insertByOrder].
  destruct (Z.leb_spec (Board.order b - Board.order c) 0); [reflexivity | lia].
Qed.

Lemma Forall_filter {A} (P : A -> Prop) (q : A -> bool) l :
  Forall P l -> Forall P (List.filter q l).
Proof.
  induction 1 as [|x l Hx _ IH]; [constructor|]. cbn.
  destruct (q x); [now constructor | exact IH].
Qed.

(** On a sorted list, inserting and then filtering is filtering and then
    inserting. *)
Lemma filter_insertByOrder (q : Board.t -> bool) b l :
  StronglySorted (fun a c => Board.order a <= Board.order c) l ->
  List.filter q (insertByOrder b l)
  = if q b then insertByOrder b (List.filter q l) else List.filter q l.
Proof.
  induction 1 as [|c l Hs IH Hc]; [cbn; now destruct (q b)|].
  cbn [insertByOrder].
  destruct (Z.leb_spec (Board.order b - Board.order c) 0) as [Hle|Hgt].
  - change (List.filter q (b :: c :: l))
      with (if q b then b :: List.filter q (c :: l) else List.filter q (c :: l)).
    destruct (q b) eqn:Hb; [|reflexivity].
    symmetry. apply insertByOrder_first.
    apply Forall_filter. constructor; [lia|].
    eapply Forall_impl; [exact Hc|]. cbn. intros; lia.
  - cbn [List.filter]. rewrite IH. destruct (q c) eqn:Hqc, (q b) eqn:Hb; try reflexivity.
    cbn [insertByOrder].
    destruct (Z.leb_spec (Board.order b - Board.order c) 0); [lia | reflexivity].
Qed.

Lemma sortedBoards_filter (q : Board.t -> bool) l :
  sortedBoards (List.filter q l) = List.filter q (sortedBoards l).
Proof.
  induction l as [|b l IH]; [reflexivity|].
  rewrite sortedBoards_cons, filter_insertByOrder by apply sortedBoards_sorted.
  cbn [List.filter]. destruct (q b); [|exact IH].
  now rewrite sortedBoards_cons, IH.
Qed.

(** X13.  The display sequence [sortedBoards] is a rearrangement of the
    boards in which the orders never decrease, and boards of equal order
    keep the sequence they have in the array (the sort is stable).  These
    three facts fix the display sequence. *)
Theorem sortedBoards_is_the_stable_sort (boards : list Board.t) :
  Permutation (sortedBoards boards) boards /\
  StronglySorted (fun a c => Board.order a <= Board.order c) (sortedBoards boards) /\
  (forall k, List.filter (fun b => Board.order b =? k) (sortedBoards boards)
             = List.filter (fun b => Board.order b =? k) boards).
Proof.
  split; [apply sortedBoards_Permutation|]. split; [apply sortedBoards_sorted|].
  intros k. induction boards as [|b l IH]; [reflexivity|].
  rewrite sortedBoards_cons, filter_insertByOrder by apply sortedBoards_sorted.
  cbn [List.filter]. rewrite IH.
  destruct (Z.eqb_spec (Board.order b) k) as [Hk|_]; [|reflexivity].
  apply insertByOrder_first. apply List.Forall_forall. intros c Hc.
  apply List.filter_In in Hc as [_ Hc]. apply Z.eqb_eq in Hc. lia.
Qed.

(** X14.  Deleting a board does not disturb the display: the display
    sequence after [deleteBoard] is the display sequence before without the
    boards of that id.  A board is in the result exactly when it was there
    and has another id (no order field is renumbered), and nothing happens
    when the confirmation is declined. *)
Theorem deleteBoard_keeps_display_order
    (boards : list Board.t) (confirmed : bool) (bId : string) :
  sortedBoards (deleteBoard boards confirmed bId)
  = deleteBoard (sortedBoards boards) confirmed bId /\
  (forall b, In b (deleteBoard boards true bId) <-> In b boards /\ Board.id b <> bId) /\
  deleteBoard boards false bId = boards.
Proof.
  split; [|split; [|reflexivity]].
  - unfold deleteBoard. destruct confirmed; [apply sortedBoards_filter | reflexivity].
  - intros b. unfold deleteBoard. rewrite List.filter_In.
    destruct (String.eqb_spec (Board.id b) bId); cbn; intuition congruence.
Qed.

(** ** Adding and deleting boards *)

Lemma filter_keeps_all {A} (q : A -> bool) l :
  Forall (fun x => q x = true) l -> List.filter q l = l.
Proof.
  induction 1 as [|x l Hx _ IH]; [reflexivity|]. cbn. now rewrite Hx, IH.
Qed.

Lemma filter_length_lt {A} (q : A -> bool) l x :
  In x l -> q x = false -> (length (List.filter q l) < length l)%nat.
Proof.
  induction l as [|y l IH]; [contradiction|]. intros [->|Hin] Hq; cbn.
  - rewrite Hq. pose proof (List.filter_length_le q l). lia.
  - specialize (IH Hin Hq). destruct (q y); cbn; lia.
Qed.

(** X15.  Adding a board and deleting it again gives the boards back
    exactly when no board had the new id ("board-" and the time stamp)
    before: [deleteBoard] removes every board of the id, so with an id that
    was taken it removes an older board as well. *)
Theorem addNewBoard_then_deleteBoard (boards : list Board.t) (pick : nat) (stamp : string) :
  deleteBoard (addNewBoard boards pick stamp) true ("board-" ++ stamp)%string = boards
  <-> ~ In ("board-" ++ stamp)%string (map Board.id boards).
Proof.
  unfold deleteBoard, addNewBoard. rewrite List.filter_app. cbn [List.filter newBoard Board.id].
  rewrite String.eqb_refl. cbn [negb]. rewrite app_nil_r. split.
  - intros Heq Hin. apply in_map_iff in Hin as (b & Hid & Hb).
    pose proof (filter_length_lt
                  (fun board => negb (String.eqb (Board.id board) ("board-" ++ stamp)))
                  boards b Hb) as Hlt.
    rewrite Heq in Hlt. rewrite Hid, String.eqb_refl in Hlt. specialize (Hlt eq_refl). lia.
  - intros Hfresh. apply filter_keeps_all. apply List.Forall_forall. intros b Hb.
    destruct (String.eqb_spec (Board.id b) ("board-" ++ stamp)) as [Heq|_]; [|reflexivity].
    exfalso. apply Hfresh. apply in_map_iff. now exists b.
Qed.

Lemma insertByOrder_snoc b l z :
  Board.order b <= Board.order z ->
  insertByOrder b (l ++ [z]) = insertByOrder b l ++ [z].
Proof.
  intros Hle. induction l as [|c l IH]; cbn [app insertByOrder].
  - destruct (Z.leb_spec (Board.order b - Board.order z) 0); [reflexivity | lia].
  - destruct (Board.order b - Board.order c <=? 0); [reflexivity|]. now rewrite IH.
Qed.

Lemma sortedBoards_snoc l z :
  Forall (fun b => Board.order b <= Board.order z) l ->
  sortedBoards (l ++ [z]) = sortedBoards l ++ [z].
Proof.
  induction 1 as [|b l Hb _ IH]; [reflexivity|].
  cbn [app]. now rewrite !sortedBoards_cons, IH, insertByOrder_snoc.
Qed.

Lemma StronglySorted_last {A} (R : A -> A -> Prop) l z :
  StronglySorted R l -> last l = Some z -> forall a, In a l -> a = z \/ R a z.
Proof.
  induction 1 as [|c l Hs IH Hc]; [discriminate|]. intros Hlast a Ha.
  destruct l as [|d l'].
  - cbn in Hlast. injection Hlast as <-. destruct Ha as [->|[]]. now left.
  - change (last (c :: d :: l')) with (last (d :: l')) in Hlast.
    destruct Ha as [<-|Ha]; [|now apply IH].
    right. apply (proj1 (List.Forall_forall _ _) Hc).
    apply last_Some in Hlast as [l'' Hl]. rewrite Hl. apply in_or_app. right. now left.
Qed.

(** X16.  The board that [addNewBoard] makes gets the number of boards for
    its order.  It is displayed last exactly when no board has a larger
    order; after boards have been deleted the remaining orders can be larger
    than the number of boards, and then the new board is displayed before
    them.  The boards before it in the array are unchanged. *)
Theorem addNewBoard_displayed_last (boards : list Board.t) (pick : nat) (stamp : string) :
  let added := addNewBoard boards pick stamp in
  take (length boards) added = boards /\
  added !! length boards = Some (newBoard (length boards) pick stamp) /\
  (Forall (fun b => Board.order b <= Z.of_nat (length boards)) boards ->
   sortedBoards added = sortedBoards boards ++ [newBoard (length boards) pick stamp]) /\
  (last (sortedBoards added) = Some (newBoard (length boards) pick stamp) ->
   Forall (fun b => Board.order b <= Z.of_nat (length boards)) boards).
Proof.
  intros added. unfold added, addNewBoard.
  split; [now rewrite take_app_length|].
  split; [now rewrite list_lookup_middle|]. split.
  - intros Hall. now apply sortedBoards_snoc.
  - intros Hlast. apply List.Forall_forall. intros b Hb.
    destruct (StronglySorted_last _ _ _ (sortedBoards_sorted _) Hlast b) as [->|Hle].
    + apply (Permutation_in _ (Permutation_sym (sortedBoards_Permutation _))).
      apply in_or_app. now left.
    + cbn. lia.
    + exact Hle.
Qed.

(** ** Board titles *)





Lemma onBoard_missing boards bId write :
  Js.findIndex (fun board => String.eqb (Board.id board) bId) boards = None ->
  onBoard boards bId write = boards.
Proof. intros H. unfold onBoard. now rewrite H. Qed.


(** ** Board drops and the boards' content *)

Lemma imap_setOrder_content (l : list Board.t) :
  map boardContent (imap (fun index board => Board.setOrder board (Z.of_nat index)) l)
  = map boardContent l.
Proof.
  assert (H : forall off,
             map boardContent
               (imap (fun index board => Board.setOrder board (Z.of_nat (off + index))) l)
             = map boardContent l).
  { induction l as [|b l IH]; intros off; [reflexivity|].
    cbn [imap map]. f_equal. rewrite <- (IH (S off)). f_equal.
    apply imap_ext. intros k c _. cbn. do 2 f_equal. lia. }
  apply (H 0%nat).
Qed.

Lemma allTaskIds_content boards :
  allTaskIds boards = flat_map (fun c => forestIds (snd c)) (map boardContent boards).
Proof.
  unfold allTaskIds. induction boards as [|b l IH]; [reflexivity|].
  cbn [flat_map map]. now rewrite IH.
Qed.

Lemma handleBoardDrop_content boards draggingBoard sourceBoardId targetBoardId :
  Permutation
    (map boardContent (handleBoardDrop boards draggingBoard sourceBoardId targetBoardId))
    (map boardContent boards).
Proof.
  destruct (Js.truthy draggingBoard) eqn:Hd;
    [|rewrite handleBoardDrop_guarded by tauto; reflexivity].
  destruct (String.eqb_spec sourceBoardId "") as [He|He];
    [rewrite handleBoardDrop_guarded by tauto; reflexivity|].
  destruct (String.eqb_spec sourceBoardId targetBoardId) as [Hst|Hst];
    [rewrite handleBoardDrop_guarded by tauto; reflexivity|].
  destruct (Js.findIndex (fun b => String.eqb (Board.id b) sourceBoardId) boards)
    as [i|] eqn:Hi; [|rewrite handleBoardDrop_guarded by tauto; reflexivity].
  destruct (Js.findIndex (fun b => String.eqb (Board.id b) targetBoardId) boards)
    as [j|] eqn:Hj; [|rewrite handleBoardDrop_guarded by tauto; reflexivity].
  destruct (findIndex_Some _ _ _ Hi) as (dragged & Hdr & _).
  rewrite (handleBoardDrop_effective boards draggingBoard sourceBoardId targetBoardId
             i j dragged) by assumption.
  rewrite imap_setOrder_content. apply Permutation_map.
  rewrite <- Permutation_middle, take_drop. symmetry. now apply delete_Permutation.
Qed.

(** X18.  A board drop, whatever the event carries, changes order fields
    only: the boards after it are the boards before it with their ids,
    titles, colors and tasks, in some sequence.  No board and no task is
    lost, duplicated or edited by dragging boards. *)
Theorem handleBoardDrop_keeps_content
    (boards : list Board.t) (draggingBoard : option string)
    (sourceBoardId targetBoardId : string) :
  let result := handleBoardDrop boards draggingBoard sourceBoardId targetBoardId in
  Permutation (map boardContent result) (map boardContent boards) /\
  Permutation (allTaskIds result) (allTaskIds boards) /\
  length result = length boards.
Proof.
  intros result.
  pose proof (handleBoardDrop_content boards draggingBoard sourceBoardId targetBoardId)
    as Hperm.
  fold result in Hperm.
  split; [exact Hperm|]. split.
  - rewrite !allTaskIds_content. now apply Permutation_flat_map.
  - apply Permutation_length in Hperm. now rewrite !length_map in Hperm.
Qed.

(** ** The masonry layout *)

Lemma distributeItems_snoc {A} (items : list A) (x : A) columnCount :
  distributeItems (items ++ [x]) columnCount
  = match distributeItems items columnCount with
    | Js.Normal cols =>
        match cols !! (length items mod columnCount)%nat with
        | Some col =>
            Js.Normal (<[(length items mod columnCount)%nat := col ++ [x]]> cols)
        | None => Js.TypeError
        end
    | Js.TypeError => Js.TypeError
    end.
Proof.
  unfold distributeItems. rewrite imap_app, fold_left_app. cbn [imap fold_left fst snd].
  rewrite Nat.add_0_r. reflexivity.
Qed.

Lemma concat_insert_snoc {A} (cols : list (list A)) c col x :
  cols !! c = Some col ->
  Permutation (concat (<[c := col ++ [x]]> cols)) (x :: concat cols).
Proof.
  revert c. induction cols as [|d cols IH]; intros [|c] H; try discriminate.
  - injection H as ->. cbn. rewrite <- app_assoc. cbn.
    symmetry. apply Permutation_middle.
  - cbn. rewrite (IH c H). symmetry. apply Permutation_middle.
Qed.

Lemma distributeItems_columns {A} (items : list A) (columnCount : nat) :
  (0 < columnCount)%nat ->
  exists cols,
    distributeItems items columnCount = Js.Normal cols /\
    length cols = columnCount /\
    (forall c col, cols !! c = Some col ->
                   forall k, col !! k = items !! (k * columnCount + c)%nat) /\
    Permutation (concat cols) items.
Proof.
  intros Hn. induction items as [|x items IH] using rev_ind.
  - exists (replicate columnCount []). split; [reflexivity|].
    split; [apply length_replicate|]. split.
    + intros c col Hc k. apply lookup_replicate in Hc as [-> _]. reflexivity.
    + clear. induction columnCount; [reflexivity | assumption].
  - destruct IH as (cols & Hd & Hlen & Hspec & Hperm).
    set (m := length items). set (c0 := (m mod columnCount)%nat).
    assert (Hc0 : (c0 < columnCount)%nat) by (apply Nat.mod_upper_bound; lia).
    destruct (lookup_lt_is_Some_2 cols c0) as [col0 Hcol0]; [lia|].
    exists (<[c0 := col0 ++ [x]]> cols).
    split; [rewrite distributeItems_snoc, Hd; fold m; fold c0; now rewrite Hcol0|].
    split; [now rewrite length_insert|]. split.
    + pose proof (Nat.div_mod_eq m columnCount) as Hm. fold c0 in Hm.
      set (q := (m / columnCount)%nat) in *.
      intros c col Hc k.
      assert (Hc' : (c < columnCount)%nat).
      { apply lookup_lt_Some in Hc. rewrite length_insert in Hc. lia. }
      destruct (decide (c = c0)) as [->|Hne].
      * rewrite list_lookup_insert_eq in Hc by lia. injection Hc as <-.
        assert (Hq : length col0 = q).
        { destruct (Nat.lt_trichotomy (length col0) q) as [Hlt|[Heq|Hgt]]; [|exact Heq|].
          - exfalso. pose proof (Hspec c0 col0 Hcol0 (length col0)) as Hk.
            rewrite lookup_ge_None_2 in Hk by lia.
            symmetry in Hk. apply lookup_ge_None in Hk. fold m in Hk. nia.
          - exfalso. pose proof (Hspec c0 col0 Hcol0 q) as Hk.
            rewrite (lookup_ge_None_2 items) in Hk by (fold m; nia).
            apply lookup_ge_None in Hk. lia. }
        destruct (Nat.lt_trichotomy k q) as [Hlt|[->|Hgt]].
        -- rewrite lookup_app_l by lia. rewrite lookup_app_l by (fold m; nia).
           now apply Hspec.
        -- rewrite lookup_app_r by lia. rewrite lookup_app_r by (fold m; nia).
           rewrite Hq, Nat.sub_diag. fold m.
           replace (q * columnCount + c0 - m)%nat with 0%nat by nia. reflexivity.
        -- rewrite !lookup_ge_None_2; [reflexivity | |];
             rewrite length_app; cbn [length]; fold m; nia.
      * rewrite list_lookup_insert_ne in Hc by congruence.
        rewrite (Hspec c col Hc k).
        destruct (Nat.lt_ge_cases (k * columnCount + c) m) as [Hlt|Hge].
        -- now rewrite lookup_app_l.
        -- rewrite !lookup_ge_None_2; [reflexivity | | exact Hge].
           rewrite length_app. cbn [length]. fold m.
           assert (k * columnCount + c <> m)%nat; [|lia].
           intros Heq. apply Hne. unfold c0. rewrite <- Heq.
           rewrite Nat.add_comm, Nat.Div0.mod_add. symmetry. now apply Nat.mod_small.
    + rewrite (concat_insert_snoc _ _ _ _ Hcol0), Hperm.
      apply Permutation_cons_append.
Qed.

Lemma fold_left_TypeError {A B} (f : Js.completion A -> B -> Js.completion A) l :
  (forall b, f Js.TypeError b = Js.TypeError) -> fold_left f l Js.TypeError = Js.TypeError.
Proof. intros H. induction l as [|b l IH]; [reflexivity|]. cbn. now rewrite H. Qed.

(** X19.  [distributeItems] deals the items to the columns in turn: with a
    positive column count it makes that many columns, column [c] holds the
    items at the indices [c], [c + columnCount], [c + 2 columnCount], ... in
    that sequence, and every item is in exactly one column.  With a column
    count of 0 it returns no columns for no items and raises a TypeError as
    soon as there is an item. *)
Theorem distributeItems_round_robin {A : Type} (items : list A) (columnCount : nat) :
  ((0 < columnCount)%nat ->
   exists cols,
     distributeItems items columnCount = Js.Normal cols /\
     length cols = columnCount /\
     (forall c col, cols !! c = Some col ->
                    forall k, col !! k = items !! (k * columnCount + c)%nat) /\
     Permutation (concat cols) items) /\
  (columnCount = 0%nat ->
   distributeItems items columnCount
   = match items with [] => Js.Normal [] | _ :: _ => Js.TypeError end).
Proof.
  split; [apply distributeItems_columns|].
  intros ->. destruct items as [|x items]; [reflexivity|].
  unfold distributeItems. cbn [imap fold_left replicate lookup list_lookup fst snd].
  apply fold_left_TypeError. reflexivity.
Qed.

Lemma distributeItems_round_robin_witness :
  (exists cols,
     distributeItems (map Board.id defaultBoards ++ ["board-4"; "board-5"]) 2
     = Js.Normal cols /\
     length cols = 2%nat /\
     (forall c col, cols !! c = Some col ->
                    forall k, col !! k
                              = (map Board.id defaultBoards ++ ["board-4"; "board-5"])
                                  !! (k * 2 + c)%nat) /\
     Permutation (concat cols) (map Board.id defaultBoards ++ ["board-4"; "board-5"])) /\
  distributeItems (map Board.id defaultBoards) 0 = Js.TypeError.
Proof.
  split.
  - apply (proj1 (distributeItems_round_robin
                    (map Board.id defaultBoards ++ ["board-4"; "board-5"]) 2)). lia.
  - apply (proj2 (distributeItems_round_robin (map Board.id defaultBoards) 0)). reflexivity.
Defined.

(** *** The number of columns *)

Lemma defineKey_In_1 key value props e :
  In e (defineKey key value props) -> e = (key, value) \/ In e props.
Proof.
  induction props as [|[key' value'] rest IH]; cbn [defineKey].
  - intros [<-|[]]. now left.
  - destruct (key <? key')%N; [intros [<-|H]; [now left | now right]|].
    destruct (key =? key')%N.
    + intros [<-|H]; [now left | right; now right].
    + intros [<-|H]; [right; now left|].
      destruct (IH H) as [->|Hin]; [now left | right; now right].
Qed.

Lemma defineKey_sorted key value props :
  StronglySorted (fun a b => (fst a < fst b)%N) props ->
  StronglySorted (fun a b => (fst a < fst b)%N) (defineKey key value props).
Proof.
  induction 1 as [|[key' value'] rest Hs IH Hc]; [repeat constructor|].
  cbn [defineKey]. destruct (N.ltb_spec key key') as [Hlt|Hge].
  - constructor; [now constructor|]. constructor; [exact Hlt|].
    eapply Forall_impl; [exact Hc|]. cbn. intros; lia.
  - destruct (N.eqb_spec key key') as [->|Hne].
    + constructor; assumption.
    + constructor; [exact IH|]. apply List.Forall_forall. intros e He.
      destruct (defineKey_In_1 _ _ _ _ He) as [->|Hin]; [cbn; lia|].
      now apply (proj1 (List.Forall_forall _ _) Hc).
Qed.

Lemma defineKey_In key value props k v :
  StronglySorted (fun a b => (fst a < fst b)%N) props ->
  In (k, v) (defineKey key value props)
  <-> (k, v) = (key, value) \/ (In (k, v) props /\ k <> key).
Proof.
  induction 1 as [|[key' value'] rest Hs IH Hc]; cbn [defineKey].
  - cbn. intuition congruence.
  - assert (Hrest : forall e, In e rest -> (key' < fst e)%N)
      by (apply List.Forall_forall; exact Hc).
    destruct (N.ltb_spec key key') as [Hlt|Hge].
    + cbn [In]. split.
      * intros [H|[H|H]]; [left; congruence | right | right].
        -- injection H as <- <-. split; [now left | lia].
        -- split; [now right|]. specialize (Hrest _ H). cbn in Hrest. lia.
      * intros [H|[[H|H] _]]; [left; congruence | right; now left | right; now right].
    + destruct (N.eqb_spec key key') as [->|Hne].
      * cbn [In]. split.
        -- intros [H|H]; [left; congruence|]. right. split; [now right|].
           specialize (Hrest _ H). cbn in Hrest. lia.
        -- intros [H|[[H|H] Hk]]; [left; congruence | congruence | now right].
      * cbn [In]. rewrite IH. split.
        -- intros [H|[H|[H Hk]]]; [right | now left | right].
           ++ injection H as <- <-. split; [now left | congruence].
           ++ split; [now right | exact Hk].
        -- intros [H|[[H|H] Hk]]; [right; now left | now left | right; right; now split].
Qed.

Lemma numericKeys_from_sorted literal props :
  StronglySorted (fun a b => (fst a < fst b)%N) props ->
  StronglySorted (fun a b => (fst a < fst b)%N)
    (fold_left (fun props entry => defineKey (fst entry) (snd entry) props) literal props).
Proof.
  revert props. induction literal as [|e literal IH]; intros props Hs; [exact Hs|].
  cbn [fold_left]. apply IH. now apply defineKey_sorted.
Qed.

Lemma numericKeys_from_In literal props k v :
  StronglySorted (fun a b => (fst a < fst b)%N) props ->
  List.NoDup (map fst literal) ->
  In (k, v) (fold_left (fun props entry => defineKey (fst entry) (snd entry) props)
               literal props)
  <-> In (k, v) literal \/ (In (k, v) props /\ ~ In k (map fst literal)).
Proof.
  revert props. induction literal as [|[key value] literal IH]; intros props Hs Hnd.
  - cbn. tauto.
  - cbn [fold_left fst snd map] in *. apply List.NoDup_cons_iff in Hnd as [Hkey Hnd].
    rewrite (IH _ (defineKey_sorted key value props Hs) Hnd), (defineKey_In _ _ _ _ _ Hs).
    cbn [In]. split.
    + intros [H|[[H|[H Hk]] Hnot]].
      * left. now right.
      * left. left. congruence.
      * right. split; [exact H|]. intros [Heq|Hin]; [congruence | contradiction].
    + intros [[H|H]|[H Hnot]].
      * right. split; [left; congruence|]. injection H as <- <-. exact Hkey.
      * now left.
      * right. split; [right; split; [exact H|] |]; intros Heq; apply Hnot;
          [left; congruence | now right].
Qed.

Lemma updateColumns_above entries width start :
  (forall e, In e entries -> (width < fst e)%N) ->
  fold_left (fun newColumns (entry : N * nat) =>
               if (fst entry <=? width)%N then snd entry else newColumns) entries start
  = start.
Proof.
  revert start. induction entries as [|e entries IH]; intros start H; [reflexivity|].
  cbn [fold_left]. destruct (N.leb_spec (fst e) width) as [Hle|_].
  - specialize (H e (or_introl eq_refl)). lia.
  - apply IH. intros e' He'. apply H. now right.
Qed.

Lemma updateColumns_largest entries width start k v :
  StronglySorted (fun a b => (fst a < fst b)%N) entries ->
  In (k, v) entries -> (k <= width)%N ->
  (forall e, In e entries -> (fst e <= width)%N -> (fst e <= k)%N) ->
  fold_left (fun newColumns (entry : N * nat) =>
               if (fst entry <=? width)%N then snd entry else newColumns) entries start
  = v.
Proof.
  intros Hs. revert start. induction Hs as [|e entries Hs IH Hc]; intros start Hin Hle Hmax;
    [contradiction|].
  cbn [fold_left]. destruct Hin as [->|Hin].
  - cbn [fst snd]. destruct (N.leb_spec k width) as [_|?]; [|lia].
    apply updateColumns_above. intros e' He'.
    assert (k < fst e')%N by (apply (proj1 (List.Forall_forall _ _) Hc e' He')).
    destruct (N.lt_ge_cases width (fst e')) as [?|Hge]; [assumption|].
    specialize (Hmax e' (or_intror He') Hge). lia.
  - apply IH; [exact Hin | exact Hle |]. intros e' He'. apply Hmax. now right.
Qed.

(** X20.  [updateColumns] gives the number of columns of the largest
    breakpoint that is not above the window width, whatever the order in
    which the breakpoints are written in [breakpointCols], and the default
    number when the width is below every breakpoint.  (The breakpoints are
    array indices, each written once.) *)
Theorem updateColumns_largest_breakpoint (breakpointCols : BreakpointCols) (width : N) :
  Forall (fun entry => (fst entry < 4294967295)%N) (numbered breakpointCols) ->
  List.NoDup (map fst (numbered breakpointCols)) ->
  ((forall k v, In (k, v) (numbered breakpointCols) -> (width < k)%N) ->
   updateColumns breakpointCols width = defaultColumns breakpointCols) /\
  (forall k v,
     In (k, v) (numbered breakpointCols) -> (k <= width)%N ->
     (forall k' v', In (k', v') (numbered breakpointCols) -> (k' <= width)%N -> (k' <= k)%N) ->
     updateColumns breakpointCols width = v).
Proof.
  intros _ Hnd. unfold updateColumns, numericKeys.
  assert (Hin : forall k v,
             In (k, v) (fold_left (fun props entry => defineKey (fst entry) (snd entry) props)
                          (numbered breakpointCols) [])
             <-> In (k, v) (numbered breakpointCols)).
  { intros k v. rewrite numericKeys_from_In by (constructor || assumption).
    cbn. tauto. }
  split.
  - intros Habove. apply updateColumns_above. intros [k v] He. cbn.
    apply (Habove k v). now apply Hin.
  - intros k v Hkv Hle Hmax. apply (updateColumns_largest _ _ _ k v).
    + apply numericKeys_from_sorted. constructor.
    + now apply Hin.
    + exact Hle.
    + intros [k' v'] He Hle'. cbn in *. apply (Hmax k' v'); [now apply Hin | exact Hle'].
Qed.

Lemma updateColumns_largest_breakpoint_witness :
  updateColumns breakpointColumnsObj 700 = 2%nat.
Proof.
  destruct (updateColumns_largest_breakpoint breakpointColumnsObj 700) as [_ H].
  - repeat constructor.
  - vm_compute. repeat constructor; cbn; intuition discriminate.
  - apply (H 640%N 2%nat).
    + cbn. tauto.
    + discriminate.
    + intros k' v' Hin Hle. cbn in Hin.
      repeat (destruct Hin as [Hin|Hin]; [injection Hin as <- <-; lia|]).
      contradiction.
Defined.

(** X21.  With [breakpointColumnsObj] of the application the boards are laid
    out in 4 columns from a width of 2000 on, in 3 from 1280, in 2 from 640
    and in 1 from 500; below 500 no breakpoint applies and the default of 4
    columns is used. *)
Theorem updateColumns_of_the_application (width : N) :
  updateColumns breakpointColumnsObj width
  = if (width <? 500)%N then 4%nat
    else if (width <? 640)%N then 1%nat
    else if (width <? 1280)%N then 2%nat
    else if (width <? 2000)%N then 3%nat
    else 4%nat.
Proof.
  unfold updateColumns.
  change (numericKeys (numbered breakpointColumnsObj))
    with [ (500%N, 1%nat); (640%N, 2%nat); (768%N, 2%nat); (1024%N, 2%nat);
           (1280%N, 3%nat); (1536%N, 3%nat); (2000%N, 4%nat) ].
  cbn [fold_left fst snd defaultColumns breakpointColumnsObj].
  repeat match goal with
         | |- context [(?a <=? ?b)%N] => destruct (N.leb_spec a b); try lia
         | |- context [(?a <? ?b)%N] => destruct (N.ltb_spec a b); try lia
         end; reflexivity.
Qed.

(** ** [JSON.parse] reads back what [JSON.stringify(value, null, 2)] writes *)

Module IndentedFacts.
Import Json.

Lemma whitespace_cases c :
  isWhitespace c = true ->
  c = ascii_of_nat 32 \/ c = ascii_of_nat 9 \/ c = ascii_of_nat 10 \/ c = ascii_of_nat 13.
Proof.
  destruct c as [[] [] [] [] [] [] [] []]; cbn; intros H; try discriminate; tauto.
Qed.

Lemma delimited_cases rest :
  delimited rest ->
  rest = [] \/ exists c tail, rest = c :: tail /\
    (c = ","%char \/ c = "]"%char \/ c = "}"%char \/ c = ascii_of_nat 32 \/
     c = ascii_of_nat 9 \/ c = ascii_of_nat 10 \/ c = ascii_of_nat 13).
Proof.
  destruct rest as [|c tail]; [now left|]. cbn [delimited]. intros H. right. exists c, tail.
  split; [reflexivity|].
  apply orb_true_iff in H as [H|H]; [|apply whitespace_cases in H; tauto].
  apply orb_true_iff in H as [H|H]; [apply orb_true_iff in H as [H|H]|];
    apply JsonFacts.isChar_eq in H; subst; tauto.
Qed.

Ltac delimited_by H :=
  let c := fresh "c" in
  let tail := fresh "tail" in
  let Hc := fresh "Hc" in
  destruct (delimited_cases _ H)
    as [-> | (c & tail & -> & [Hc | [Hc | [Hc | [Hc | [Hc | [Hc | Hc]]]]]])];
  [| subst c ..].

Lemma readDigits_delimited rest : delimited rest -> readDigits rest = (Decimal.Nil, rest).
Proof.
  intros H. delimited_by H; [reflexivity|..];
    cbn [readDigits]; destruct (readDigits tail); reflexivity.
Qed.

Lemma readDigits_uintChars_delimited d rest :
  delimited rest -> readDigits (uintChars d ++ rest) = (d, rest).
Proof.
  intros H. induction d; cbn [uintChars app readDigits];
    [now apply readDigits_delimited | rewrite IHd; reflexivity ..].
Qed.

Lemma readNumber_delimited negative d rest :
  d <> Decimal.Nil -> leadingZero d = false -> delimited rest ->
  readNumber negative (uintChars d ++ rest)
  = Some (Number (Z.of_int (if negative then Decimal.Neg d else Decimal.Pos d)), rest).
Proof.
  intros Hd Hz H. unfold readNumber. rewrite (readDigits_uintChars_delimited d rest H), Hz.
  destruct d; [contradiction|..]; (delimited_by H; reflexivity).
Qed.

Lemma parseValue_number_delimited fuel z rest :
  delimited rest -> parseValue (S fuel) (printNumber z ++ rest) = Some (Number z, rest).
Proof.
  intros H. destruct (JsonFacts.printNumber_nonnil z)
    as (d & Hd & Hlz & [[Hp Hz]|[Hp Hz]]); rewrite Hp.
  - destruct (JsonFacts.uintChars_head d Hd)
      as (c & cs & Hc & Hw & Hn & Ht & Hf & Hq & Ha & Ho & Hm & _).
    cbn [parseValue]. rewrite Hc. cbn [app skipWhitespace].
    rewrite Hw, Hn, Ht, Hf, Hq, Ha, Ho, Hm.
    change (c :: cs ++ rest) with ((c :: cs) ++ rest). rewrite <- Hc.
    rewrite (readNumber_delimited false d rest Hd Hlz H), <- Hz, of_to. reflexivity.
  - change (("-"%char :: uintChars d) ++ rest) with ("-"%char :: (uintChars d ++ rest)).
    rewrite JsonFacts.parseValue_minus, (readNumber_delimited true d rest Hd Hlz H),
      <- Hz, of_to.
    reflexivity.
Qed.

Lemma skipWhitespace_app ws cs :
  Forall (fun c => isWhitespace c = true) ws ->
  skipWhitespace (ws ++ cs) = skipWhitespace cs.
Proof.
  induction 1 as [|c ws Hc _ IH]; [reflexivity|]. cbn [app skipWhitespace]. now rewrite Hc.
Qed.

Lemma parseValue_skip fuel ws cs :
  Forall (fun c => isWhitespace c = true) ws ->
  parseValue fuel (ws ++ cs) = parseValue fuel cs.
Proof.
  intros H. destruct fuel as [|fuel]; [reflexivity|].
  cbn [parseValue]. now rewrite skipWhitespace_app.
Qed.

Lemma parseElements_skip fuel ws cs :
  Forall (fun c => isWhitespace c = true) ws ->
  parseElements fuel (ws ++ cs) = parseElements fuel cs.
Proof.
  intros H. destruct fuel as [|fuel]; [reflexivity|].
  cbn [parseElements]. now rewrite parseValue_skip.
Qed.

Lemma parseMembers_skip fuel ws cs :
  Forall (fun c => isWhitespace c = true) ws ->
  parseMembers fuel (ws ++ cs) = parseMembers fuel cs.
Proof.
  intros H. destruct fuel as [|fuel]; [reflexivity|].
  cbn [parseMembers]. now rewrite skipWhitespace_app.
Qed.

Lemma whitespace_gap indent :
  Forall (fun c => isWhitespace c = true) indent ->
  Forall (fun c => isWhitespace c = true) (indent ++ gap).
Proof. intros H. apply Forall_app. split; [exact H | repeat constructor]. Qed.

Lemma whitespace_line indent :
  Forall (fun c => isWhitespace c = true) indent ->
  Forall (fun c => isWhitespace c = true) (newline :: indent).
Proof. intros H. constructor; [reflexivity | exact H]. Qed.

(** An indented value starts with the character its plain print starts
    with. *)
Lemma printIndented_head indent v :
  exists c cs, printIndented indent v = c :: cs /\
    isWhitespace c = false /\ isChar c "]" = false /\ isChar c "}" = false.
Proof.
  destruct v as [| b | z | s | [|x items] | [|[k x] members]];
    try apply (JsonFacts.print_head _);
    (eexists _, _; split; [reflexivity|]; repeat split; reflexivity).
Qed.

Lemma printIndented_Array indent x items :
  printIndented indent (Array (x :: items))
  = "["%char :: newline :: (indent ++ gap) ++
    elementsIndented (indent ++ gap) (x :: items) ++ newline :: indent ++ chars "]".
Proof. reflexivity. Qed.

Lemma printIndented_Object indent m members :
  printIndented indent (Object (m :: members))
  = "{"%char :: newline :: (indent ++ gap) ++
    propertiesIndented (indent ++ gap) (m :: members) ++ newline :: indent ++ chars "}".
Proof. destruct m. reflexivity. Qed.

Lemma elementsIndented_more indent x y l rest :
  elementsIndented indent (x :: y :: l) ++ rest
  = printIndented indent x ++
    ","%char :: (newline :: indent) ++ elementsIndented indent (y :: l) ++ rest.
Proof.
  change (elementsIndented indent (x :: y :: l))
    with (printIndented indent x ++
          chars "," ++ newline :: indent ++ elementsIndented indent (y :: l)).
  rewrite <- !app_assoc. cbn [chars list_ascii_of_string app]. now rewrite <- app_assoc.
Qed.

Lemma elementsIndented_last indent x rest :
  elementsIndented indent [x] ++ rest = printIndented indent x ++ rest.
Proof.
  change (elementsIndented indent [x]) with (printIndented indent x ++ []).
  now rewrite app_nil_r.
Qed.

Lemma propertiesIndented_more indent k x m l rest :
  propertiesIndented indent ((k, x) :: m :: l) ++ rest
  = quote k ++ ":"%char :: [ascii_of_nat 32] ++ printIndented indent x ++
    ","%char :: (newline :: indent) ++ propertiesIndented indent (m :: l) ++ rest.
Proof.
  change (propertiesIndented indent ((k, x) :: m :: l))
    with (quote k ++ chars ": " ++ printIndented indent x ++
          chars "," ++ newline :: indent ++ propertiesIndented indent (m :: l)).
  rewrite <- !app_assoc. cbn [chars list_ascii_of_string app]. now rewrite <- app_assoc.
Qed.

Lemma propertiesIndented_last indent k x rest :
  propertiesIndented indent [(k, x)] ++ rest
  = quote k ++ ":"%char :: [ascii_of_nat 32] ++ printIndented indent x ++ rest.
Proof.
  change (propertiesIndented indent [(k, x)])
    with (quote k ++ chars ": " ++ printIndented indent x ++ []).
  rewrite app_nil_r, <- !app_assoc. reflexivity.
Qed.

Lemma printIndented_Array_rest indent x items rest :
  printIndented indent (Array (x :: items)) ++ rest
  = "["%char :: (newline :: indent ++ gap) ++
    (elementsIndented (indent ++ gap) (x :: items) ++ newline :: indent ++ "]"%char :: rest).
Proof.
  rewrite printIndented_Array.
  repeat (rewrite <- app_assoc || cbn [app chars list_ascii_of_string]). reflexivity.
Qed.

Lemma printIndented_Object_rest indent m members rest :
  printIndented indent (Object (m :: members)) ++ rest
  = "{"%char :: (newline :: indent ++ gap) ++
    (propertiesIndented (indent ++ gap) (m :: members) ++
     newline :: indent ++ "}"%char :: rest).
Proof.
  rewrite printIndented_Object.
  repeat (rewrite <- app_assoc || cbn [app chars list_ascii_of_string]). reflexivity.
Qed.

Lemma parseValue_array_indented fuel ws c cs :
  Forall (fun c => isWhitespace c = true) ws ->
  isWhitespace c = false -> isChar c "]" = false ->
  parseValue (S fuel) ("["%char :: ws ++ c :: cs)
  = option_map (fun '(items, after) => (Array items, after)) (parseElements fuel (c :: cs)).
Proof.
  intros Hws Hw Hc.
  change (parseValue (S fuel) ("["%char :: ws ++ c :: cs))
    with (match skipWhitespace (ws ++ c :: cs) with
          | c' :: rest' =>
              if isChar c' "]" then Some (Array [], rest')
              else option_map (fun '(items, after) => (Array items, after))
                     (parseElements fuel (c' :: rest'))
          | [] => None
          end).
  rewrite skipWhitespace_app by assumption. cbn [skipWhitespace]. now rewrite Hw, Hc.
Qed.

Lemma parseValue_object_indented fuel ws c cs :
  Forall (fun c => isWhitespace c = true) ws ->
  isWhitespace c = false -> isChar c "}" = false ->
  parseValue (S fuel) ("{"%char :: ws ++ c :: cs)
  = option_map (fun '(members, after) => (Object members, after))
      (parseMembers fuel (c :: cs)).
Proof.
  intros Hws Hw Hc.
  change (parseValue (S fuel) ("{"%char :: ws ++ c :: cs))
    with (match skipWhitespace (ws ++ c :: cs) with
          | c' :: rest' =>
              if isChar c' "}" then Some (Object [], rest')
              else option_map (fun '(members, after) => (Object members, after))
                     (parseMembers fuel (c' :: rest'))
          | [] => None
          end).
  rewrite skipWhitespace_app by assumption. cbn [skipWhitespace]. now rewrite Hw, Hc.
Qed.

Lemma delimited_newline cs : delimited (newline :: cs).
Proof. reflexivity. Qed.

Lemma delimited_comma cs : delimited (","%char :: cs).
Proof. reflexivity. Qed.

(** Reading an indented value gives the value back and stops right after
    it. *)
Lemma parseValue_printIndented v :
  forall fuel indent rest,
    Forall (fun c => isWhitespace c = true) indent ->
    (size v <= fuel)%nat -> delimited rest ->
    parseValue fuel (printIndented indent v ++ rest) = Some (v, rest).
Proof.
  induction v as [| b | z | s | items IH | members IH] using JsonFacts.value_ind';
    intros [|fuel] indent rest Hind Hfuel Hrest; try (cbn in Hfuel; lia).
  - apply JsonFacts.parseValue_null.
  - destruct b; [apply JsonFacts.parseValue_true | apply JsonFacts.parseValue_false].
  - now apply parseValue_number_delimited.
  - apply JsonFacts.parseValue_string.
  - cbn [size] in Hfuel. apply le_S_n in Hfuel.
    destruct items as [|x items']; [reflexivity|].
    rewrite printIndented_Array_rest.
    assert (Hel : forall l fuel',
               Forall (fun v => forall fuel indent rest,
                         Forall (fun c => isWhitespace c = true) indent ->
                         (size v <= fuel)%nat -> delimited rest ->
                         parseValue fuel (printIndented indent v ++ rest) = Some (v, rest)) l ->
               l <> [] -> (list_sum (map (fun x => S (size x)) l) <= fuel')%nat ->
               parseElements fuel'
                 (elementsIndented (indent ++ gap) l ++ newline :: indent ++ "]"%char :: rest)
               = Some (l, rest)).
    { clear - Hind. induction l as [|y l' IHl]; intros fuel' Hall Hne Hsum; [contradiction|].
      apply Forall_cons_iff in Hall as [Hy Hall].
      rewrite JsonFacts.list_sum_map_cons in Hsum.
      destruct fuel' as [|fuel']; [lia|].
      destruct l' as [|y' l''].
      - rewrite elementsIndented_last. cbn [parseElements].
        rewrite (Hy fuel' (indent ++ gap) (newline :: indent ++ "]"%char :: rest));
          [| now apply whitespace_gap | lia | apply delimited_newline].
        change (newline :: indent ++ "]"%char :: rest)
          with ((newline :: indent) ++ "]"%char :: rest).
        rewrite skipWhitespace_app by (now apply whitespace_line). reflexivity.
      - rewrite elementsIndented_more.
        rewrite (JsonFacts.parseElements_comma fuel' _ y
                   ((newline :: indent ++ gap) ++
                    elementsIndented (indent ++ gap) (y' :: l'') ++
                    newline :: indent ++ "]"%char :: rest)).
        + rewrite parseElements_skip by (apply whitespace_line; now apply whitespace_gap).
          rewrite IHl; [reflexivity | assumption | discriminate | lia].
        + apply Hy; [now apply whitespace_gap | lia | apply delimited_comma]. }
    destruct (printIndented_head (indent ++ gap) x) as (c & cs & Hc & Hw & Hb & _).
    assert (Hstart : exists cs',
               elementsIndented (indent ++ gap) (x :: items') ++
               newline :: indent ++ "]"%char :: rest = c :: cs').
    { change (elementsIndented (indent ++ gap) (x :: items'))
        with (printIndented (indent ++ gap) x ++
              match items' with
              | [] => []
              | _ :: _ => chars "," ++ newline :: (indent ++ gap) ++
                          elementsIndented (indent ++ gap) items'
              end).
      rewrite Hc. eexists. reflexivity. }
    destruct Hstart as [cs' Hstart]. rewrite Hstart.
    rewrite parseValue_array_indented
      by (assumption || (apply whitespace_line; now apply whitespace_gap)).
    rewrite <- Hstart, Hel; [reflexivity | assumption | discriminate | assumption].
  - cbn [size] in Hfuel. apply le_S_n in Hfuel.
    destruct members as [|[k x] members']; [reflexivity|].
    rewrite printIndented_Object_rest.
    assert (Hel : forall l fuel',
               Forall (fun m => forall fuel indent rest,
                         Forall (fun c => isWhitespace c = true) indent ->
                         (size (snd m) <= fuel)%nat -> delimited rest ->
                         parseValue fuel (printIndented indent (snd m) ++ rest)
                         = Some (snd m, rest)) l ->
               l <> [] -> (list_sum (map (fun m => S (size (snd m))) l) <= fuel')%nat ->
               parseMembers fuel'
                 (propertiesIndented (indent ++ gap) l ++ newline :: indent ++ "}"%char :: rest)
               = Some (l, rest)).
    { clear - Hind. induction l as [|[j y] l' IHl]; intros fuel' Hall Hne Hsum;
        [contradiction|].
      apply Forall_cons_iff in Hall as [Hy Hall].
      rewrite JsonFacts.list_sum_map_cons in Hsum. cbn [snd] in Hsum, Hy.
      destruct fuel' as [|fuel']; [lia|].
      destruct l' as [|m' l''].
      - rewrite propertiesIndented_last, JsonFacts.parseMembers_key.
        rewrite parseValue_skip by (repeat constructor).
        rewrite (Hy fuel' (indent ++ gap) (newline :: indent ++ "}"%char :: rest));
          [| now apply whitespace_gap | lia | apply delimited_newline].
        change (newline :: indent ++ "}"%char :: rest)
          with ((newline :: indent) ++ "}"%char :: rest).
        rewrite skipWhitespace_app by (now apply whitespace_line). reflexivity.
      - rewrite propertiesIndented_more, JsonFacts.parseMembers_key.
        rewrite parseValue_skip by (repeat constructor).
        rewrite (Hy fuel' (indent ++ gap)
                   (","%char :: (newline :: indent ++ gap) ++
                    propertiesIndented (indent ++ gap) (m' :: l'') ++
                    newline :: indent ++ "}"%char :: rest));
          [| now apply whitespace_gap | lia | apply delimited_comma].
        cbn [skipWhitespace]. change (isWhitespace ","%char) with false.
        change (isChar ","%char ",") with true. cbv iota.
        rewrite parseMembers_skip by (apply whitespace_line; now apply whitespace_gap).
        rewrite IHl; [reflexivity | assumption | discriminate | lia]. }
    assert (Hstart : exists cs',
               propertiesIndented (indent ++ gap) ((k, x) :: members') ++
               newline :: indent ++ "}"%char :: rest = dquote :: cs').
    { change (propertiesIndented (indent ++ gap) ((k, x) :: members'))
        with (quote k ++ chars ": " ++ printIndented (indent ++ gap) x ++
              match members' with
              | [] => []
              | _ :: _ => chars "," ++ newline :: (indent ++ gap) ++
                          propertiesIndented (indent ++ gap) members'
              end).
      unfold quote. eexists. reflexivity. }
    destruct Hstart as [cs' Hstart]. rewrite Hstart.
    rewrite parseValue_object_indented
      by (reflexivity || (apply whitespace_line; now apply whitespace_gap)).
    rewrite <- Hstart, Hel; [reflexivity | assumption | discriminate | assumption].
Qed.

(** The indented text is at least as long as the plain one. *)
Lemma length_printIndented v :
  forall indent, (length (print v) <= length (printIndented indent v))%nat.
Proof.
  induction v as [| b | z | s | items IH | members IH] using JsonFacts.value_ind';
    intros indent; try (cbn; lia).
  - destruct items as [|x items']; [cbn; lia|].
    rewrite printIndented_Array, JsonFacts.print_Array.
    cbn [length]. rewrite !length_app. cbn [length chars list_ascii_of_string].
    assert (Hel : forall l,
               Forall (fun v => forall indent,
                         (length (print v) <= length (printIndented indent v))%nat) l ->
               (length (elements l) <= length (elementsIndented (indent ++ gap) l))%nat).
    { clear. induction 1 as [|y l Hy _ IHl]; [cbn; lia|].
      destruct l as [|y' l'].
      - change (elements [y]) with (print y ++ []).
        change (elementsIndented (indent ++ gap) [y])
          with (printIndented (indent ++ gap) y ++ []).
        rewrite !length_app. cbn [length].
        specialize (Hy (indent ++ gap)). lia.
      - change (elements (y :: y' :: l'))
          with (print y ++ chars "," ++ elements (y' :: l')).
        change (elementsIndented (indent ++ gap) (y :: y' :: l'))
          with (printIndented (indent ++ gap) y ++ chars "," ++
                newline :: (indent ++ gap) ++ elementsIndented (indent ++ gap) (y' :: l')).
        rewrite !length_app. cbn [length]. rewrite !length_app.
        specialize (Hy (indent ++ gap)). lia. }
    specialize (Hel _ IH). lia.
  - destruct members as [|m members']; [cbn; lia|].
    rewrite printIndented_Object, JsonFacts.print_Object.
    cbn [length]. rewrite !length_app. cbn [length chars list_ascii_of_string].
    assert (Hel : forall l,
               Forall (fun m => forall indent,
                         (length (print (snd m))
                          <= length (printIndented indent (snd m)))%nat) l ->
               (length (properties l) <= length (propertiesIndented (indent ++ gap) l))%nat).
    { clear. induction 1 as [|[k y] l Hy _ IHl]; [cbn; lia|]. cbn [snd] in Hy.
      destruct l as [|m' l'].
      - change (properties [(k, y)]) with (quote k ++ chars ":" ++ print y ++ []).
        change (propertiesIndented (indent ++ gap) [(k, y)])
          with (quote k ++ chars ": " ++ printIndented (indent ++ gap) y ++ []).
        rewrite !length_app. cbn [length chars list_ascii_of_string].
        specialize (Hy (indent ++ gap)). lia.
      - change (properties ((k, y) :: m' :: l'))
          with (quote k ++ chars ":" ++ print y ++ chars "," ++ properties (m' :: l')).
        change (propertiesIndented (indent ++ gap) ((k, y) :: m' :: l'))
          with (quote k ++ chars ": " ++ printIndented (indent ++ gap) y ++ chars "," ++
                newline :: (indent ++ gap) ++ propertiesIndented (indent ++ gap) (m' :: l')).
        rewrite !length_app. cbn [length chars list_ascii_of_string]. rewrite !length_app.
        specialize (Hy (indent ++ gap)). lia. }
    specialize (Hel _ IH). lia.
Qed.

(** [JSON.parse(JSON.stringify(v, null, 2))] is [v]. *)
Lemma parse_stringifyIndented v : parse (stringifyIndented v) = Some v.
Proof.
  unfold parse, stringifyIndented, chars.
  rewrite JsonFacts.length_string_of_list_ascii, list_ascii_of_string_of_list_ascii.
  rewrite <- (app_nil_r (printIndented [] v)) at 2.
  rewrite parseValue_printIndented; [reflexivity | constructor | | exact I].
  pose proof (JsonFacts.size_le_length v). pose proof (length_printIndented v []). lia.
Qed.

Lemma stringifyIndented_nonempty v : String.eqb (stringifyIndented v) "" = false.
Proof.
  unfold stringifyIndented. destruct (printIndented_head [] v) as (c & cs & -> & _).
  reflexivity.
Qed.

End IndentedFacts.

(** ** The component's own persistence *)

(** X22.  What the save effect stores, [getInitialBoards] reads back at the
    next start: after a save that [localStorage] accepts the initial state
    is the tree that was saved, field by field.  After a save that is
    refused (the effect swallows the error) the initial state is what the
    previous content of [localStorage] gives.  With nothing stored or with
    an empty item it is the default tree. *)
Theorem boards_survive_reload
    (fits : gmap string string -> string -> string -> bool)
    (storage : gmap string string) (boards : list Board.t) :
  let after := saveBoardsEffect fits storage boards in
  (fits storage "kanbanBoards" (Json.stringify (boardsToJson boards)) = true ->
   getInitialBoards after = boardsToJson boards /\
   boardsFromJson (getInitialBoards after) = Some boards) /\
  (fits storage "kanbanBoards" (Json.stringify (boardsToJson boards)) = false ->
   getInitialBoards after = getInitialBoards storage) /\
  (storage !! "kanbanBoards" = None \/ storage !! "kanbanBoards" = Some "" ->
   getInitialBoards storage = boardsToJson defaultBoards).
Proof.
  intros after. unfold after, saveBoardsEffect. split; [|split].
  - intros ->. unfold getInitialBoards.
    rewrite lookup_insert_eq, JsonFacts.stringify_nonempty, JsonFacts.parse_stringify.
    split; [reflexivity | apply boardsFromJson_boardsToJson].
  - intros ->. reflexivity.
  - unfold getInitialBoards. intros [-> | ->]; reflexivity.
Qed.

Lemma boards_survive_reload_witness :
  getInitialBoards (saveBoardsEffect (fun _ _ _ => true) ∅ nestedBoards)
  = boardsToJson nestedBoards /\
  boardsFromJson (getInitialBoards (saveBoardsEffect (fun _ _ _ => true) ∅ nestedBoards))
  = Some nestedBoards.
Proof.
  apply (proj1 (boards_survive_reload (fun _ _ _ => true) ∅ nestedBoards)). reflexivity.
Defined.

(** ** The drag payload *)

(** X23.  The payload that [handleTaskDragStart] puts into the data transfer
    is read back by [handleTaskDrop] as the same board id and task id,
    whatever characters the ids hold: the drop does what it does with the
    drag data themselves.  A drop without a drag in progress or with an
    empty payload commits nothing. *)
Theorem drag_payload_round_trip
    (boards : list Board.t) (dragging : DragData) (bId tId : string) (sub : bool)
    (parent : option string) (targetBoardId : string) (targetTaskId : option string) :
  handleTaskDrop_fromEvent boards (Some dragging)
    (snd (handleTaskDragStart bId tId sub parent)) targetBoardId targetTaskId
  = handleTaskDrop boards (Some dragging)
      (Some (fst (handleTaskDragStart bId tId sub parent))) targetBoardId targetTaskId /\
  (forall jsonData,
     handleTaskDrop_fromEvent boards None jsonData targetBoardId targetTaskId = boards) /\
  handleTaskDrop_fromEvent boards (Some dragging) "" targetBoardId targetTaskId = boards.
Proof.
  split; [|split].
  - unfold handleTaskDrop_fromEvent, handleTaskDragStart. cbn [fst snd].
    rewrite JsonFacts.stringify_nonempty, JsonFacts.parse_stringify.
    destruct parent; reflexivity.
  - reflexivity.
  - reflexivity.
Qed.

(** ** [ElectronStorage]: saving, loading, exporting and importing *)

Section ElectronFacts.
Variable fits : gmap string string -> string -> string -> bool.
Variable writable : gmap string string -> string -> string -> bool.
Variable readable : gmap string string -> string -> bool.
Variable dataFile : string -> string.

Lemma loadFromLocalStorage_stored storage key data :
  loadFromLocalStorage (<[key := Json.stringify data]> storage) key = Some data.
Proof.
  unfold loadFromLocalStorage.
  now rewrite lookup_insert_eq, JsonFacts.stringify_nonempty, JsonFacts.parse_stringify.
Qed.

(** X24.  [loadData] after [saveData] under the same key gives the data
    back: in the browser whenever [saveData] reports [true], and under
    Electron whenever the file can be written and read (the file then holds
    the indented text, and [saveData] reports [true]). *)
Theorem saveData_then_loadData (m : machine) (key : string) (data : Json.value) :
  (snd (saveData fits writable dataFile false m key data) = true ->
   loadData readable dataFile false (fst (saveData fits writable dataFile false m key data)) key
   = data) /\
  (writable (files m) (dataFile key) (stringifyIndented data) = true ->
   let m' := fst (saveData fits writable dataFile true m key data) in
   snd (saveData fits writable dataFile true m key data) = true /\
   files m' !! dataFile key = Some (stringifyIndented data) /\
   localStorage m' = localStorage m /\
   (readable (files m') (dataFile key) = true ->
    loadData readable dataFile true m' key = data)).
Proof.
  split.
  - unfold saveData, loadData, saveToLocalStorage.
    destruct (fits (localStorage m) key (Json.stringify data)); cbn; [|discriminate].
    intros _. now rewrite loadFromLocalStorage_stored.
  - intros Hw m'. unfold m', saveData, onSaveData. rewrite Hw. cbn [fst snd files localStorage].
    split; [reflexivity|]. split; [apply lookup_insert_eq|]. split; [reflexivity|].
    intros Hr. unfold loadData, onLoadData. cbn [files].
    now rewrite lookup_insert_eq, Hr, IndentedFacts.parse_stringifyIndented.
Qed.


(** X26.  What [exportData] writes, [importData] reads back and stores under
    the key.  In the browser the downloaded text, given to the file input of
    another window, fulfils the promise with the exported data and (when
    [localStorage] takes the item) [loadData] there gives the same data.
    Under Electron the file written at the path chosen in the save dialog,
    picked in the open dialog, gives the exported data as well.  Data that
    is [null] (or falsy) is not exported. *)
Theorem exportData_then_importData
    (electron : bool) (m : machine) (key : string) (chosen : option string)
    (downloads : bool) :
  let data := loadData readable dataFile electron m key in
  (falsy data = true ->
   exportData writable readable dataFile electron m key chosen downloads
   = (m, NothingExported)) /\
  (falsy data = false -> electron = false -> downloads = true ->
   exportData writable readable dataFile electron m key chosen downloads
   = (m, BrowserDownload (stringifyIndented data)) /\
   forall m2 picked,
     importData fits writable readable dataFile false m2 key picked
       (ChangedWith (stringifyIndented data))
     = (fst (saveData fits writable dataFile false m2 key data), Fulfilled data) /\
     (fits (localStorage m2) key (Json.stringify data) = true ->
      loadData readable dataFile false
        (fst (importData fits writable readable dataFile false m2 key picked
                (ChangedWith (stringifyIndented data)))) key
      = data)) /\
  (forall filePath,
     falsy data = false -> electron = true -> chosen = Some filePath -> filePath <> "" ->
     writable (files m) filePath (stringifyIndented data) = true ->
     let m' := fst (exportData writable readable dataFile electron m key chosen downloads) in
     snd (exportData writable readable dataFile electron m key chosen downloads)
     = ExportedTo filePath /\
     files m' !! filePath = Some (stringifyIndented data) /\
     (readable (files m') filePath = true ->
      forall upload,
        snd (importData fits writable readable dataFile true m' key (Some filePath) upload)
        = Fulfilled data)).
Proof.
  intros data. split; [|split].
  - intros Hfalsy. unfold exportData. fold data. now rewrite Hfalsy.
  - intros Hfalsy -> ->. split.
    + unfold exportData. fold data. now rewrite Hfalsy.
    + intros m2 picked.
      assert (Himport :
                importData fits writable readable dataFile false m2 key picked
                  (ChangedWith (stringifyIndented data))
                = (fst (saveData fits writable dataFile false m2 key data), Fulfilled data)).
      { unfold importData. now rewrite IndentedFacts.parse_stringifyIndented. }
      split; [exact Himport|]. intros Hfits. rewrite Himport. cbn [fst].
      unfold saveData, saveToLocalStorage, loadData. rewrite Hfits. cbn [fst localStorage].
      now rewrite loadFromLocalStorage_stored.
  - intros filePath Hfalsy -> -> Hne Hw m'.
    assert (Hexport :
              exportData writable readable dataFile true m key (Some filePath) downloads
              = (mkMachine (<[filePath := stringifyIndented data]> (files m)) (localStorage m),
                 ExportedTo filePath)).
    { unfold exportData, onExportData. fold data. rewrite Hfalsy, Hw.
      destruct (String.eqb_spec filePath ""); [contradiction | reflexivity]. }
    unfold m'. rewrite Hexport. cbn [fst snd files].
    split; [reflexivity|]. split; [apply lookup_insert_eq|].
    intros Hr upload. unfold importData, onImportData. cbn [files].
    rewrite lookup_insert_eq, Hr, IndentedFacts.parse_stringifyIndented, Hfalsy.
    reflexivity.
Qed.

End ElectronFacts.

Lemma saveData_then_loadData_witness :
  loadData (fun _ _ => true) (fun key => (key ++ ".json")%string) true
    (fst (saveData (fun _ _ _ => true) (fun _ _ _ => true)
            (fun key => (key ++ ".json")%string) true (mkMachine ∅ ∅) "kanbanBoards"
            (boardsToJson defaultBoards)))
    "kanbanBoards"
  = boardsToJson defaultBoards.
Proof.
  apply (proj2 (saveData_then_loadData (fun _ _ _ => true) (fun _ _ _ => true)
                  (fun _ _ => true) (fun key => (key ++ ".json")%string)
                  (mkMachine ∅ ∅) "kanbanBoards" (boardsToJson defaultBoards)));
    reflexivity.
Defined.


Lemma exportData_then_importData_witness :
  let stored :=
    fst (saveData (fun _ _ _ => true) (fun _ _ _ => true)
           (fun key => (key ++ ".json")%string) false (mkMachine ∅ ∅) "kanbanBoards"
           (boardsToJson defaultBoards)) in
  exportData (fun _ _ _ => true) (fun _ _ => true) (fun key => (key ++ ".json")%string)
    false stored "kanbanBoards" None true
  = (stored, BrowserDownload (stringifyIndented (boardsToJson defaultBoards))) /\
  snd (importData (fun _ _ _ => true) (fun _ _ _ => true) (fun _ _ => true)
         (fun key => (key ++ ".json")%string) false (mkMachine ∅ ∅) "kanbanBoards" None
         (ChangedWith (stringifyIndented (boardsToJson defaultBoards))))
  = Fulfilled (boardsToJson defaultBoards).
Proof.
  intros stored.
  destruct (exportData_then_importData (fun _ _ _ => true) (fun _ _ _ => true)
              (fun _ _ => true) (fun key => (key ++ ".json")%string)
              false stored "kanbanBoards" None true) as (_ & Hbrowser & _).
  destruct Hbrowser as [Hexport Himport]; [reflexivity | reflexivity | reflexivity |].
  split.
  - exact Hexport.
  - destruct (Himport (mkMachine ∅ ∅) None) as [-> _]. reflexivity.
Defined.

(** ** The store layer and the value layer *)

(** X27.  On a state in which every element of [boards] refers to a board
    object and no object is in the array twice, every handler leaves such a
    state, and the tree it leaves is the tree that the same handler computes
    as a function of the tree before: writing in place through the copied
    array and building the new tree as a value give the same snapshot. *)
Theorem store_handlers_agree_with_values (s : Shared.state) :
  Shared.wellFormed s ->
  (forall bId write,
     Shared.wellFormed (Shared.onBoard s bId write) /\
     Shared.view (Shared.onBoard s bId write) = onBoard (Shared.view s) bId write) /\
  (forall bId tId v,
     Shared.wellFormed (Shared.updateTaskTitle s bId tId v) /\
     Shared.view (Shared.updateTaskTitle s bId tId v)
     = updateTaskTitle (Shared.view s) bId tId v) /\
  (forall bId tId,
     Shared.wellFormed (Shared.deleteTask s bId tId) /\
     Shared.view (Shared.deleteTask s bId tId) = deleteTask (Shared.view s) bId tId) /\
  (forall stamp bId,
     Shared.wellFormed (Shared.addNewTask s stamp bId) /\
     Shared.view (Shared.addNewTask s stamp bId) = addNewTask (Shared.view s) stamp bId) /\
  (forall bId v,
     Shared.wellFormed (Shared.updateBoardTitle s bId v) /\
     Shared.view (Shared.updateBoardTitle s bId v) = updateBoardTitle (Shared.view s) bId v) /\
  (forall confirmed bId,
     Shared.wellFormed (Shared.deleteBoard s confirmed bId) /\
     Shared.view (Shared.deleteBoard s confirmed bId)
     = deleteBoard (Shared.view s) confirmed bId) /\
  (forall pick stamp,
     Shared.wellFormed (Shared.addNewBoard s pick stamp) /\
     Shared.view (Shared.addNewBoard s pick stamp) = addNewBoard (Shared.view s) pick stamp) /\
  (forall dragging jsonData targetBoardId targetTaskId,
     Shared.wellFormed (Shared.handleTaskDrop s dragging jsonData targetBoardId targetTaskId) /\
     Shared.view (Shared.handleTaskDrop s dragging jsonData targetBoardId targetTaskId)
     = handleTaskDrop (Shared.view s) dragging jsonData targetBoardId targetTaskId) /\
  (forall draggingBoard sourceBoardId targetBoardId,
     Shared.wellFormed (Shared.handleBoardDrop s draggingBoard sourceBoardId targetBoardId) /\
     Shared.view (Shared.handleBoardDrop s draggingBoard sourceBoardId targetBoardId)
     = handleBoardDrop (Shared.view s) draggingBoard sourceBoardId targetBoardId) /\
  (forall bId tId index value,
     Shared.wellFormed
       (Shared.settle s (Shared.contentItem_onChange s bId tId index value)) /\
     Shared.view (Shared.settle s (Shared.contentItem_onChange s bId tId index value))
     = settle (Shared.view s) (contentItem_onChange (Shared.view s) bId tId index value)).
Proof.
  intros Hwf.
  repeat match goal with |- _ /\ _ => split end; intros; split;
    first [ now apply wellFormed_onBoard | now apply view_onBoard
          | now apply wellFormed_updateBoardTitle | now apply view_updateBoardTitle
          | now apply wellFormed_deleteBoard | now apply view_deleteBoard
          | now apply wellFormed_addNewBoard | now apply view_addNewBoard
          | now apply wellFormed_handleTaskDrop | apply view_handleTaskDrop
          | now apply wellFormed_handleBoardDrop | now apply view_handleBoardDrop
          | now apply wellFormed_contentItem_onChange | idtac ].
  pose proof (view_contentItem_onChange s bId tId index value Hwf) as Hv.
  destruct (Shared.contentItem_onChange s bId tId index value); rewrite Hv; reflexivity.
Qed.

Lemma store_handlers_agree_with_values_witness :
  Shared.wellFormed (Shared.deleteTask Shared.defaultState "board-1" "task-1") /\
  Shared.view (Shared.deleteTask Shared.defaultState "board-1" "task-1")
  = deleteTask defaultBoards "board-1" "task-1".
Proof.
  destruct (store_handlers_agree_with_values Shared.defaultState wellFormed_defaultState)
    as (_ & _ & H & _).
  exact (H "board-1" "task-1").
Defined.

(** ** Content edits inside the content *)

(** X28.  With the board found, the task located and an index inside the
    task's content, [deleteContentItem] removes exactly the item at the
    index, and the content input's handler completes and replaces the text
    of the item at the index, keeping its type and the other items.  (The
    indices outside are the matter of the bounds theorem.) *)
Theorem content_edits_inside_bounds
    (boards : list Board.t) (bId tId : string) (index : Z) (value : string)
    (i : nat) (b : Board.t) (x : Task.t) (item : ContentItem) :
  Js.findIndex (fun board => String.eqb (Board.id board) bId) boards = Some i ->
  boards !! i = Some b ->
  locate (Board.tasks b) tId = Some x ->
  0 <= index ->
  Task.content x !! Z.to_nat index = Some item ->
  (exists b',
     deleteContentItem boards tId bId index !! i = Some b' /\
     locate (Board.tasks b') tId
     = Some (Task.setContent x (delete (Z.to_nat index) (Task.content x)))) /\
  (exists result b',
     contentItem_onChange boards bId tId index value = Js.Normal result /\
     result !! i = Some b' /\
     locate (Board.tasks b') tId
     = Some (Task.setContent x
               (<[Z.to_nat index := mkContentItem (type item) value]> (Task.content x))) /\
     (forall j, j <> i -> result !! j = boards !! j)).
Proof.
  intros Hi Hb Hx Hpos Hitem.
  assert (Hlt : (i < length boards)%nat) by (eapply lookup_lt_Some; eassumption).
  split.
  - unfold deleteContentItem. rewrite (onBoard_found _ _ _ _ _ Hi Hb).
    eexists. split; [now apply list_lookup_insert_eq|].
    cbn [Board.tasks Board.setTasks]. unfold removeContentFromTask.
    pose proof (writeFirst_spec
                  (fun y => Task.setContent y (snd (Js.splice (Task.content y) index 1 [])))
                  tId (Board.tasks b)) as Hs.
    rewrite Hx in Hs. destruct Hs as (_ & _ & Hloc).
    rewrite Hloc by (destruct x; reflexivity).
    do 2 f_equal. rewrite <- (Z2Nat.id index) at 1 by assumption.
    now rewrite (splice_remove _ _ _ Hitem).
  - unfold contentItem_onChange. rewrite Hi, Hb.
    pose proof (updateTaskContent_spec tId index value (Board.tasks b)) as Hspec.
    rewrite Hx in Hspec.
    assert (Hget : Js.get (Task.content x) index = Some item).
    { unfold Js.get. destruct (Z.ltb_spec index 0); [lia | exact Hitem]. }
    rewrite Hget in Hspec. destruct Hspec as [tasks' Hu]. rewrite Hu.
    eexists _, _. split; [reflexivity|]. split; [now apply list_lookup_insert_eq|].
    split; [|intros j Hj; now apply list_lookup_insert_ne].
    cbn [Board.tasks Board.setTasks].
    apply updateTaskContent_Normal in Hu.
    pose proof (writeFirst_spec
                  (fun y => match writeContentText y index value with
                            | Js.Normal y' => y'
                            | Js.TypeError => y
                            end) tId (Board.tasks b)) as Hs.
    rewrite Hx, Hu in Hs. cbn [fst snd] in Hs. destruct Hs as (_ & _ & Hloc).
    unfold writeContentText in Hloc. rewrite Hget in Hloc.
    apply Hloc. destruct x; reflexivity.
Qed.

Lemma content_edits_inside_bounds_witness :
  (exists b',
     deleteContentItem defaultBoards "task-1" "board-1" 0 !! 0%nat = Some b' /\
     map Task.content (Board.tasks b')
     = [[mkContentItem "bullet" "Compare pricing models"]]) /\
  (exists result b',
     contentItem_onChange defaultBoards "board-1" "task-1" 1 "Ask users" = Js.Normal result /\
     result !! 0%nat = Some b' /\
     map Task.content (Board.tasks b')
     = [[mkContentItem "bullet" "Check user reviews"; mkContentItem "bullet" "Ask users"]]).
Proof.
  split.
  - destruct (content_edits_inside_bounds defaultBoards "board-1" "task-1" 0 "" 0
                (nth 0 defaultBoards (Board.mk "" "" "" 0 []))
                (nth 0 (Board.tasks (nth 0 defaultBoards (Board.mk "" "" "" 0 []))) taskA)
                (mkContentItem "bullet" "Check user reviews"))
      as [(b' & Hb' & _) _]; [reflexivity | reflexivity | reflexivity | lia | reflexivity |].
    exists b'. split; [exact Hb'|].
    vm_compute in Hb'. injection Hb' as <-. reflexivity.
  - destruct (content_edits_inside_bounds defaultBoards "board-1" "task-1" 1 "Ask users" 0
                (nth 0 defaultBoards (Board.mk "" "" "" 0 []))
                (nth 0 (Board.tasks (nth 0 defaultBoards (Board.mk "" "" "" 0 []))) taskA)
                (mkContentItem "bullet" "Compare pricing models"))
      as [_ (result & b' & Hr & Hb' & _)];
      [reflexivity | reflexivity | reflexivity | lia | reflexivity |].
    exists result, b'. split; [exact Hr|]. split; [exact Hb'|].
    vm_compute in Hr. injection Hr as <-. vm_compute in Hb'. injection Hb' as <-.
    reflexivity.
Defined.

(** ** Unique task ids *)

Lemma forestIds_outline tasks :
  forall tasks', map outlineOf tasks = map outlineOf tasks' -> forestIds tasks = forestIds tasks'.
Proof.
  induction tasks as [|y rest IHsub IHrest] using forest_ind; intros [|y' rest'] H;
    try discriminate; [reflexivity|].
  cbn [map] in H.
  assert (Hy : outlineOf y = outlineOf y') by congruence.
  assert (Hrest : map outlineOf rest = map outlineOf rest') by congruence.
  rewrite (outlineOf_eq y), (outlineOf_eq y') in Hy.
  injection Hy as Hid Hsubs.
  rewrite !forestIds_cons, Hid, (IHsub _ Hsubs), (IHrest _ Hrest). reflexivity.
Qed.

Lemma allTaskIds_outline boards :
  forall boards', map boardOutline boards = map boardOutline boards' ->
                  allTaskIds boards = allTaskIds boards'.
Proof.
  induction boards as [|b rest IH]; intros [|b' rest'] H; try discriminate; [reflexivity|].
  cbn [map] in H.
  assert (Hb : boardOutline b = boardOutline b') by congruence.
  assert (Hrest : map boardOutline rest = map boardOutline rest') by congruence.
  unfold boardOutline in Hb.
  assert (Htasks : map outlineOf (Board.tasks b) = map outlineOf (Board.tasks b'))
    by congruence.
  unfold allTaskIds in *. cbn [flat_map].
  now rewrite (forestIds_outline _ _ Htasks), (IH _ Hrest).
Qed.

Lemma NoDup_flat_map_filter {A B} (f : A -> list B) (q : A -> bool) l :
  List.NoDup (flat_map f l) -> List.NoDup (flat_map f (List.filter q l)).
Proof.
  induction l as [|a l IH]; [trivial|]. cbn [flat_map List.filter]. intros Hnd.
  pose proof (List.NoDup_app_remove_l _ _ Hnd) as Hl.
  destruct (q a); [|now apply IH]. cbn [flat_map].
  apply List.NoDup_app; [now apply List.NoDup_app_remove_r in Hnd | now apply IH |].
  intros s Hs Hin.
  apply (NoDup_middle [] (f a) (flat_map f l) s Hnd Hs). cbn [app].
  apply in_flat_map in Hin as (c & Hc & Hsc). apply in_flat_map. exists c.
  split; [|exact Hsc]. now apply List.filter_In in Hc as [Hc _].
Qed.

Lemma NoDup_deleteTask boards bId tId :
  List.NoDup (allTaskIds boards) -> List.NoDup (allTaskIds (deleteTask boards bId tId)).
Proof.
  intros Hnd. unfold deleteTask.
  destruct (Js.findIndex (fun board => String.eqb (Board.id board) bId) boards)
    as [i|] eqn:Hi; [|now rewrite onBoard_missing].
  destruct (findIndex_Some _ _ _ Hi) as (b & Hb & _).
  rewrite (onBoard_found _ _ _ _ _ Hi Hb), removeTask_eq. cbn [snd].
  pose proof (findAndRemoveTask_spec tId (Board.tasks b)) as Hs.
  destruct (findAndRemoveTask (Board.tasks b) tId) as [[x|] tasks'] eqn:Hrm; cbn [snd].
  - pose proof (removed_ids boards i b tId x tasks' Hb Hrm) as Hp.
    apply (Permutation_NoDup Hp) in Hnd. now apply List.NoDup_app_remove_l in Hnd.
  - destruct Hs as [-> _]. rewrite setTasks_same, (list_insert_id _ _ _ Hb). exact Hnd.
Qed.

(** X29.  Unique task ids are an invariant of the tree: when no two tasks
    of the tree have the same id, the same holds after every handler; for
    [addNewTask] this needs the new id not to be in the tree already. *)
Theorem unique_task_ids_are_kept (boards : list Board.t) :
  List.NoDup (allTaskIds boards) ->
  (forall bId tId v, List.NoDup (allTaskIds (updateTaskTitle boards bId tId v))) /\
  (forall bId tId v, List.NoDup (allTaskIds (taskTitle_onChange boards bId tId v))) /\
  (forall bId tId v, List.NoDup (allTaskIds (description_onChange boards bId tId v))) /\
  (forall bId tId v, List.NoDup (allTaskIds (updateTaskPriority boards bId tId v))) /\
  (forall tId bId v, List.NoDup (allTaskIds (setDueDate boards tId bId v))) /\
  (forall tId bId ty, List.NoDup (allTaskIds (addContentItem boards tId bId ty))) /\
  (forall tId bId index, List.NoDup (allTaskIds (deleteContentItem boards tId bId index))) /\
  (forall bId tId, List.NoDup (allTaskIds (deleteTask boards bId tId))) /\
  (forall stamp bId,
     ~ In ("task-" ++ stamp)%string (allTaskIds boards) ->
     List.NoDup (allTaskIds (addNewTask boards stamp bId))) /\
  (forall dragging jsonData targetBoardId targetTaskId,
     List.NoDup
       (allTaskIds (handleTaskDrop boards dragging jsonData targetBoardId targetTaskId))) /\
  (forall draggingBoard sourceBoardId targetBoardId,
     List.NoDup
       (allTaskIds (handleBoardDrop boards draggingBoard sourceBoardId targetBoardId))) /\
  (forall bId v, List.NoDup (allTaskIds (updateBoardTitle boards bId v))) /\
  (forall confirmed bId, List.NoDup (allTaskIds (deleteBoard boards confirmed bId))) /\
  (forall pick stamp, List.NoDup (allTaskIds (addNewBoard boards pick stamp))).
Proof.
  intros Hnd.
  assert (Hedit : forall bId write,
             (forall tasks, map outlineOf (write tasks) = map outlineOf tasks) ->
             List.NoDup (allTaskIds (onBoard boards bId write))).
  { intros bId write Hw.
    now rewrite (allTaskIds_outline _ _ (onBoard_outline boards bId write Hw)). }
  repeat match goal with |- _ /\ _ => split end;
    try (intros; apply Hedit; intros tasks; apply writeFirst_outline;
         intros y; destruct y; reflexivity).
  - intros bId tId. now apply NoDup_deleteTask.
  - intros stamp bId Hfresh. unfold addNewTask.
    destruct (Js.findIndex (fun board => String.eqb (Board.id board) bId) boards)
      as [i|] eqn:Hi; [|now rewrite onBoard_missing].
    destruct (findIndex_Some _ _ _ Hi) as (b & Hb & _).
    rewrite (onBoard_found _ _ _ _ _ Hi Hb).
    assert (Hp : Permutation
                   (allTaskIds (<[i := Board.setTasks b (Js.push (Board.tasks b)
                                                           (newTask stamp))]> boards))
                   ([("task-" ++ stamp)%string] ++ allTaskIds boards)).
    { apply allTaskIds_insert_more; [exact Hb|].
      unfold Js.push. rewrite forestIds_app. apply Permutation_app_comm. }
    apply (Permutation_NoDup (Permutation_sym Hp)). cbn [app]. now constructor.
  - intros dragging jsonData targetBoardId targetTaskId.
    destruct (handleTaskDrop_ids boards dragging jsonData targetBoardId targetTaskId)
      as [lost Hp].
    apply (Permutation_NoDup Hp) in Hnd. now apply List.NoDup_app_remove_l in Hnd.
  - intros draggingBoard sourceBoardId targetBoardId.
    pose proof (handleBoardDrop_content boards draggingBoard sourceBoardId targetBoardId)
      as Hp.
    apply (Permutation_NoDup (l := allTaskIds boards)); [|exact Hnd].
    rewrite !allTaskIds_content. symmetry. now apply Permutation_flat_map.
  - intros bId v. unfold updateBoardTitle.
    destruct (Js.findIndex _ boards) as [i|]; [|exact Hnd].
    replace (allTaskIds (alter (fun board => Board.setTitle board v) i boards))
      with (allTaskIds boards); [exact Hnd|].
    clear. revert i. unfold allTaskIds.
    induction boards as [|b l IH]; intros [|i]; try reflexivity.
    cbn [alter list_alter flat_map]. now rewrite <- IH.
  - intros confirmed bId. unfold deleteBoard. destruct confirmed; [|exact Hnd].
    now apply NoDup_flat_map_filter.
  - intros pick stamp. unfold addNewBoard. rewrite allTaskIds_app. cbn.
    now rewrite app_nil_r.
Qed.

Lemma unique_task_ids_are_kept_witness :
  List.NoDup (allTaskIds (handleTaskDrop nestedBoards (Some (dragOf "b1" "C"))
                            (Some (dragOf "b1" "C")) "b2" (Some "E"))) /\
  List.NoDup (allTaskIds (addNewTask nestedBoards "7" "b2")).
Proof.
  destruct (unique_task_ids_are_kept nestedBoards)
    as (_ & _ & _ & _ & _ & _ & _ & _ & Hadd & Hdrop & _).
  - vm_compute. repeat constructor; cbn; intuition discriminate.
  - split; [apply Hdrop|]. apply Hadd. vm_compute. intuition discriminate.
Defined.
